(** * A model of React 17's scheduler and lane engine

    These source files are embedded here:

    - [ReactFiberLane] (the lane bitmask engine used by the reconciler),
      in [Module Lane];
    - [Scheduler.js] (the cooperative task scheduler), in [Module Scheduler],
      with the DOM implementation of its host, [SchedulerHostConfig], in
      [Module SchedulerHostConfig].

    JavaScript numbers that hold lane masks are modelled as [Z]; the bitwise
    operators go through [ToInt32] exactly as the language does, so the
    wrap-around of [<<] and of operands outside the 32-bit range is part of
    the model.  Time stamps are modelled as integers (milliseconds). *)

From Stdlib Require Import ZArith Lia Bool.
From stdpp Require Import base option gmap list sorting.
From Equations Require Import Equations.

Local Open Scope Z_scope.

(** ** JavaScript 32-bit integer operators *)

Module JS.

(** [ToInt32]: reduce modulo 2^32 into the signed range. *)
Definition toInt32 (z : Z) : Z := (z + 2 ^ 31) mod 2 ^ 32 - 2 ^ 31.

(** [ToUint32]: reduce modulo 2^32 into the unsigned range. *)
Definition toUint32 (z : Z) : Z := z mod 2 ^ 32.

(** [a & b] *)
Definition band (a b : Z) : Z := Z.land (toInt32 a) (toInt32 b).

(** [a | b] *)
Definition bor (a b : Z) : Z := Z.lor (toInt32 a) (toInt32 b).

(** [~a] *)
Definition bnot (a : Z) : Z := Z.lnot (toInt32 a).

(** [a << n]: the shift count is taken modulo 32 and the result wraps. *)
Definition shl (a n : Z) : Z :=
  toInt32 (Z.shiftl (toInt32 a) (toUint32 n mod 32)).

(** [Math.clz32]: leading zero bits of the unsigned 32-bit value.  The
    source falls back to a logarithm when the builtin is missing; the
    builtin is what is modelled. *)
Definition clz32 (x : Z) : Z :=
  let u := toUint32 x in if u =? 0 then 32 else 31 - Z.log2 u.

(** *** Ranges and bits of 32-bit values *)

Definition is_int32 (z : Z) : Prop := - 2 ^ 31 <= z < 2 ^ 31.
Definition is_lanes (z : Z) : Prop := 0 <= z < 2 ^ 31.

Lemma toInt32_range z : is_int32 (toInt32 z).
Proof. unfold is_int32, toInt32. pose proof (Z.mod_pos_bound (z + 2 ^ 31) (2 ^ 32)). lia. Qed.

Lemma toInt32_small z : is_int32 z -> toInt32 z = z.
Proof. unfold is_int32, toInt32. intros H. rewrite Z.mod_small; lia. Qed.

Lemma is_lanes_int32 z : is_lanes z -> is_int32 z.
Proof. unfold is_lanes, is_int32. lia. Qed.

Lemma toInt32_lanes z : is_lanes z -> toInt32 z = z.
Proof. intros. apply toInt32_small, is_lanes_int32; assumption. Qed.

Lemma bits_above_lanes z i : is_lanes z -> 31 <= i -> Z.testbit z i = false.
Proof.
  intros [H0 H1] Hi. destruct (Z.eq_dec z 0) as [->|Hz]; [apply Z.bits_0|].
  apply Z.bits_above_log2; [lia|].
  assert (Z.log2 z < 31) by (apply Z.log2_lt_pow2; lia). lia.
Qed.

Lemma is_lanes_bits z :
  0 <= z -> (forall i, 31 <= i -> Z.testbit z i = false) -> is_lanes z.
Proof.
  intros H0 Hb. split; [assumption|].
  destruct (Z.eq_dec z 0) as [->|Hz]; [lia|].
  apply Z.log2_lt_pow2; [lia|].
  destruct (Z_lt_dec (Z.log2 z) 31) as [|Hge]; [assumption|].
  pose proof (Z.bit_log2 z ltac:(lia)) as Hbit.
  rewrite Hb in Hbit by lia. discriminate.
Qed.

Lemma is_lanes_land a b : is_lanes a -> is_lanes b -> is_lanes (Z.land a b).
Proof.
  intros Ha Hb. apply is_lanes_bits.
  - apply Z.land_nonneg. left. apply Ha.
  - intros i Hi. rewrite Z.land_spec, (bits_above_lanes a) by assumption. reflexivity.
Qed.

Lemma is_lanes_lor a b : is_lanes a -> is_lanes b -> is_lanes (Z.lor a b).
Proof.
  intros Ha Hb. apply is_lanes_bits.
  - apply Z.lor_nonneg. split; [apply Ha|apply Hb].
  - intros i Hi. rewrite Z.lor_spec, (bits_above_lanes a), (bits_above_lanes b) by assumption. reflexivity.
Qed.

Lemma is_lanes_ldiff a b : is_lanes a -> is_lanes (Z.ldiff a b).
Proof.
  intros Ha. apply is_lanes_bits.
  - apply Z.ldiff_nonneg. left. apply Ha.
  - intros i Hi. rewrite Z.ldiff_spec, (bits_above_lanes a) by assumption. reflexivity.
Qed.

Lemma band_lanes a b : is_lanes a -> is_lanes b -> band a b = Z.land a b.
Proof. intros Ha Hb. unfold band. rewrite !toInt32_lanes by assumption. reflexivity. Qed.

Lemma bor_lanes a b : is_lanes a -> is_lanes b -> bor a b = Z.lor a b.
Proof. intros Ha Hb. unfold bor. rewrite !toInt32_lanes by assumption. reflexivity. Qed.

Lemma bnot_lanes a : is_lanes a -> bnot a = Z.lnot a.
Proof. intros Ha. unfold bnot. rewrite toInt32_lanes by assumption. reflexivity. Qed.

Lemma band_bnot_lanes a b : is_lanes a -> is_lanes b -> band a (bnot b) = Z.ldiff a b.
Proof.
  intros Ha Hb. unfold band. rewrite bnot_lanes, toInt32_lanes by assumption.
  rewrite toInt32_small.
  - symmetry. apply Z.ldiff_land.
  - unfold is_int32, is_lanes in *. rewrite Z.lnot_eq_pred_opp. lia.
Qed.

Lemma is_lanes_pow2 i : 0 <= i <= 30 -> is_lanes (2 ^ i).
Proof.
  intros Hi. split; [apply Z.pow_nonneg; lia|].
  apply Z.pow_lt_mono_r; lia.
Qed.

Lemma shl_1 i : 0 <= i <= 30 -> shl 1 i = 2 ^ i.
Proof.
  intros Hi. unfold shl, toUint32.
  rewrite (toInt32_small 1) by (unfold is_int32; lia).
  rewrite (Z.mod_small i) by lia.
  rewrite (Z.mod_small i) by lia.
  rewrite Z.shiftl_1_l. apply toInt32_lanes, is_lanes_pow2. assumption.
Qed.

Lemma clz32_lanes x : is_lanes x -> 0 < x -> clz32 x = 31 - Z.log2 x.
Proof.
  intros [H0 H1] Hx. unfold clz32, toUint32.
  rewrite Z.mod_small by lia.
  destruct (Z.eqb_spec x 0); [lia|reflexivity].
Qed.

Lemma log2_lanes x : is_lanes x -> 0 < x -> 0 <= Z.log2 x <= 30.
Proof.
  intros [H0 H1] Hx. split; [apply Z.log2_nonneg|].
  assert (Z.log2 x < 31) by (apply Z.log2_lt_pow2; lia). lia.
Qed.


Lemma log2_clearbit_lt x :
  0 < x -> 0 < Z.clearbit x (Z.log2 x) -> Z.log2 (Z.clearbit x (Z.log2 x)) < Z.log2 x.
Proof.
  intros Hx Hc.
  pose proof (Z.bit_log2 _ Hc) as Hbit.
  rewrite Z.clearbit_eqb in Hbit. apply andb_prop in Hbit as [Hb1 Hb2].
  destruct (Z_lt_dec (Z.log2 (Z.clearbit x (Z.log2 x))) (Z.log2 x)) as [|Hge]; [assumption|].
  destruct (Z.eqb_spec (Z.log2 x) (Z.log2 (Z.clearbit x (Z.log2 x)))) as [|Hne]; [discriminate|].
  rewrite Z.bits_above_log2 in Hb1 by lia. discriminate.
Qed.

Lemma is_int32_land a b : is_int32 a -> is_int32 b -> is_int32 (Z.land a b).
Proof.
  intros Ha Hb. unfold is_int32 in *.
  destruct (Z_lt_dec a 0) as [Han|Hap]; destruct (Z_lt_dec b 0) as [Hbn|Hbp].
  - (* both negative: lnot of lor of the complements *)
    assert (Hl : Z.land a b = Z.lnot (Z.lor (Z.lnot a) (Z.lnot b))).
    { rewrite Z.lnot_lor, !Z.lnot_involutive. reflexivity. }
    rewrite Hl.
    assert (is_lanes (Z.lor (Z.lnot a) (Z.lnot b))) as [? ?].
    { apply is_lanes_lor; unfold is_lanes; rewrite Z.lnot_eq_pred_opp; lia. }
    rewrite Z.lnot_eq_pred_opp. lia.
  - assert (is_lanes (Z.land a b)) as [? ?]; [|lia].
    rewrite Z.land_comm.
    replace a with (Z.lnot (Z.lnot a)) by apply Z.lnot_involutive.
    rewrite <- Z.ldiff_land. apply is_lanes_ldiff. unfold is_lanes. lia.
  - assert (is_lanes (Z.land a b)) as [? ?]; [|lia].
    replace b with (Z.lnot (Z.lnot b)) by apply Z.lnot_involutive.
    rewrite <- Z.ldiff_land. apply is_lanes_ldiff. unfold is_lanes. lia.
  - assert (is_lanes (Z.land a b)) as [? ?]; [|lia].
    apply is_lanes_land; unfold is_lanes; lia.
Qed.

Lemma band_range a b : is_int32 (band a b).
Proof. apply is_int32_land; apply toInt32_range. Qed.

End JS.

(** ** ReactFiberLane *)

Module Lane.
Import JS.

(** *** Lane priorities *)

Definition SyncLanePriority : Z := 15.
Definition SyncBatchedLanePriority : Z := 14.
Definition InputDiscreteHydrationLanePriority : Z := 13.
Definition InputDiscreteLanePriority : Z := 12.
Definition InputContinuousHydrationLanePriority : Z := 11.
Definition InputContinuousLanePriority : Z := 10.
Definition DefaultHydrationLanePriority : Z := 9.
Definition DefaultLanePriority : Z := 8.
Definition TransitionHydrationPriority : Z := 7.
Definition TransitionPriority : Z := 6.
Definition RetryLanePriority : Z := 5.
Definition SelectiveHydrationLanePriority : Z := 4.
Definition IdleHydrationLanePriority : Z := 3.
Definition IdleLanePriority : Z := 2.
Definition OffscreenLanePriority : Z := 1.
Definition NoLanePriority : Z := 0.

Definition TotalLanes : Z := 31.

(** *** Lane masks *)

Definition NoLanes : Z := 0.
Definition NoLane : Z := 0.
Definition SyncLane : Z := 1.
Definition SyncBatchedLane : Z := 2.
Definition InputDiscreteHydrationLane : Z := 4.
Definition InputDiscreteLanes : Z := 24.
Definition InputContinuousHydrationLane : Z := 32.
Definition InputContinuousLanes : Z := 192.
Definition DefaultHydrationLane : Z := 256.
Definition DefaultLanes : Z := 3584.
Definition TransitionHydrationLane : Z := 4096.
Definition TransitionLanes : Z := 4186112.
Definition RetryLanes : Z := 62914560.
Definition SomeRetryLane : Z := 33554432.
Definition SelectiveHydrationLane : Z := 67108864.
Definition NonIdleLanes : Z := 134217727.
Definition IdleHydrationLane : Z := 134217728.
Definition IdleLanes : Z := 805306368.
Definition OffscreenLane : Z := 1073741824.

Definition NoTimestamp : Z := -1.

(** *** The root's lane registers

    The fields of [FiberRoot] that this file reads and writes (the type is
    declared in [ReactInternalTypes]).  A [LaneMap] is a JavaScript array
    indexed by lane position.  It is
    modelled as a finite map from index to value: reading a slot that was
    never written gives [None] ([undefined]), and a write creates the slot
    whatever the index, as an array write does. *)

Record FiberRoot : Type := mkFiberRoot {
  pendingLanes : Z;
  suspendedLanes : Z;
  pingedLanes : Z;
  expiredLanes : Z;
  mutableReadLanes : Z;
  entangledLanes : Z;
  eventTimes : gmap Z Z;
  expirationTimes : gmap Z Z;
  entanglements : gmap Z Z
}.

(** [new Array(TotalLanes).fill(initial)] *)
Definition createLaneMap (initial : Z) : gmap Z Z :=
  list_to_map ((fun i => (i, initial)) <$> seqZ 0 TotalLanes).

(** *** Classification *)

(** [getHighestPriorityLanes] returns the selected lanes together with the
    value it leaves in the register [return_highestLanePriority]. *)
Definition getHighestPriorityLanes (lanes : Z) : Z * Z :=
  if negb (band SyncLane lanes =? NoLanes) then (SyncLane, SyncLanePriority)
  else if negb (band SyncBatchedLane lanes =? NoLanes)
  then (SyncBatchedLane, SyncBatchedLanePriority)
  else if negb (band InputDiscreteHydrationLane lanes =? NoLanes)
  then (InputDiscreteHydrationLane, InputDiscreteHydrationLanePriority)
  else
  let inputDiscreteLanes := band InputDiscreteLanes lanes in
  if negb (inputDiscreteLanes =? NoLanes)
  then (inputDiscreteLanes, InputDiscreteLanePriority)
  else if negb (band lanes InputContinuousHydrationLane =? NoLanes)
  then (InputContinuousHydrationLane, InputContinuousHydrationLanePriority)
  else
  let inputContinuousLanes := band InputContinuousLanes lanes in
  if negb (inputContinuousLanes =? NoLanes)
  then (inputContinuousLanes, InputContinuousLanePriority)
  else if negb (band lanes DefaultHydrationLane =? NoLanes)
  then (DefaultHydrationLane, DefaultHydrationLanePriority)
  else
  let defaultLanes := band DefaultLanes lanes in
  if negb (defaultLanes =? NoLanes) then (defaultLanes, DefaultLanePriority)
  else if negb (band lanes TransitionHydrationLane =? NoLanes)
  then (TransitionHydrationLane, TransitionHydrationPriority)
  else
  let transitionLanes := band TransitionLanes lanes in
  if negb (transitionLanes =? NoLanes)
  then (transitionLanes, TransitionPriority)
  else
  let retryLanes := band RetryLanes lanes in
  if negb (retryLanes =? NoLanes) then (retryLanes, RetryLanePriority)
  else if negb (band lanes SelectiveHydrationLane =? 0)
  then (SelectiveHydrationLane, SelectiveHydrationLanePriority)
  else if negb (band lanes IdleHydrationLane =? NoLanes)
  then (IdleHydrationLane, IdleHydrationLanePriority)
  else
  let idleLanes := band IdleLanes lanes in
  if negb (idleLanes =? NoLanes) then (idleLanes, IdleLanePriority)
  else if negb (band OffscreenLane lanes =? NoLanes)
  then (OffscreenLane, OffscreenLanePriority)
  else (lanes, DefaultLanePriority).

(** *** Bit tricks *)

Definition getHighestPriorityLane (lanes : Z) : Z := band lanes (- lanes).

Definition getLowestPriorityLane (lanes : Z) : Z :=
  let index := 31 - clz32 lanes in
  if index <? 0 then NoLanes else shl 1 index.

Definition getEqualOrHigherPriorityLanes (lanes : Z) : Z :=
  shl (getLowestPriorityLane lanes) 1 - 1.

Definition pickArbitraryLane (lanes : Z) : Z := getHighestPriorityLane lanes.

Definition pickArbitraryLaneIndex (lanes : Z) : Z := 31 - clz32 lanes.

Definition laneToIndex (lane : Z) : Z := pickArbitraryLaneIndex lane.

Definition includesSomeLane (a b : Z) : bool := negb (band a b =? NoLanes).

Definition isSubsetOfLanes (set subset : Z) : bool := band set subset =? subset.

Definition mergeLanes (a b : Z) : Z := bor a b.

Definition removeLanes (set subset : Z) : Z := band set (bnot subset).

(** *** Iterating over the lanes of a mask

    The source repeats one loop shape:
<<
    while (lanes > 0) {
      const index = pickArbitraryLaneIndex(lanes);
      const lane = 1 << index;
      BODY
      lanes &= ~lane;
    }
>>
    [forEachLane body lanes s] runs it from state [s]; [body] receives
    [index] and [lane].  The recursion is well founded: every round clears
    the most significant lane of the mask. *)

Definition dropLane (lanes : Z) : Z :=
  band lanes (bnot (shl 1 (pickArbitraryLaneIndex lanes))).

Definition lanes_measure (lanes : Z) : nat :=
  if 0 <? lanes then S (Z.to_nat (Z.log2 lanes)) else O.

Lemma pickArbitraryLaneIndex_lanes x :
  is_lanes x -> 0 < x -> pickArbitraryLaneIndex x = Z.log2 x.
Proof. intros. unfold pickArbitraryLaneIndex. rewrite clz32_lanes by assumption. lia. Qed.

Lemma dropLane_lanes x :
  is_lanes x -> 0 < x -> dropLane x = Z.clearbit x (Z.log2 x).
Proof.
  intros Hx Hpos. unfold dropLane.
  rewrite pickArbitraryLaneIndex_lanes by assumption.
  pose proof (log2_lanes x Hx Hpos).
  rewrite shl_1 by assumption.
  rewrite band_bnot_lanes by (try assumption; apply is_lanes_pow2; assumption).
  symmetry. apply Z.clearbit_spec'.
Qed.

Lemma dropLane_decreases lanes :
  0 < lanes -> (lanes_measure (dropLane lanes) < lanes_measure lanes)%nat.
Proof.
  intros Hpos. unfold lanes_measure at 2.
  destruct (Z.ltb_spec 0 lanes) as [_|]; [|lia].
  unfold lanes_measure. destruct (Z.ltb_spec 0 (dropLane lanes)) as [Hd|]; [|lia].
  apply -> Nat.succ_lt_mono. apply Z2Nat.inj_lt; try apply Z.log2_nonneg.
  destruct (Z_lt_dec lanes (2 ^ 31)) as [Hlt|Hge].
  - assert (is_lanes lanes) as Hl by (unfold is_lanes; lia).
    rewrite dropLane_lanes in * by assumption.
    apply log2_clearbit_lt; assumption.
  - pose proof (band_range lanes (bnot (shl 1 (pickArbitraryLaneIndex lanes)))) as [_ Hr].
    fold (dropLane lanes) in Hr.
    assert (Z.log2 (dropLane lanes) < 31) by (apply Z.log2_lt_pow2; lia).
    assert (31 <= Z.log2 lanes) by (apply Z.log2_le_pow2; lia).
    lia.
Qed.

Section Loop.
Context {St : Type} (body : Z -> Z -> St -> St).

Equations? forEachLane (lanes : Z) (s : St) : St
  by wf (lanes_measure lanes) lt :=
  forEachLane lanes s with Z_lt_dec 0 lanes := {
    | left _ =>
        let index := pickArbitraryLaneIndex lanes in
        let lane := shl 1 index in
        forEachLane (band lanes (bnot lane)) (body index lane s)
    | right _ => s }.
Proof. apply dropLane_decreases; assumption. Qed.
End Loop.

(** *** Choosing the next batch

    [getNextLanes] reads and writes the register
    [return_highestLanePriority]; the register is threaded explicitly: the
    function takes its value on entry and returns the lanes together with
    its value on exit.

    The body of the source function is modelled in two parts.
    [selectNextLanes] is everything up to the entanglement step; it gives
    [inl] when the function returns there (no pending work, nothing
    actionable, or the in-progress lanes are kept) and [inr] with the
    chosen lanes when control reaches the entanglement step.
    [getNextLanes] then applies the entanglements.  A missing
    [entanglements] slot reads as [undefined], which [|] converts to [0]. *)

Definition selectNextLanes (root : FiberRoot) (wipLanes : Z)
    (return_highestLanePriority : Z) : (Z * Z) + (Z * Z) :=
  let pendingLanes := pendingLanes root in
  if pendingLanes =? NoLanes then inl (NoLanes, NoLanePriority)
  else
  let expiredLanes := expiredLanes root in
  let suspendedLanes := suspendedLanes root in
  let pingedLanes := pingedLanes root in
  let '(nextLanes, nextLanePriority, reg) :=
    if negb (expiredLanes =? NoLanes)
    then (expiredLanes, SyncLanePriority, SyncLanePriority)
    else
      let nonIdlePendingLanes := band pendingLanes NonIdleLanes in
      if negb (nonIdlePendingLanes =? NoLanes) then
        let nonIdleUnblockedLanes :=
          band nonIdlePendingLanes (bnot suspendedLanes) in
        if negb (nonIdleUnblockedLanes =? NoLanes) then
          let '(l, p) := getHighestPriorityLanes nonIdleUnblockedLanes in
          (l, p, p)
        else
          let nonIdlePingedLanes := band nonIdlePendingLanes pingedLanes in
          if negb (nonIdlePingedLanes =? NoLanes) then
            let '(l, p) := getHighestPriorityLanes nonIdlePingedLanes in
            (l, p, p)
          else (NoLanes, NoLanePriority, return_highestLanePriority)
      else
        let unblockedLanes := band pendingLanes (bnot suspendedLanes) in
        if negb (unblockedLanes =? NoLanes) then
          let '(l, p) := getHighestPriorityLanes unblockedLanes in
          (l, p, p)
        else if negb (pingedLanes =? NoLanes) then
          let '(l, p) := getHighestPriorityLanes pingedLanes in
          (l, p, p)
        else (NoLanes, NoLanePriority, return_highestLanePriority) in
  if nextLanes =? NoLanes then inl (NoLanes, reg)
  else
  let nextLanes := band pendingLanes (getEqualOrHigherPriorityLanes nextLanes) in
  if negb (wipLanes =? NoLanes) && negb (wipLanes =? nextLanes)
     && (band wipLanes suspendedLanes =? NoLanes)
  then
    let wipLanePriority := snd (getHighestPriorityLanes wipLanes) in
    if nextLanePriority <=? wipLanePriority
    then inl (wipLanes, wipLanePriority)
    else inr (nextLanes, nextLanePriority)
  else inr (nextLanes, reg).

Definition getNextLanes (root : FiberRoot) (wipLanes : Z)
    (return_highestLanePriority : Z) : Z * Z :=
  match selectNextLanes root wipLanes return_highestLanePriority with
  | inl returned => returned
  | inr (nextLanes, reg) =>
      let entangledLanes := entangledLanes root in
      if negb (entangledLanes =? NoLanes) then
        let entanglements := entanglements root in
        (forEachLane
           (fun index _ nextLanes =>
              bor nextLanes (default 0 (entanglements !! index)))
           (band nextLanes entangledLanes) nextLanes, reg)
      else (nextLanes, reg)
  end.

(** *** Expiration *)

(** Returns the expiration time and the value left in
    [return_highestLanePriority]. *)
Definition computeExpirationTime (lane currentTime : Z) : Z * Z :=
  let priority := snd (getHighestPriorityLanes lane) in
  (if InputContinuousLanePriority <=? priority then currentTime + 250
   else if TransitionPriority <=? priority then currentTime + 5000
   else NoTimestamp,
   priority).

(** One round of the loop of [markStarvedLanesAsExpired].  A slot that
    reads [undefined] is neither [=== NoTimestamp] nor [<= currentTime]. *)
Definition markStarvedLane (suspendedLanes pingedLanes currentTime : Z)
    (index lane : Z) (st : FiberRoot * Z) : FiberRoot * Z :=
  let '(root, reg) := st in
  match expirationTimes root !! index with
  | None => (root, reg)
  | Some expirationTime =>
      if expirationTime =? NoTimestamp then
        if (band lane suspendedLanes =? NoLanes)
           || negb (band lane pingedLanes =? NoLanes)
        then
          let '(t, reg') := computeExpirationTime lane currentTime in
          (mkFiberRoot (pendingLanes root) (Lane.suspendedLanes root)
             (Lane.pingedLanes root) (expiredLanes root)
             (mutableReadLanes root) (entangledLanes root) (eventTimes root)
             (<[index := t]> (expirationTimes root)) (entanglements root),
           reg')
        else (root, reg)
      else if expirationTime <=? currentTime then
        (mkFiberRoot (pendingLanes root) (Lane.suspendedLanes root)
           (Lane.pingedLanes root) (bor (expiredLanes root) lane)
           (mutableReadLanes root) (entangledLanes root) (eventTimes root)
           (expirationTimes root) (entanglements root),
         reg)
      else (root, reg)
  end.

Definition markStarvedLanesAsExpired (root : FiberRoot) (currentTime : Z)
    (return_highestLanePriority : Z) : FiberRoot * Z :=
  let pendingLanes := pendingLanes root in
  let suspendedLanes := suspendedLanes root in
  let pingedLanes := pingedLanes root in
  forEachLane (markStarvedLane suspendedLanes pingedLanes currentTime)
    pendingLanes (root, return_highestLanePriority).

(** *** Marking the root *)

Definition markRootUpdated (root : FiberRoot) (updateLane eventTime : Z)
    : FiberRoot :=
  let higherPriorityLanes := updateLane - 1 in
  let index := laneToIndex updateLane in
  mkFiberRoot
    (bor (pendingLanes root) updateLane)
    (band (suspendedLanes root) higherPriorityLanes)
    (band (pingedLanes root) higherPriorityLanes)
    (expiredLanes root) (mutableReadLanes root) (entangledLanes root)
    (<[index := eventTime]> (eventTimes root))
    (expirationTimes root) (entanglements root).

Definition markRootSuspended (root : FiberRoot) (suspendedLanes : Z)
    : FiberRoot :=
  mkFiberRoot
    (pendingLanes root)
    (bor (Lane.suspendedLanes root) suspendedLanes)
    (band (pingedLanes root) (bnot suspendedLanes))
    (expiredLanes root) (mutableReadLanes root) (entangledLanes root)
    (eventTimes root)
    (forEachLane (fun index _ (expirationTimes : gmap Z Z) =>
                    <[index := NoTimestamp]> expirationTimes)
       suspendedLanes (expirationTimes root))
    (entanglements root).

Definition markRootPinged (root : FiberRoot) (pingedLanes eventTime : Z)
    : FiberRoot :=
  mkFiberRoot
    (pendingLanes root) (suspendedLanes root)
    (bor (Lane.pingedLanes root) (band (suspendedLanes root) pingedLanes))
    (expiredLanes root) (mutableReadLanes root) (entangledLanes root)
    (eventTimes root) (expirationTimes root) (entanglements root).

Definition markRootExpired (root : FiberRoot) (expiredLanes : Z) : FiberRoot :=
  mkFiberRoot
    (pendingLanes root) (suspendedLanes root) (pingedLanes root)
    (bor (Lane.expiredLanes root) (band expiredLanes (pendingLanes root)))
    (mutableReadLanes root) (entangledLanes root)
    (eventTimes root) (expirationTimes root) (entanglements root).

Definition markRootMutableRead (root : FiberRoot) (updateLane : Z)
    : FiberRoot :=
  mkFiberRoot
    (pendingLanes root) (suspendedLanes root) (pingedLanes root)
    (expiredLanes root)
    (bor (mutableReadLanes root) (band updateLane (pendingLanes root)))
    (entangledLanes root)
    (eventTimes root) (expirationTimes root) (entanglements root).

(** One round of the loop of [markRootFinished], on the three tables
    (entanglements, eventTimes, expirationTimes). *)
Definition clearLaneSlots (index lane : Z)
    (tables : gmap Z Z * gmap Z Z * gmap Z Z) : gmap Z Z * gmap Z Z * gmap Z Z :=
  let '(entanglements, eventTimes, expirationTimes) := tables in
  (<[index := NoLanes]> entanglements,
   <[index := NoTimestamp]> eventTimes,
   <[index := NoTimestamp]> expirationTimes).

Definition markRootFinished (root : FiberRoot) (remainingLanes : Z)
    : FiberRoot :=
  let noLongerPendingLanes := band (pendingLanes root) (bnot remainingLanes) in
  let '(entanglements, eventTimes, expirationTimes) :=
    forEachLane clearLaneSlots noLongerPendingLanes
      (entanglements root, eventTimes root, expirationTimes root) in
  mkFiberRoot
    remainingLanes
    0
    0
    (band (expiredLanes root) remainingLanes)
    (band (mutableReadLanes root) remainingLanes)
    (band (entangledLanes root) remainingLanes)
    eventTimes expirationTimes entanglements.

Definition markRootEntangled (root : FiberRoot) (entangledLanes : Z)
    : FiberRoot :=
  mkFiberRoot
    (pendingLanes root) (suspendedLanes root) (pingedLanes root)
    (expiredLanes root) (mutableReadLanes root)
    (bor (Lane.entangledLanes root) entangledLanes)
    (eventTimes root) (expirationTimes root)
    (forEachLane (fun index _ (entanglements : gmap Z Z) =>
                    <[index := bor (default 0 (entanglements !! index))
                                   entangledLanes]> entanglements)
       entangledLanes (entanglements root)).

(** *** The other exported functions *)

Definition getLanesToRetrySynchronouslyOnError (root : FiberRoot) : Z :=
  let everythingButOffscreen := band (pendingLanes root) (bnot OffscreenLane) in
  if negb (everythingButOffscreen =? NoLanes) then everythingButOffscreen
  else if negb (band everythingButOffscreen OffscreenLane =? 0)
  then OffscreenLane
  else NoLanes.

Definition includesNonIdleWork (lanes : Z) : bool :=
  negb (band lanes NonIdleLanes =? NoLanes).

(** [findUpdateLane] calls itself with the next priority level when the
    lanes of a level are all taken (12, then 10, then 8), so the calls are
    at most three deep; [depth] bounds them.  The inner [None] is the
    failed [invariant] at the end of the function; the outer [None] means
    the bound was reached, which [findUpdateLane] below never meets. *)
Fixpoint findUpdateLaneWithin (depth : nat) (lanePriority wipLanes : Z)
    : option (option Z) :=
  match depth with
  | O => None
  | S depth =>
      if lanePriority =? NoLanePriority then Some None
      else if lanePriority =? SyncLanePriority then Some (Some SyncLane)
      else if lanePriority =? SyncBatchedLanePriority
      then Some (Some SyncBatchedLane)
      else if lanePriority =? InputDiscreteLanePriority then
        let lane := pickArbitraryLane (band InputDiscreteLanes (bnot wipLanes)) in
        if lane =? NoLane
        then findUpdateLaneWithin depth InputContinuousLanePriority wipLanes
        else Some (Some lane)
      else if lanePriority =? InputContinuousLanePriority then
        let lane :=
          pickArbitraryLane (band InputContinuousLanes (bnot wipLanes)) in
        if lane =? NoLane
        then findUpdateLaneWithin depth DefaultLanePriority wipLanes
        else Some (Some lane)
      else if lanePriority =? DefaultLanePriority then
        let lane := pickArbitraryLane (band DefaultLanes (bnot wipLanes)) in
        if lane =? NoLane then
          let lane := pickArbitraryLane (band TransitionLanes (bnot wipLanes)) in
          if lane =? NoLane then Some (Some (pickArbitraryLane DefaultLanes))
          else Some (Some lane)
        else Some (Some lane)
      else if (lanePriority =? TransitionPriority)
              || (lanePriority =? RetryLanePriority)
      then Some None
      else if lanePriority =? IdleLanePriority then
        let lane := pickArbitraryLane (band IdleLanes (bnot wipLanes)) in
        if lane =? NoLane then Some (Some (pickArbitraryLane IdleLanes))
        else Some (Some lane)
      else Some None
  end.

Definition findUpdateLane (lanePriority wipLanes : Z) : option Z :=
  match findUpdateLaneWithin 3 lanePriority wipLanes with
  | Some result => result
  | None => None
  end.

Definition findTransitionLane (wipLanes pendingLanes : Z) : Z :=
  let lane := pickArbitraryLane (band TransitionLanes (bnot pendingLanes)) in
  if lane =? NoLane then
    let lane := pickArbitraryLane (band TransitionLanes (bnot wipLanes)) in
    if lane =? NoLane then pickArbitraryLane TransitionLanes else lane
  else lane.

Definition findRetryLane (wipLanes : Z) : Z :=
  let lane := pickArbitraryLane (band RetryLanes (bnot wipLanes)) in
  if lane =? NoLane then pickArbitraryLane RetryLanes else lane.

(** A slot that reads [undefined] is not greater than any number. *)
Definition getMostRecentEventTime (root : FiberRoot) (lanes : Z) : Z :=
  let eventTimes := eventTimes root in
  forEachLane
    (fun index _ mostRecentEventTime =>
       match eventTimes !! index with
       | Some eventTime =>
           if mostRecentEventTime <? eventTime then eventTime
           else mostRecentEventTime
       | None => mostRecentEventTime
       end)
    lanes NoTimestamp.

Definition markDiscreteUpdatesExpired (root : FiberRoot) : FiberRoot :=
  mkFiberRoot
    (pendingLanes root) (suspendedLanes root) (pingedLanes root)
    (bor (expiredLanes root) (band InputDiscreteLanes (pendingLanes root)))
    (mutableReadLanes root) (entangledLanes root)
    (eventTimes root) (expirationTimes root) (entanglements root).

(** [None] is the failed [invariant] of the [default] case.  The call of
    [getHighestPriorityLanes] also leaves the priority it reads in the
    register. *)
Definition getBumpedLaneForHydration (root : FiberRoot) (renderLanes : Z)
    : option Z :=
  let highestLanePriority := snd (getHighestPriorityLanes renderLanes) in
  let chosen :=
    if (highestLanePriority =? SyncLanePriority)
       || (highestLanePriority =? SyncBatchedLanePriority)
    then Some NoLane
    else if (highestLanePriority =? InputDiscreteHydrationLanePriority)
            || (highestLanePriority =? InputDiscreteLanePriority)
    then Some InputDiscreteHydrationLane
    else if (highestLanePriority =? InputContinuousHydrationLanePriority)
            || (highestLanePriority =? InputContinuousLanePriority)
    then Some InputContinuousHydrationLane
    else if (highestLanePriority =? DefaultHydrationLanePriority)
            || (highestLanePriority =? DefaultLanePriority)
    then Some DefaultHydrationLane
    else if (highestLanePriority =? TransitionHydrationPriority)
            || (highestLanePriority =? TransitionPriority)
    then Some TransitionHydrationLane
    else if highestLanePriority =? RetryLanePriority
    then Some TransitionHydrationLane
    else if highestLanePriority =? SelectiveHydrationLanePriority
    then Some SelectiveHydrationLane
    else if (highestLanePriority =? IdleHydrationLanePriority)
            || (highestLanePriority =? IdleLanePriority)
    then Some IdleHydrationLane
    else if (highestLanePriority =? OffscreenLanePriority)
            || (highestLanePriority =? NoLanePriority)
    then Some NoLane
    else None in
  match chosen with
  | None => None
  | Some lane =>
      if negb (band lane (bor (suspendedLanes root) renderLanes) =? NoLane)
      then Some NoLane
      else Some lane
  end.

(** The priority levels of [SchedulerWithReactIntegration] are not among
    the sources; the two conversions take them as parameters.  A [switch]
    takes the first case that matches. *)
Section SchedulerPriorities.
Variables ImmediateSchedulerPriority UserBlockingSchedulerPriority
  NormalSchedulerPriority LowSchedulerPriority IdleSchedulerPriority
  NoSchedulerPriority : Z.

Definition schedulerPriorityToLanePriority (schedulerPriorityLevel : Z) : Z :=
  if schedulerPriorityLevel =? ImmediateSchedulerPriority then SyncLanePriority
  else if schedulerPriorityLevel =? UserBlockingSchedulerPriority
  then InputContinuousLanePriority
  else if (schedulerPriorityLevel =? NormalSchedulerPriority)
          || (schedulerPriorityLevel =? LowSchedulerPriority)
  then DefaultLanePriority
  else if schedulerPriorityLevel =? IdleSchedulerPriority then IdleLanePriority
  else NoLanePriority.

(** [None] is the failed [invariant] of the [default] case. *)
Definition lanePriorityToSchedulerPriority (lanePriority : Z) : option Z :=
  if (lanePriority =? SyncLanePriority)
     || (lanePriority =? SyncBatchedLanePriority)
  then Some ImmediateSchedulerPriority
  else if (lanePriority =? InputDiscreteHydrationLanePriority)
          || (lanePriority =? InputDiscreteLanePriority)
          || (lanePriority =? InputContinuousHydrationLanePriority)
          || (lanePriority =? InputContinuousLanePriority)
  then Some UserBlockingSchedulerPriority
  else if (lanePriority =? DefaultHydrationLanePriority)
          || (lanePriority =? DefaultLanePriority)
          || (lanePriority =? TransitionHydrationPriority)
          || (lanePriority =? TransitionPriority)
          || (lanePriority =? SelectiveHydrationLanePriority)
          || (lanePriority =? RetryLanePriority)
  then Some NormalSchedulerPriority
  else if (lanePriority =? IdleHydrationLanePriority)
          || (lanePriority =? IdleLanePriority)
          || (lanePriority =? OffscreenLanePriority)
  then Some IdleSchedulerPriority
  else if lanePriority =? NoLanePriority then Some NoSchedulerPriority
  else None.

End SchedulerPriorities.

End Lane.

(** ** Scheduler.js *)

Module Scheduler.

(** *** SchedulerPriorities *)

Definition NoPriority : Z := 0.
Definition ImmediatePriority : Z := 1.
Definition UserBlockingPriority : Z := 2.
Definition NormalPriority : Z := 3.
Definition LowPriority : Z := 4.
Definition IdlePriority : Z := 5.

Definition maxSigned31BitInt : Z := 1073741823.

Definition IMMEDIATE_PRIORITY_TIMEOUT : Z := -1.
Definition USER_BLOCKING_PRIORITY_TIMEOUT : Z := 250.
Definition NORMAL_PRIORITY_TIMEOUT : Z := 5000.
Definition LOW_PRIORITY_TIMEOUT : Z := 10000.
Definition IDLE_PRIORITY_TIMEOUT : Z := maxSigned31BitInt.

(** The [options] argument of [unstable_scheduleCallback]: either not an
    object (or [null]), or an object whose [delay] is a number or not. *)
Inductive Options : Type :=
  | NotAnObject
  | OptionsObject (delay : option Z).

(** How a JavaScript call ends: with a value, or by throwing. *)
Inductive Completion (R : Type) : Type :=
  | Returned (value : R)
  | Thrown.
Arguments Returned {R} value.
Arguments Thrown {R}.

(** *** SchedulerHostConfig

    The host supplies the clock, the yield test and the requests for a
    callback or a timer.  The requests made by this file always pass
    [flushWork] and [handleTimeout], so only the delay is an argument. *)
Class HostConfig (Host : Type) : Type := {
  getCurrentTime : Host -> Z;
  shouldYieldToHost : Host -> bool;
  requestHostCallback : Host -> Host;
  requestHostTimeout : Z -> Host -> Host;
  cancelHostTimeout : Host -> Host
}.

Section Scheduler.
Context {Callback Host : Type} `{HostConfig Host}.

(** Feature flag of [SchedulerFeatureFlags]. *)
Variable enableSchedulerDebugging : bool.

(** A task object.  [callback = None] is [callback === null]. *)
Record Task : Type := mkTask {
  id : Z;
  callback : option Callback;
  priorityLevel : Z;
  startTime : Z;
  expirationTime : Z;
  sortIndex : Z
}.

Definition setCallback (c : option Callback) (t : Task) : Task :=
  mkTask (id t) c (priorityLevel t) (startTime t) (expirationTime t)
    (sortIndex t).

Definition setSortIndex (k : Z) (t : Task) : Task :=
  mkTask (id t) (callback t) (priorityLevel t) (startTime t)
    (expirationTime t) k.

(** *** SchedulerMinHeap *)

(** Modelled from the spec: the module [SchedulerMinHeap] ([push], [peek],
    [pop]) is not among the sources.  The spec gives its contract: [peek]
    returns the minimum node or null, [pop] removes the minimum, [push]
    inserts, and nodes are compared by [sortIndex], ties broken by
    insertion [id], both ascending.  A queue is kept as the list of its
    nodes in that order, so the minimum is the head.  Nodes are references
    to task objects (a task is referred to by its [id], which the counter
    makes unique); the objects themselves live in the store [tasks]. *)
Definition compare (a b : Task) : Z :=
  let diff := sortIndex a - sortIndex b in
  if diff =? 0 then id a - id b else diff.

(** Modelled from the spec: [peek] returns the minimum node or null. *)
Definition peek (heap : list Z) : option Z := head heap.

(** Modelled from the spec: [pop] removes the minimum node. *)
Definition pop (heap : list Z) : list Z := tail heap.

(** Modelled from the spec: the comparator on references, through the
    store. *)
Definition precedes (tasks : gmap Z Task) (a b : Z) : bool :=
  match tasks !! a, tasks !! b with
  | Some ta, Some tb => compare ta tb <? 0
  | _, _ => false
  end.

(** Modelled from the spec: [push] inserts the node; among nodes that
    compare equal the earlier one stays first. *)
Fixpoint push (tasks : gmap Z Task) (heap : list Z) (node : Z) : list Z :=
  match heap with
  | [] => [node]
  | first :: rest =>
      if precedes tasks node first then node :: first :: rest
      else first :: push tasks rest node
  end.

(** *** Module state *)

Record State : Type := mkState {
  tasks : gmap Z Task;
  taskQueue : list Z;
  timerQueue : list Z;
  taskIdCounter : Z;
  isSchedulerPaused : bool;
  currentTask : option Z;
  currentPriorityLevel : Z;
  isPerformingWork : bool;
  isHostCallbackScheduled : bool;
  isHostTimeoutScheduled : bool;
  host : Host
}.

Definition withTasks (v : gmap Z Task) (s : State) : State :=
  mkState v (taskQueue s) (timerQueue s) (taskIdCounter s)
    (isSchedulerPaused s) (currentTask s) (currentPriorityLevel s)
    (isPerformingWork s) (isHostCallbackScheduled s)
    (isHostTimeoutScheduled s) (host s).

Definition withTaskQueue (v : list Z) (s : State) : State :=
  mkState (tasks s) v (timerQueue s) (taskIdCounter s)
    (isSchedulerPaused s) (currentTask s) (currentPriorityLevel s)
    (isPerformingWork s) (isHostCallbackScheduled s)
    (isHostTimeoutScheduled s) (host s).

Definition withTimerQueue (v : list Z) (s : State) : State :=
  mkState (tasks s) (taskQueue s) v (taskIdCounter s)
    (isSchedulerPaused s) (currentTask s) (currentPriorityLevel s)
    (isPerformingWork s) (isHostCallbackScheduled s)
    (isHostTimeoutScheduled s) (host s).

Definition withTaskIdCounter (v : Z) (s : State) : State :=
  mkState (tasks s) (taskQueue s) (timerQueue s) v
    (isSchedulerPaused s) (currentTask s) (currentPriorityLevel s)
    (isPerformingWork s) (isHostCallbackScheduled s)
    (isHostTimeoutScheduled s) (host s).

Definition withCurrentTask (v : option Z) (s : State) : State :=
  mkState (tasks s) (taskQueue s) (timerQueue s) (taskIdCounter s)
    (isSchedulerPaused s) v (currentPriorityLevel s)
    (isPerformingWork s) (isHostCallbackScheduled s)
    (isHostTimeoutScheduled s) (host s).

Definition withCurrentPriorityLevel (v : Z) (s : State) : State :=
  mkState (tasks s) (taskQueue s) (timerQueue s) (taskIdCounter s)
    (isSchedulerPaused s) (currentTask s) v
    (isPerformingWork s) (isHostCallbackScheduled s)
    (isHostTimeoutScheduled s) (host s).

Definition withIsHostCallbackScheduled (v : bool) (s : State) : State :=
  mkState (tasks s) (taskQueue s) (timerQueue s) (taskIdCounter s)
    (isSchedulerPaused s) (currentTask s) (currentPriorityLevel s)
    (isPerformingWork s) v (isHostTimeoutScheduled s) (host s).

Definition withIsHostTimeoutScheduled (v : bool) (s : State) : State :=
  mkState (tasks s) (taskQueue s) (timerQueue s) (taskIdCounter s)
    (isSchedulerPaused s) (currentTask s) (currentPriorityLevel s)
    (isPerformingWork s) (isHostCallbackScheduled s) v (host s).

Definition withHost (v : Host) (s : State) : State :=
  mkState (tasks s) (taskQueue s) (timerQueue s) (taskIdCounter s)
    (isSchedulerPaused s) (currentTask s) (currentPriorityLevel s)
    (isPerformingWork s) (isHostCallbackScheduled s)
    (isHostTimeoutScheduled s) v.

(** The task object a queue's minimum refers to.  The queues of the source
    hold the objects themselves, so a queued reference always has its
    object in the store; the branches for a missing object below only make
    the functions total. *)
Definition peekTask (tasks : gmap Z Task) (heap : list Z) : option (Z * Task) :=
  match peek heap with
  | Some ref =>
      match tasks !! ref with
      | Some task => Some (ref, task)
      | None => None
      end
  | None => None
  end.

(** *** advanceTimers

    The loop pops the timer queue once per round or returns, so it is
    written by recursion on the queue: [peek] is its head and [pop] leaves
    its tail.  It rewrites the task store and the two queues. *)
Fixpoint advanceTimersLoop (currentTime : Z) (timers : list Z)
    (tasks : gmap Z Task) (taskQueue : list Z)
    : gmap Z Task * list Z * list Z :=
  match timers with
  | [] => (tasks, taskQueue, [])
  | ref :: rest =>
      match tasks !! ref with
      | None => (tasks, taskQueue, timers)
      | Some timer =>
          match callback timer with
          | None => advanceTimersLoop currentTime rest tasks taskQueue
          | Some _ =>
              if startTime timer <=? currentTime then
                let tasks := <[ref := setSortIndex (expirationTime timer) timer]> tasks in
                advanceTimersLoop currentTime rest tasks (push tasks taskQueue ref)
              else (tasks, taskQueue, timers)
          end
      end
  end.

Definition advanceTimers (currentTime : Z) (s : State) : State :=
  let '(tasks, taskQueue, timerQueue) :=
    advanceTimersLoop currentTime (timerQueue s) (tasks s) (taskQueue s) in
  withTimerQueue timerQueue (withTaskQueue taskQueue (withTasks tasks s)).

(** *** workLoop *)

(** What calling a task's callback gives: a function (a continuation),
    anything else, or an exception. *)
Inductive CallbackResult : Type :=
  | Continuation (continuationCallback : Callback)
  | Finished
  | Threw.

(** Running a callback: it receives [didUserCallbackTimeout] and may do
    anything to the scheduler and the host (schedule, cancel, let time
    pass).  [currentTask] is a variable of the module that only [workLoop]
    and [flushWork] assign, so after the call [workLoop] still holds the
    task it was running. *)
Variable invoke : Callback -> bool -> State -> CallbackResult * State.

(** One round of the [while] loop. *)
Inductive Round : Type :=
  | Exit (s : State)
  | Again (currentTime : Z) (ran : list Z) (s : State)
  | Raised (ran : list Z) (s : State).

Definition workLoopRound (hasTimeRemaining : bool) (currentTime : Z)
    (s : State) : Round :=
  match currentTask s with
  | None => Exit s
  | Some ref =>
      if enableSchedulerDebugging && isSchedulerPaused s then Exit s
      else
      match tasks s !! ref with
      | None => Exit s
      | Some task =>
          if (currentTime <? expirationTime task)
             && (negb hasTimeRemaining || shouldYieldToHost (host s))
          then Exit s
          else
          match callback task with
          | Some callback =>
              let s := withTasks (<[ref := setCallback None task]> (tasks s)) s in
              let s := withCurrentPriorityLevel (priorityLevel task) s in
              let didUserCallbackTimeout := expirationTime task <=? currentTime in
              match invoke callback didUserCallbackTimeout s with
              | (Threw, s) => Raised [ref] s
              | (result, s) =>
                  let currentTime := getCurrentTime (host s) in
                  let s :=
                    match result with
                    | Continuation continuationCallback =>
                        withTasks
                          (alter (setCallback (Some continuationCallback)) ref
                             (tasks s)) s
                    | _ =>
                        if decide (Some ref = peek (taskQueue s))
                        then withTaskQueue (pop (taskQueue s)) s
                        else s
                    end in
                  let s := advanceTimers currentTime s in
                  Again currentTime [ref]
                    (withCurrentTask (peek (taskQueue s)) s)
              end
          | None =>
              let s := withTaskQueue (pop (taskQueue s)) s in
              Again currentTime [] (withCurrentTask (peek (taskQueue s)) s)
          end
      end
  end.

(** After the loop: whether there is additional work. *)
Definition workLoopEnd (currentTime : Z) (s : State) : bool * State :=
  match currentTask s with
  | Some _ => (true, s)
  | None =>
      match peekTask (tasks s) (timerQueue s) with
      | Some (_, firstTimer) =>
          (false,
           withHost (requestHostTimeout (startTime firstTimer - currentTime)
                       (host s)) s)
      | None => (false, s)
      end
  end.

(** The loop itself.  It need not terminate (a callback may return a
    continuation for ever), so it is given a number of rounds it may run;
    [None] means the rounds were used up.  Besides the result, it gives the
    tasks whose callback it called, in order. *)
Fixpoint workLoopFrom (rounds : nat) (hasTimeRemaining : bool)
    (currentTime : Z) (s : State) : option (Completion bool * list Z * State) :=
  match rounds with
  | O => None
  | S rounds =>
      match workLoopRound hasTimeRemaining currentTime s with
      | Exit s =>
          let '(more, s) := workLoopEnd currentTime s in
          Some (Returned more, [], s)
      | Raised ran s => Some (Thrown, ran, s)
      | Again currentTime ran s =>
          match workLoopFrom rounds hasTimeRemaining currentTime s with
          | Some (result, ran', s) => Some (result, ran ++ ran', s)
          | None => None
          end
      end
  end.

Definition workLoop (rounds : nat) (hasTimeRemaining : bool)
    (initialTime : Z) (s : State) : option (Completion bool * list Z * State) :=
  let currentTime := initialTime in
  let s := advanceTimers currentTime s in
  let s := withCurrentTask (peek (taskQueue s)) s in
  workLoopFrom rounds hasTimeRemaining currentTime s.

(** *** The exported operations *)

(** [eventHandler] is any function; it may change the state and may throw.
    The [finally] block runs either way. *)
Definition unstable_runWithPriority {R : Type} (priorityLevel : Z)
    (eventHandler : State -> Completion R * State) (s : State)
    : Completion R * State :=
  let priorityLevel :=
    if (priorityLevel =? ImmediatePriority)
       || (priorityLevel =? UserBlockingPriority)
       || (priorityLevel =? NormalPriority)
       || (priorityLevel =? LowPriority)
       || (priorityLevel =? IdlePriority)
    then priorityLevel
    else NormalPriority in
  let previousPriorityLevel := currentPriorityLevel s in
  let s := withCurrentPriorityLevel priorityLevel s in
  let '(result, s) := eventHandler s in
  (result, withCurrentPriorityLevel previousPriorityLevel s).

(** Returns the new task (its reference) and the new state. *)
Definition unstable_scheduleCallback (priorityLevel : Z) (callback : Callback)
    (options : Options) (s : State) : Z * State :=
  let currentTime := getCurrentTime (host s) in
  let startTime :=
    match options with
    | OptionsObject (Some delay) =>
        if 0 <? delay then currentTime + delay else currentTime
    | _ => currentTime
    end in
  let timeout :=
    if priorityLevel =? ImmediatePriority then IMMEDIATE_PRIORITY_TIMEOUT
    else if priorityLevel =? UserBlockingPriority
    then USER_BLOCKING_PRIORITY_TIMEOUT
    else if priorityLevel =? IdlePriority then IDLE_PRIORITY_TIMEOUT
    else if priorityLevel =? LowPriority then LOW_PRIORITY_TIMEOUT
    else NORMAL_PRIORITY_TIMEOUT in
  let expirationTime := startTime + timeout in
  let ref := taskIdCounter s in
  let newTask :=
    mkTask ref (Some callback) priorityLevel startTime expirationTime (-1) in
  let s := withTaskIdCounter (taskIdCounter s + 1) s in
  if currentTime <? startTime then
    let tasks := <[ref := setSortIndex startTime newTask]> (tasks s) in
    let s := withTimerQueue (push tasks (timerQueue s) ref) (withTasks tasks s) in
    if decide (peek (taskQueue s) = None /\ Some ref = peek (timerQueue s)) then
      let s :=
        if isHostTimeoutScheduled s
        then withHost (cancelHostTimeout (host s)) s
        else withIsHostTimeoutScheduled true s in
      (ref, withHost (requestHostTimeout (startTime - currentTime) (host s)) s)
    else (ref, s)
  else
    let tasks := <[ref := setSortIndex expirationTime newTask]> (tasks s) in
    let s := withTaskQueue (push tasks (taskQueue s) ref) (withTasks tasks s) in
    if negb (isHostCallbackScheduled s) && negb (isPerformingWork s) then
      (ref,
       withHost (requestHostCallback (host s))
         (withIsHostCallbackScheduled true s))
    else (ref, s).

Definition unstable_getFirstCallbackNode (s : State) : option Z :=
  peek (taskQueue s).


Definition unstable_getCurrentPriorityLevel (s : State) : Z :=
  currentPriorityLevel s.

(** *** The rest of the module

    [enableProfiling] is off: the profiling branches are left out. *)

Definition withIsSchedulerPaused (v : bool) (s : State) : State :=
  mkState (tasks s) (taskQueue s) (timerQueue s) (taskIdCounter s)
    v (currentTask s) (currentPriorityLevel s)
    (isPerformingWork s) (isHostCallbackScheduled s)
    (isHostTimeoutScheduled s) (host s).

Definition withIsPerformingWork (v : bool) (s : State) : State :=
  mkState (tasks s) (taskQueue s) (timerQueue s) (taskIdCounter s)
    (isSchedulerPaused s) (currentTask s) (currentPriorityLevel s)
    v (isHostCallbackScheduled s) (isHostTimeoutScheduled s) (host s).

Definition handleTimeout (currentTime : Z) (s : State) : State :=
  let s := withIsHostTimeoutScheduled false s in
  let s := advanceTimers currentTime s in
  if negb (isHostCallbackScheduled s) then
    match peek (taskQueue s) with
    | Some _ =>
        withHost (requestHostCallback (host s))
          (withIsHostCallbackScheduled true s)
    | None =>
        match peekTask (tasks s) (timerQueue s) with
        | Some (_, firstTimer) =>
            withHost (requestHostTimeout (startTime firstTimer - currentTime)
                        (host s)) s
        | None => s
        end
    end
  else s.

(** [flushWork] runs [workLoop] inside [try ... finally]: the [finally]
    block runs whether the loop returned or a task threw.  Like
    [workLoop] it is given a number of rounds. *)
Definition flushWork (rounds : nat) (hasTimeRemaining : bool)
    (initialTime : Z) (s : State) : option (Completion bool * list Z * State) :=
  let s := withIsHostCallbackScheduled false s in
  let s :=
    if isHostTimeoutScheduled s
    then withHost (cancelHostTimeout (host s))
           (withIsHostTimeoutScheduled false s)
    else s in
  let s := withIsPerformingWork true s in
  let previousPriorityLevel := currentPriorityLevel s in
  match workLoop rounds hasTimeRemaining initialTime s with
  | Some (result, ran, s) =>
      Some (result, ran,
            withIsPerformingWork false
              (withCurrentPriorityLevel previousPriorityLevel
                 (withCurrentTask None s)))
  | None => None
  end.

Definition unstable_next {R : Type}
    (eventHandler : State -> Completion R * State) (s : State)
    : Completion R * State :=
  let priorityLevel :=
    if (currentPriorityLevel s =? ImmediatePriority)
       || (currentPriorityLevel s =? UserBlockingPriority)
       || (currentPriorityLevel s =? NormalPriority)
    then NormalPriority
    else currentPriorityLevel s in
  let previousPriorityLevel := currentPriorityLevel s in
  let s := withCurrentPriorityLevel priorityLevel s in
  let '(result, s) := eventHandler s in
  (result, withCurrentPriorityLevel previousPriorityLevel s).

(** The first state is the one [unstable_wrapCallback] is called in; the
    function it returns is called later, in a state of its own.  The
    arguments and [this] of the wrapped callback are part of [callback]. *)
Definition unstable_wrapCallback {R : Type}
    (callback : State -> Completion R * State) (s : State)
    : State -> Completion R * State :=
  let parentPriorityLevel := currentPriorityLevel s in
  fun s =>
    let previousPriorityLevel := currentPriorityLevel s in
    let s := withCurrentPriorityLevel parentPriorityLevel s in
    let '(result, s) := callback s in
    (result, withCurrentPriorityLevel previousPriorityLevel s).

Definition unstable_pauseExecution (s : State) : State :=
  withIsSchedulerPaused true s.

End Scheduler.

End Scheduler.

(** ** SchedulerHostConfig: the DOM implementation

    The implementation chosen when [window] and [MessageChannel] exist.
    Its variables form the host state.  [performance.now()] is a field
    that the environment and the running callbacks advance.  The only
    callback [Scheduler.js] hands to [requestHostCallback] is [flushWork],
    so [scheduledHostCallback] is kept as a flag: [false] is [null].
    [setTimeout] returns a fresh id and arms a timer; [timeouts] lists the
    armed timers with their delay.  [messages] counts the message events
    posted on the channel and not yet delivered.  [enableIsInputPending]
    is off, so [shouldYieldToHost] is the version without
    [isInputPending]. *)

Module SchedulerHostConfig.
Import Scheduler.

Record DomHost : Type := mkDomHost {
  performanceNow : Z;
  isMessageLoopRunning : bool;
  scheduledHostCallback : bool;
  taskTimeoutID : Z;
  yieldInterval : Z;
  deadline : Z;
  needsPaint : bool;
  messages : nat;
  timeouts : list (Z * Z);
  nextTimeoutID : Z
}.

(** The state when the module is loaded, at time [now]. *)
Definition initialHost (now : Z) : DomHost :=
  mkDomHost now false false (-1) 5 0 false 0 [] 1.

(** [port.postMessage(null)] *)
Definition postMessage (h : DomHost) : DomHost :=
  mkDomHost (performanceNow h) (isMessageLoopRunning h)
    (scheduledHostCallback h) (taskTimeoutID h) (yieldInterval h) (deadline h)
    (needsPaint h) (S (messages h)) (timeouts h) (nextTimeoutID h).

Definition withIsMessageLoopRunning (v : bool) (h : DomHost) : DomHost :=
  mkDomHost (performanceNow h) v
    (scheduledHostCallback h) (taskTimeoutID h) (yieldInterval h) (deadline h)
    (needsPaint h) (messages h) (timeouts h) (nextTimeoutID h).

Definition withScheduledHostCallback (v : bool) (h : DomHost) : DomHost :=
  mkDomHost (performanceNow h) (isMessageLoopRunning h)
    v (taskTimeoutID h) (yieldInterval h) (deadline h)
    (needsPaint h) (messages h) (timeouts h) (nextTimeoutID h).


Definition withDeadline (v : Z) (h : DomHost) : DomHost :=
  mkDomHost (performanceNow h) (isMessageLoopRunning h)
    (scheduledHostCallback h) (taskTimeoutID h) (yieldInterval h) v
    (needsPaint h) (messages h) (timeouts h) (nextTimeoutID h).

Definition withNeedsPaint (v : bool) (h : DomHost) : DomHost :=
  mkDomHost (performanceNow h) (isMessageLoopRunning h)
    (scheduledHostCallback h) (taskTimeoutID h) (yieldInterval h) (deadline h)
    v (messages h) (timeouts h) (nextTimeoutID h).

Definition domGetCurrentTime (h : DomHost) : Z := performanceNow h.

Definition domShouldYieldToHost (h : DomHost) : bool :=
  let currentTime := domGetCurrentTime h in
  deadline h <=? currentTime.

Definition domRequestHostCallback (h : DomHost) : DomHost :=
  let h := withScheduledHostCallback true h in
  if negb (isMessageLoopRunning h)
  then postMessage (withIsMessageLoopRunning true h)
  else h.

Definition domRequestHostTimeout (ms : Z) (h : DomHost) : DomHost :=
  mkDomHost (performanceNow h) (isMessageLoopRunning h)
    (scheduledHostCallback h) (nextTimeoutID h) (yieldInterval h) (deadline h)
    (needsPaint h) (messages h) ((nextTimeoutID h, ms) :: timeouts h)
    (nextTimeoutID h + 1).

Definition domCancelHostTimeout (h : DomHost) : DomHost :=
  mkDomHost (performanceNow h) (isMessageLoopRunning h)
    (scheduledHostCallback h) (-1) (yieldInterval h) (deadline h)
    (needsPaint h) (messages h)
    (filter (fun timer => fst timer <> taskTimeoutID h) (timeouts h))
    (nextTimeoutID h).

#[local] Instance domHostConfig : HostConfig DomHost := {|
  getCurrentTime := domGetCurrentTime;
  shouldYieldToHost := domShouldYieldToHost;
  requestHostCallback := domRequestHostCallback;
  requestHostTimeout := domRequestHostTimeout;
  cancelHostTimeout := domCancelHostTimeout
|}.


Section MessageLoop.
Context {Callback : Type}.
Variable enableSchedulerDebugging : bool.
Variable invoke :
  Callback -> bool -> @State Callback DomHost
  -> @CallbackResult Callback * @State Callback DomHost.

(** The handler of the message event.  [scheduledHostCallback] is
    [flushWork]; when it throws, the handler posts a message and throws
    again, and the last assignment is not reached. *)
Definition performWorkUntilDeadline (rounds : nat)
    (s : @State Callback DomHost)
    : option (Completion unit * list Z * @State Callback DomHost) :=
  if scheduledHostCallback (host s) then
    let currentTime := getCurrentTime (host s) in
    let s :=
      withHost (withDeadline (currentTime + yieldInterval (host s)) (host s)) s in
    let hasTimeRemaining := true in
    match flushWork enableSchedulerDebugging invoke rounds hasTimeRemaining
            currentTime s with
    | None => None
    | Some (Returned hasMoreWork, ran, s) =>
        let s :=
          if negb hasMoreWork
          then withHost
                 (withScheduledHostCallback false
                    (withIsMessageLoopRunning false (host s))) s
          else withHost (postMessage (host s)) s in
        Some (Returned tt, ran, withHost (withNeedsPaint false (host s)) s)
    | Some (Thrown, ran, s) => Some (Thrown, ran, withHost (postMessage (host s)) s)
    end
  else
    let s := withHost (withIsMessageLoopRunning false (host s)) s in
    Some (Returned tt, [], withHost (withNeedsPaint false (host s)) s).

(** The browser delivers a message event: the event leaves the channel
    and the handler runs.  With no message posted nothing happens. *)
Definition messageEvent (rounds : nat) (s : @State Callback DomHost)
    : option (Completion unit * list Z * @State Callback DomHost) :=
  match messages (host s) with
  | O => Some (Returned tt, [], s)
  | S posted =>
      performWorkUntilDeadline rounds
        (withHost
           (mkDomHost (performanceNow (host s)) (isMessageLoopRunning (host s))
              (scheduledHostCallback (host s)) (taskTimeoutID (host s))
              (yieldInterval (host s)) (deadline (host s))
              (needsPaint (host s)) posted (timeouts (host s))
              (nextTimeoutID (host s))) s)
  end.

End MessageLoop.

End SchedulerHostConfig.

(** * Properties of the lane engine *)

Module LaneFacts.
Import JS Lane.

(** Range conditions on closed terms, by evaluation. *)
Ltac closed_range := vm_compute; split; congruence.

Ltac unfold_priorities :=
  unfold SyncLanePriority, SyncBatchedLanePriority,
    InputDiscreteHydrationLanePriority, InputDiscreteLanePriority,
    InputContinuousHydrationLanePriority, InputContinuousLanePriority,
    DefaultHydrationLanePriority, DefaultLanePriority,
    TransitionHydrationPriority, TransitionPriority, RetryLanePriority,
    SelectiveHydrationLanePriority, IdleHydrationLanePriority,
    IdleLanePriority, OffscreenLanePriority, NoLanePriority in *.

(** *** Rules for the lane loop *)

Section LoopFacts.
Context {St : Type} (body : Z -> Z -> St -> St).

Lemma forEachLane_pos lanes s :
  0 < lanes ->
  forEachLane body lanes s =
  forEachLane body (dropLane lanes)
    (body (pickArbitraryLaneIndex lanes) (shl 1 (pickArbitraryLaneIndex lanes)) s).
Proof.
  intros H. rewrite forEachLane_equation_1.
  destruct (Z_lt_dec 0 lanes); [reflexivity|lia].
Qed.

Lemma forEachLane_done lanes s : lanes <= 0 -> forEachLane body lanes s = s.
Proof.
  intros H. rewrite forEachLane_equation_1.
  destruct (Z_lt_dec 0 lanes); [lia|reflexivity].
Qed.

(** a property of the state that every round keeps is kept by the loop *)
Lemma forEachLane_preserves (P : St -> Prop) :
  (forall index lane s, P s -> P (body index lane s)) ->
  forall lanes s, P s -> P (forEachLane body lanes s).
Proof.
  intros Hstep lanes.
  remember (lanes_measure lanes) as n eqn:Hn.
  revert lanes Hn. induction n as [n IH] using lt_wf_ind. intros lanes Hn s Hs.
  destruct (Z_lt_dec 0 lanes) as [Hpos|Hneg].
  - rewrite forEachLane_pos by assumption.
    eapply IH; [|reflexivity|apply Hstep; assumption].
    subst n. apply dropLane_decreases; assumption.
  - rewrite forEachLane_done by lia. assumption.
Qed.

(** the loop rule for a lane mask: the invariant may mention the lanes
    still to be visited *)
Lemma forEachLane_rule (I : Z -> St -> Prop) :
  (forall lanes s, is_lanes lanes -> 0 < lanes -> I lanes s ->
     I (Z.clearbit lanes (Z.log2 lanes))
       (body (Z.log2 lanes) (2 ^ Z.log2 lanes) s)) ->
  forall lanes s, is_lanes lanes -> I lanes s -> I 0 (forEachLane body lanes s).
Proof.
  intros Hstep lanes.
  remember (lanes_measure lanes) as n eqn:Hn.
  revert lanes Hn. induction n as [n IH] using lt_wf_ind. intros lanes Hn s Hl Hs.
  destruct (Z_lt_dec 0 lanes) as [Hpos|Hneg].
  - rewrite forEachLane_pos by assumption.
    pose proof (log2_lanes _ Hl Hpos) as Hlog.
    rewrite pickArbitraryLaneIndex_lanes, shl_1 by assumption.
    eapply IH; [|reflexivity| |].
    + subst n. apply dropLane_decreases; assumption.
    + rewrite dropLane_lanes by assumption.
      rewrite Z.clearbit_spec'. apply is_lanes_ldiff. assumption.
    + rewrite dropLane_lanes by assumption. apply Hstep; assumption.
  - rewrite forEachLane_done by lia.
    assert (lanes = 0) as -> by (destruct Hl; lia). assumption.
Qed.
End LoopFacts.

(** *** Bits of lane masks *)

Lemma is_lanes_ones n : 0 <= n <= 31 -> is_lanes (Z.ones n).
Proof.
  intros Hn. rewrite Z.ones_equiv. unfold is_lanes.
  assert (0 < 2 ^ n) by (apply Z.pow_pos_nonneg; lia).
  assert (2 ^ n <= 2 ^ 31) by (apply Z.pow_le_mono_r; lia). lia.
Qed.

Lemma band_lanes_l a b : is_lanes a -> is_lanes (band a b).
Proof.
  intros Ha. unfold band. rewrite (toInt32_lanes a) by assumption.
  apply is_lanes_bits.
  - apply Z.land_nonneg. left. apply Ha.
  - intros i Hi. rewrite Z.land_spec, (bits_above_lanes a) by assumption. reflexivity.
Qed.

Lemma testbit_band a b i :
  is_lanes a -> is_lanes b ->
  Z.testbit (band a b) i = Z.testbit a i && Z.testbit b i.
Proof. intros. rewrite band_lanes by assumption. apply Z.land_spec. Qed.

Lemma testbit_bor a b i :
  is_lanes a -> is_lanes b ->
  Z.testbit (bor a b) i = Z.testbit a i || Z.testbit b i.
Proof. intros. rewrite bor_lanes by assumption. apply Z.lor_spec. Qed.

Lemma is_lanes_bor a b : is_lanes a -> is_lanes b -> is_lanes (bor a b).
Proof. intros. rewrite bor_lanes by assumption. apply is_lanes_lor; assumption. Qed.

Lemma laneToIndex_pow2 i : 0 <= i <= 30 -> laneToIndex (2 ^ i) = i.
Proof.
  intros Hi. unfold laneToIndex.
  rewrite pickArbitraryLaneIndex_lanes.
  - apply Z.log2_pow2. lia.
  - apply is_lanes_pow2. assumption.
  - apply Z.pow_pos_nonneg; lia.
Qed.

Lemma isSubsetOfLanes_bits set subset :
  is_lanes set -> is_lanes subset ->
  isSubsetOfLanes set subset = true <->
  (forall i, Z.testbit subset i = true -> Z.testbit set i = true).
Proof.
  intros Hs Hsub. unfold isSubsetOfLanes. rewrite band_lanes by assumption.
  rewrite Z.eqb_eq. split.
  - intros Heq i Hi. rewrite <- Heq in Hi. rewrite Z.land_spec in Hi.
    apply andb_prop in Hi. apply Hi.
  - intros Hb. apply Z.bits_inj'. intros i _. rewrite Z.land_spec.
    destruct (Z.testbit subset i) eqn:E.
    + rewrite Hb by assumption. reflexivity.
    + apply andb_false_r.
Qed.

(** *** markRootUpdated *)

(** C1 (amended): [markRootUpdated root L eventTime], for a single lane
    [L = 2^i], adds [L] to [pendingLanes], records [eventTime] at [L]'s index
    in [eventTimes], and clears the suspended and pinged status of [L] and of
    every lane of lower priority (higher index); lanes of higher priority
    than [L] keep their suspended and pinged status. *)
Theorem markRootUpdated_unsuspends_equal_or_lower
    (root : FiberRoot) (i eventTime : Z) :
  0 <= i <= 30 ->
  is_lanes (pendingLanes root) ->
  is_lanes (suspendedLanes root) ->
  is_lanes (pingedLanes root) ->
  let root' := markRootUpdated root (2 ^ i) eventTime in
  pendingLanes root' = Z.lor (pendingLanes root) (2 ^ i)
  /\ isSubsetOfLanes (pendingLanes root') (2 ^ i) = true
  /\ laneToIndex (2 ^ i) = i
  /\ eventTimes root' !! i = Some eventTime
  /\ (forall j, i <= j ->
        Z.testbit (suspendedLanes root') j = false
        /\ Z.testbit (pingedLanes root') j = false)
  /\ (forall j, j < i ->
        Z.testbit (suspendedLanes root') j = Z.testbit (suspendedLanes root) j
        /\ Z.testbit (pingedLanes root') j = Z.testbit (pingedLanes root) j).
Proof.
  intros Hi Hp Hs Hg root'.
  pose proof (is_lanes_pow2 i Hi) as HL.
  assert (Hones : 2 ^ i - 1 = Z.ones i) by (rewrite Z.ones_equiv; lia).
  assert (Ho : is_lanes (2 ^ i - 1)) by (rewrite Hones; apply is_lanes_ones; lia).
  assert (Hidx : laneToIndex (2 ^ i) = i) by (apply laneToIndex_pow2; assumption).
  assert (Hpend : pendingLanes root' = Z.lor (pendingLanes root) (2 ^ i)).
  { unfold root', markRootUpdated. simpl. apply bor_lanes; assumption. }
  assert (Hbits : forall x j, is_lanes x ->
            Z.testbit (band x (2 ^ i - 1)) j = Z.testbit x j && (j <? i)).
  { intros x j Hx. rewrite testbit_band by assumption. rewrite Hones.
    destruct (Z_lt_dec j 0) as [Hneg|Hnn].
    - rewrite !Z.testbit_neg_r by assumption. reflexivity.
    - rewrite Z.testbit_ones by lia.
      destruct (Z.leb_spec 0 j); [|lia]. reflexivity. }
  split; [assumption|]. split.
  { rewrite Hpend. apply isSubsetOfLanes_bits.
    - apply is_lanes_lor; assumption.
    - assumption.
    - intros j Hj. rewrite Z.lor_spec, Hj. apply orb_true_r. }
  split; [assumption|]. split.
  { unfold root', markRootUpdated. simpl. rewrite Hidx. apply lookup_insert_eq. }
  split.
  - intros j Hj. unfold root', markRootUpdated. simpl.
    rewrite !Hbits by assumption.
    destruct (Z.ltb_spec j i); [lia|]. rewrite !andb_false_r. split; reflexivity.
  - intros j Hj. unfold root', markRootUpdated. simpl.
    rewrite !Hbits by assumption.
    destruct (Z.ltb_spec j i); [|lia]. rewrite !andb_true_r. split; reflexivity.
Qed.


(** A root on which only the sync lane is pending, suspended and pinged. *)
Definition root_sync_suspended : FiberRoot :=
  mkFiberRoot SyncLane SyncLane SyncLane NoLanes NoLanes NoLanes
    (createLaneMap 0) (createLaneMap NoTimestamp) (createLaneMap NoLanes).

Lemma markRootUpdated_unsuspends_witness :
  let root' := markRootUpdated root_sync_suspended (2 ^ 1) 100 in
  pendingLanes root' = Z.lor (pendingLanes root_sync_suspended) (2 ^ 1)
  /\ isSubsetOfLanes (pendingLanes root') (2 ^ 1) = true
  /\ laneToIndex (2 ^ 1) = 1
  /\ eventTimes root' !! 1 = Some 100
  /\ (forall j, 1 <= j ->
        Z.testbit (suspendedLanes root') j = false
        /\ Z.testbit (pingedLanes root') j = false)
  /\ (forall j, j < 1 ->
        Z.testbit (suspendedLanes root') j
        = Z.testbit (suspendedLanes root_sync_suspended) j
        /\ Z.testbit (pingedLanes root') j
           = Z.testbit (pingedLanes root_sync_suspended) j).
Proof.
  apply (markRootUpdated_unsuspends_equal_or_lower root_sync_suspended 1 100);
    closed_range.
Defined.

(** C1 as stated fails: the sync lane has higher priority than the updated
    lane [SyncBatchedLane], and it is still suspended and pinged after the
    call. *)
Lemma markRootUpdated_keeps_higher_priority_suspended :
  let root' := markRootUpdated root_sync_suspended SyncBatchedLane 100 in
  isSubsetOfLanes (getEqualOrHigherPriorityLanes SyncBatchedLane) SyncLane = true
  /\ includesSomeLane (suspendedLanes root') SyncLane = true
  /\ includesSomeLane (pingedLanes root') SyncLane = true.
Proof. vm_compute. repeat split. Qed.

(** *** markRootFinished *)

Lemma isSubsetOfLanes_band_r a b : isSubsetOfLanes b (band a b) = true.
Proof.
  unfold isSubsetOfLanes. apply Z.eqb_eq.
  unfold band at 1. rewrite (toInt32_small (band a b)) by apply band_range.
  unfold band. rewrite (Z.land_comm (toInt32 a)), Z.land_assoc, Z.land_diag.
  reflexivity.
Qed.

Lemma isSubsetOfLanes_0 a : isSubsetOfLanes a 0 = true.
Proof. unfold isSubsetOfLanes, band. apply Z.eqb_eq. apply Z.land_0_r. Qed.

(** The three tables after the loop of [markRootFinished] over [lanes]:
    the slots of the lanes of the mask are reset, the others are as before. *)
Lemma clearLaneSlots_loop (lanes : Z) (t : gmap Z Z * gmap Z Z * gmap Z Z) :
  is_lanes lanes ->
  let '(ent, evt, exp) := t in
  let '(ent', evt', exp') := forEachLane clearLaneSlots lanes t in
  forall i,
    if Z.testbit lanes i
    then ent' !! i = Some NoLanes /\ evt' !! i = Some NoTimestamp
         /\ exp' !! i = Some NoTimestamp
    else ent' !! i = ent !! i /\ evt' !! i = evt !! i /\ exp' !! i = exp !! i.
Proof.
  intros Hl. destruct t as [[ent evt] exp].
  pose (I := fun (rem : Z) (st : gmap Z Z * gmap Z Z * gmap Z Z) =>
    let '(ent', evt', exp') := st in
    forall i,
      if Z.testbit lanes i && negb (Z.testbit rem i)
      then ent' !! i = Some NoLanes /\ evt' !! i = Some NoTimestamp
           /\ exp' !! i = Some NoTimestamp
      else ent' !! i = ent !! i /\ evt' !! i = evt !! i /\ exp' !! i = exp !! i).
  pose (J := fun (rem : Z) (st : gmap Z Z * gmap Z Z * gmap Z Z) =>
    (forall i, Z.testbit rem i = true -> Z.testbit lanes i = true) /\ I rem st).
  assert (HJ : J 0 (forEachLane clearLaneSlots lanes (ent, evt, exp))).
  { apply (forEachLane_rule clearLaneSlots J).
    - intros rem [[ent1 evt1] exp1] Hrem Hpos [Hsub HI]. split.
      + intros i Hi. rewrite Z.clearbit_eqb in Hi. apply andb_prop in Hi.
        apply Hsub, Hi.
      + unfold I, clearLaneSlots. intros i. specialize (HI i).
        rewrite Z.clearbit_eqb.
        destruct (Z.eq_dec (Z.log2 rem) i) as [<-|Hne].
        * rewrite Z.eqb_refl. rewrite (Hsub (Z.log2 rem)) by (apply Z.bit_log2; assumption).
          simpl. rewrite andb_false_r. simpl.
          rewrite !lookup_insert_eq. auto.
        * destruct (Z.eqb_spec (Z.log2 rem) i); [contradiction|].
          rewrite andb_true_r. rewrite !lookup_insert_ne by assumption. exact HI.
    - assumption.
    - split; [auto|]. unfold I. intros i.
      destruct (Z.testbit lanes i); simpl; auto. }
  destruct HJ as [_ HI]. unfold I in HI.
  destruct (forEachLane clearLaneSlots lanes (ent, evt, exp)) as [[ent' evt'] exp'].
  intros i. specialize (HI i). rewrite Z.bits_0 in HI. simpl in HI.
  rewrite andb_true_r in HI. exact HI.
Qed.

(** C9: right after [markRootFinished root remainingLanes], [pendingLanes]
    is [remainingLanes]; [suspendedLanes], [pingedLanes], [expiredLanes],
    [entangledLanes] and [mutableReadLanes] are subsets of it; and every
    lane that was pending and no longer is has its slots in [eventTimes],
    [expirationTimes] and [entanglements] reset to the unused values. *)
Theorem markRootFinished_registers_within_pending
    (root : FiberRoot) (remainingLanes : Z) :
  is_lanes (pendingLanes root) ->
  is_lanes remainingLanes ->
  let root' := markRootFinished root remainingLanes in
  pendingLanes root' = remainingLanes
  /\ isSubsetOfLanes (pendingLanes root') (suspendedLanes root') = true
  /\ isSubsetOfLanes (pendingLanes root') (pingedLanes root') = true
  /\ isSubsetOfLanes (pendingLanes root') (expiredLanes root') = true
  /\ isSubsetOfLanes (pendingLanes root') (entangledLanes root') = true
  /\ isSubsetOfLanes (pendingLanes root') (mutableReadLanes root') = true
  /\ (forall i,
        Z.testbit (pendingLanes root) i = true ->
        Z.testbit remainingLanes i = false ->
        eventTimes root' !! i = Some NoTimestamp
        /\ expirationTimes root' !! i = Some NoTimestamp
        /\ entanglements root' !! i = Some NoLanes).
Proof.
  intros Hp Hr root'.
  pose proof (clearLaneSlots_loop
                (band (pendingLanes root) (bnot remainingLanes))
                (entanglements root, eventTimes root, expirationTimes root)) as Hloop.
  rewrite band_bnot_lanes in Hloop by assumption.
  specialize (Hloop (is_lanes_ldiff _ _ Hp)).
  unfold root', markRootFinished.
  rewrite band_bnot_lanes by assumption.
  destruct (forEachLane clearLaneSlots _ _) as [[ent' evt'] exp']. simpl.
  split; [reflexivity|].
  do 5 (split; [first [apply isSubsetOfLanes_band_r | apply isSubsetOfLanes_0]|]).
  intros i Hwas Hnot. specialize (Hloop i).
  rewrite Z.ldiff_spec, Hwas, Hnot in Hloop. simpl in Hloop.
  destruct Hloop as (Hent & Hevt & Hexp). auto.
Qed.


(** *** markRootEntangled *)

(** A loop whose round rewrites only the slot of its own lane. *)
Lemma forEachLane_pointwise (f : Z -> option Z -> Z) (lanes : Z) (m : gmap Z Z) :
  is_lanes lanes ->
  forall i,
    forEachLane (fun index _ (m : gmap Z Z) => <[index := f index (m !! index)]> m)
      lanes m !! i
    = if Z.testbit lanes i then Some (f i (m !! i)) else m !! i.
Proof.
  intros Hl.
  pose (I := fun (rem : Z) (m' : gmap Z Z) =>
    (forall i, Z.testbit rem i = true -> Z.testbit lanes i = true)
    /\ forall i, m' !! i = if Z.testbit lanes i && negb (Z.testbit rem i)
                           then Some (f i (m !! i)) else m !! i).
  assert (HI : I 0 (forEachLane
            (fun index _ (m : gmap Z Z) => <[index := f index (m !! index)]> m)
            lanes m)).
  { apply (forEachLane_rule _ I).
    - intros rem m1 Hrem Hpos [Hsub Hm]. split.
      + intros i Hi. rewrite Z.clearbit_eqb in Hi. apply andb_prop in Hi.
        apply Hsub, Hi.
      + intros i. rewrite Z.clearbit_eqb.
        pose proof (Z.bit_log2 rem Hpos) as Htop.
        destruct (Z.eq_dec (Z.log2 rem) i) as [<-|Hne].
        * rewrite Z.eqb_refl, (Hsub _ Htop), lookup_insert_eq. simpl.
          rewrite andb_false_r. simpl.
          rewrite (Hm (Z.log2 rem)), Htop, andb_false_r. reflexivity.
        * destruct (Z.eqb_spec (Z.log2 rem) i); [contradiction|].
          rewrite andb_true_r, lookup_insert_ne by assumption. apply Hm.
    - assumption.
    - split; [auto|]. intros i. destruct (Z.testbit lanes i); reflexivity. }
  destruct HI as [_ HI]. intros i. rewrite HI, Z.bits_0. simpl.
  rewrite andb_true_r. reflexivity.
Qed.

(** Every entry of the [entanglements] table is a lane mask. *)
Definition entanglements_ok (root : FiberRoot) : Prop :=
  forall i e, entanglements root !! i = Some e -> is_lanes e.

Lemma markRootEntangled_entanglements (root : FiberRoot) (L i : Z) :
  is_lanes L ->
  entanglements (markRootEntangled root L) !! i
  = if Z.testbit L i
    then Some (bor (default 0 (entanglements root !! i)) L)
    else entanglements root !! i.
Proof.
  intros HL. unfold markRootEntangled. simpl.
  apply (forEachLane_pointwise (fun _ old => bor (default 0 old) L)).
  assumption.
Qed.

Lemma is_lanes_default (o : option Z) :
  (forall e, o = Some e -> is_lanes e) -> is_lanes (default 0 o).
Proof.
  intros Ho. destruct o as [e|]; simpl; [apply Ho; reflexivity|].
  unfold is_lanes. lia.
Qed.

(** C10: after [markRootEntangled root L], [L] is a subset of
    [entangledLanes]; for every lane of [L] the entry of [entanglements] at
    that lane's index is a superset of [L] (so the lane is entangled with
    itself); and no bit of [entangledLanes] or of an [entanglements] entry
    recorded before is cleared. *)
Theorem markRootEntangled_entangles_all (root : FiberRoot) (L : Z) :
  is_lanes L ->
  is_lanes (entangledLanes root) ->
  entanglements_ok root ->
  let root' := markRootEntangled root L in
  isSubsetOfLanes (entangledLanes root') L = true
  /\ (forall i, Z.testbit L i = true ->
        exists e, entanglements root' !! i = Some e
                  /\ isSubsetOfLanes e L = true
                  /\ Z.testbit e i = true)
  /\ isSubsetOfLanes (entangledLanes root') (entangledLanes root) = true
  /\ (forall i e, entanglements root !! i = Some e ->
        exists e', entanglements root' !! i = Some e'
                   /\ isSubsetOfLanes e' e = true).
Proof.
  intros HL He Hok root'.
  assert (Hdef : forall i, is_lanes (default 0 (entanglements root !! i))).
  { intros i. apply is_lanes_default. intros e. apply Hok. }
  split.
  { unfold root', markRootEntangled. simpl. apply isSubsetOfLanes_bits.
    - apply is_lanes_bor; assumption.
    - assumption.
    - intros i Hi. rewrite testbit_bor, Hi by assumption. apply orb_true_r. }
  split.
  { intros i Hi. unfold root'. rewrite markRootEntangled_entanglements by assumption.
    rewrite Hi. eexists. split; [reflexivity|]. split.
    - apply isSubsetOfLanes_bits; [apply is_lanes_bor; auto|assumption|].
      intros j Hj. rewrite testbit_bor, Hj by auto. apply orb_true_r.
    - rewrite testbit_bor, Hi by auto. apply orb_true_r. }
  split.
  { unfold root', markRootEntangled. simpl. apply isSubsetOfLanes_bits.
    - apply is_lanes_bor; assumption.
    - assumption.
    - intros i Hi. rewrite testbit_bor, Hi by assumption. reflexivity. }
  intros i e Hie. unfold root'. rewrite markRootEntangled_entanglements by assumption.
  pose proof (Hok i e Hie) as Hel.
  destruct (Z.testbit L i).
  - eexists. split; [reflexivity|]. rewrite Hie. simpl.
    apply isSubsetOfLanes_bits; [apply is_lanes_bor; auto|assumption|].
    intros j Hj. rewrite testbit_bor, Hj by auto. reflexivity.
  - exists e. split; [assumption|].
    apply isSubsetOfLanes_bits; auto.
Qed.


(** *** getNextLanes *)

Lemma is_int32_lnot a : is_int32 a -> is_int32 (Z.lnot a).
Proof. unfold is_int32. rewrite Z.lnot_eq_pred_opp. lia. Qed.

Lemma is_int32_lor a b : is_int32 a -> is_int32 b -> is_int32 (Z.lor a b).
Proof.
  intros Ha Hb.
  replace (Z.lor a b) with (Z.lnot (Z.land (Z.lnot a) (Z.lnot b))).
  - apply is_int32_lnot, is_int32_land; apply is_int32_lnot; assumption.
  - rewrite Z.lnot_land, !Z.lnot_involutive. reflexivity.
Qed.

Lemma bor_range a b : is_int32 (bor a b).
Proof. apply is_int32_lor; apply toInt32_range. Qed.

Lemma testbit_bor_l a b i :
  is_int32 a -> Z.testbit a i = true -> Z.testbit (bor a b) i = true.
Proof.
  intros Ha Hi. unfold bor. rewrite toInt32_small by assumption.
  rewrite Z.lor_spec, Hi. reflexivity.
Qed.

Lemma isSubsetOfLanes_of_bits set subset :
  is_int32 set -> is_lanes subset ->
  (forall i, Z.testbit subset i = true -> Z.testbit set i = true) ->
  isSubsetOfLanes set subset = true.
Proof.
  intros Hs Hsub Hb. unfold isSubsetOfLanes, band.
  rewrite toInt32_small, toInt32_lanes by assumption.
  apply Z.eqb_eq, Z.bits_inj'. intros i _. rewrite Z.land_spec.
  destruct (Z.testbit subset i) eqn:E.
  - rewrite Hb by assumption. reflexivity.
  - apply andb_false_r.
Qed.

Lemma toInt32_add_l a b : toInt32 (toInt32 a + b) = toInt32 (a + b).
Proof.
  unfold toInt32. f_equal.
  replace ((a + 2 ^ 31) mod 2 ^ 32 - 2 ^ 31 + b + 2 ^ 31)
    with ((a + 2 ^ 31) mod 2 ^ 32 + b) by lia.
  rewrite Zplus_mod_idemp_l. f_equal. lia.
Qed.

(** Masking with [getEqualOrHigherPriorityLanes x] keeps the bits up to the
    most significant lane of [x]; for the last lane the shift wraps to
    [-2^31] and [&] brings the mask back to 31 ones. *)
Lemma band_getEqualOrHigherPriorityLanes p x :
  is_lanes p -> is_lanes x -> 0 < x ->
  band p (getEqualOrHigherPriorityLanes x) = Z.land p (Z.ones (Z.log2 x + 1)).
Proof.
  intros Hp Hx Hpos. pose proof (log2_lanes x Hx Hpos) as Hk.
  unfold getEqualOrHigherPriorityLanes, getLowestPriorityLane.
  rewrite clz32_lanes by assumption.
  replace (31 - (31 - Z.log2 x)) with (Z.log2 x) by lia.
  destruct (Z.ltb_spec (Z.log2 x) 0); [lia|].
  rewrite shl_1 by assumption.
  unfold shl, band, toUint32.
  rewrite (toInt32_lanes (2 ^ Z.log2 x)) by (apply is_lanes_pow2; assumption).
  change (1 mod 2 ^ 32 mod 32) with 1.
  rewrite Z.shiftl_mul_pow2 by lia.
  replace (2 ^ Z.log2 x * 2 ^ 1) with (2 ^ (Z.log2 x + 1))
    by (rewrite Z.pow_add_r by lia; reflexivity).
  replace (toInt32 (2 ^ (Z.log2 x + 1)) - 1)
    with (toInt32 (2 ^ (Z.log2 x + 1)) + (- 1)) by lia.
  rewrite toInt32_add_l, toInt32_lanes by assumption.
  replace (2 ^ (Z.log2 x + 1) + - 1) with (Z.ones (Z.log2 x + 1))
    by (rewrite Z.ones_equiv; lia).
  rewrite toInt32_lanes by (apply is_lanes_ones; lia). reflexivity.
Qed.

Lemma testbit_band_getEqualOrHigherPriorityLanes p x i :
  is_lanes p -> is_lanes x -> 0 < x ->
  Z.testbit (band p (getEqualOrHigherPriorityLanes x)) i
  = Z.testbit p i && (i <=? Z.log2 x).
Proof.
  intros Hp Hx Hpos. rewrite band_getEqualOrHigherPriorityLanes by assumption.
  rewrite Z.land_spec.
  destruct (Z_lt_dec i 0) as [Hneg|Hnn].
  - rewrite !Z.testbit_neg_r by assumption. reflexivity.
  - pose proof (Z.log2_nonneg x).
    rewrite Z.testbit_ones by lia.
    destruct (Z.leb_spec 0 i); [|lia]. simpl.
    destruct (Z.ltb_spec i (Z.log2 x + 1)); destruct (Z.leb_spec i (Z.log2 x));
      try lia; reflexivity.
Qed.

Lemma getHighestPriorityLanes_priority lanes :
  snd (getHighestPriorityLanes lanes) <= SyncLanePriority
  /\ (snd (getHighestPriorityLanes lanes) = SyncLanePriority ->
      includesSomeLane SyncLane lanes = true).
Proof.
  unfold getHighestPriorityLanes, includesSomeLane.
  repeat match goal with
         | |- context [if negb ?c then _ else _] => destruct (negb c) eqn:?
         end; simpl; unfold_priorities; (split; [lia|]);
    first [intros; lia | reflexivity].
Qed.


Lemma selectNextLanes_expired (root : FiberRoot) (wip reg : Z) :
  pendingLanes root <> NoLanes ->
  expiredLanes root <> NoLanes ->
  selectNextLanes root wip reg =
  let next :=
    band (pendingLanes root) (getEqualOrHigherPriorityLanes (expiredLanes root)) in
  if negb (wip =? NoLanes) && negb (wip =? next)
     && (band wip (suspendedLanes root) =? NoLanes)
  then
    if SyncLanePriority <=? snd (getHighestPriorityLanes wip)
    then inl (wip, snd (getHighestPriorityLanes wip))
    else inr (next, SyncLanePriority)
  else inr (next, SyncLanePriority).
Proof.
  intros Hp He. unfold selectNextLanes.
  destruct (Z.eqb_spec (pendingLanes root) NoLanes); [contradiction|].
  destruct (Z.eqb_spec (expiredLanes root) NoLanes); [contradiction|].
  simpl.
  destruct (Z.eqb_spec (expiredLanes root) NoLanes); [contradiction|].
  reflexivity.
Qed.

(** The entanglement step only adds lanes. *)
Lemma entangle_loop_grows (ent : gmap Z Z) (lanes next : Z) :
  is_int32 next ->
  let next' :=
    forEachLane (fun index _ nextLanes => bor nextLanes (default 0 (ent !! index)))
      lanes next in
  is_int32 next'
  /\ forall i, Z.testbit next i = true -> Z.testbit next' i = true.
Proof.
  intros Hn.
  apply (forEachLane_preserves _
           (fun acc => is_int32 acc
                       /\ forall i, Z.testbit next i = true -> Z.testbit acc i = true)).
  - intros index lane acc [Hacc Hbits]. split; [apply bor_range|].
    intros i Hi. apply testbit_bor_l; auto.
  - split; auto.
Qed.

(** C2 (amended): when some lanes have expired (and, as the registers are
    kept, the expired lanes are pending), [getNextLanes] leaves the
    priority register at the synchronous priority, and it returns a set that
    includes every expired lane, unless it keeps the in-progress lanes: that
    happens only when [wipLanes] is not empty, is not suspended, and itself
    contains the sync lane; then [wipLanes] is returned as it is. *)
Theorem getNextLanes_expired_lanes_first (root : FiberRoot) (wipLanes reg : Z) :
  is_lanes (pendingLanes root) ->
  is_lanes (expiredLanes root) ->
  expiredLanes root <> NoLanes ->
  isSubsetOfLanes (pendingLanes root) (expiredLanes root) = true ->
  snd (getNextLanes root wipLanes reg) = SyncLanePriority
  /\ (isSubsetOfLanes (fst (getNextLanes root wipLanes reg)) (expiredLanes root)
      = true
      \/ (fst (getNextLanes root wipLanes reg) = wipLanes
          /\ wipLanes <> NoLanes
          /\ includesSomeLane wipLanes (suspendedLanes root) = false
          /\ includesSomeLane SyncLane wipLanes = true)).
Proof.
  intros Hp He Hne Hsub.
  assert (Hpos : 0 < expiredLanes root) by (unfold NoLanes, is_lanes in *; lia).
  assert (Hpne : pendingLanes root <> NoLanes).
  { intros H0. unfold isSubsetOfLanes in Hsub.
    rewrite band_lanes in Hsub by assumption. apply Z.eqb_eq in Hsub.
    rewrite H0 in Hsub. unfold NoLanes in *. rewrite Z.land_0_l in Hsub.
    congruence. }
  set (next := band (pendingLanes root)
                    (getEqualOrHigherPriorityLanes (expiredLanes root))).
  assert (Hnext : is_lanes next) by (apply band_lanes_l; assumption).
  assert (Hin : forall i, Z.testbit (expiredLanes root) i = true ->
                          Z.testbit next i = true).
  { intros i Hi. unfold next.
    rewrite testbit_band_getEqualOrHigherPriorityLanes by assumption.
    rewrite (proj1 (isSubsetOfLanes_bits _ _ Hp He) Hsub i Hi). simpl.
    apply Z.leb_le.
    destruct (Z_le_dec i (Z.log2 (expiredLanes root))) as [|Hgt]; [assumption|].
    rewrite Z.bits_above_log2 in Hi by lia. discriminate. }
  assert (Hcont : forall r, selectNextLanes root wipLanes reg = inr (next, r) ->
            isSubsetOfLanes (fst (getNextLanes root wipLanes reg))
              (expiredLanes root) = true
            /\ snd (getNextLanes root wipLanes reg) = r).
  { intros r Hsel. unfold getNextLanes. rewrite Hsel.
    destruct (negb (entangledLanes root =? NoLanes)); simpl.
    - split; [|reflexivity].
      destruct (entangle_loop_grows (entanglements root)
                  (band next (entangledLanes root)) next
                  (is_lanes_int32 _ Hnext)) as [Hr Hg].
      apply isSubsetOfLanes_of_bits; auto.
    - split; [|reflexivity].
      apply isSubsetOfLanes_of_bits; auto using is_lanes_int32. }
  pose proof (selectNextLanes_expired root wipLanes reg Hpne Hne) as Hsel.
  cbv zeta in Hsel. fold next in Hsel.
  destruct (negb (wipLanes =? NoLanes) && negb (wipLanes =? next)
            && (band wipLanes (suspendedLanes root) =? NoLanes)) eqn:Hc.
  - destruct (Z.leb_spec SyncLanePriority (snd (getHighestPriorityLanes wipLanes)))
      as [Hle|Hlt].
    + destruct (getHighestPriorityLanes_priority wipLanes) as [Hmax Hsync].
      assert (Heq : snd (getHighestPriorityLanes wipLanes) = SyncLanePriority) by lia.
      unfold getNextLanes. rewrite Hsel. simpl. split; [assumption|]. right.
      apply andb_prop in Hc as [Hc Hs]. apply andb_prop in Hc as [Hw _].
      split; [reflexivity|]. split.
      * destruct (Z.eqb_spec wipLanes NoLanes); [discriminate|assumption].
      * split; [|auto]. unfold includesSomeLane. rewrite Hs. reflexivity.
    + destruct (Hcont _ Hsel). auto.
  - destruct (Hcont _ Hsel). auto.
Qed.


(** Whatever [selectNextLanes] hands to the entanglement step is a subset
    of [pendingLanes], hence a lane mask. *)
Lemma selectNextLanes_chosen_lanes (root : FiberRoot) (wip reg chosen p : Z) :
  is_lanes (pendingLanes root) ->
  selectNextLanes root wip reg = inr (chosen, p) ->
  is_lanes chosen.
Proof.
  intros Hp. unfold selectNextLanes.
  repeat case_match; try discriminate;
    intros [= <- _]; apply band_lanes_l; assumption.
Qed.

(** Lane [a] is entangled with lane [b] in the root's registers. *)
Definition entangledWith (root : FiberRoot) (a b : Z) : Prop :=
  Z.testbit (entangledLanes root) a = true
  /\ exists e, entanglements root !! a = Some e /\ is_lanes e
               /\ Z.testbit e b = true.

Lemma entangle_loop_adds (ent : gmap Z Z) (lanes next e a b : Z) :
  is_lanes lanes -> is_lanes next ->
  Z.testbit lanes a = true ->
  ent !! a = Some e -> is_lanes e -> Z.testbit e b = true ->
  Z.testbit
    (forEachLane (fun index _ nextLanes => bor nextLanes (default 0 (ent !! index)))
       lanes next) b = true.
Proof.
  intros Hl Hn Ha Hent He Hb.
  pose (I := fun (rem acc : Z) =>
    is_int32 acc /\ (Z.testbit rem a = false -> Z.testbit acc b = true)).
  assert (HI : I 0 (forEachLane
            (fun index _ nextLanes => bor nextLanes (default 0 (ent !! index)))
            lanes next)).
  { apply (forEachLane_rule _ I).
    - intros rem acc Hrem Hpos [Hacc Hdone]. split; [apply bor_range|].
      rewrite Z.clearbit_eqb. intros Hcl.
      destruct (Z.testbit rem a) eqn:Hra.
      + simpl in Hcl. apply negb_false_iff, Z.eqb_eq in Hcl. rewrite Hcl, Hent.
        simpl. unfold bor. rewrite (toInt32_lanes e) by assumption.
        rewrite Z.lor_spec, Hb. apply orb_true_r.
      + apply testbit_bor_l; auto.
    - assumption.
    - split; [apply is_lanes_int32; assumption|]. congruence. }
  destruct HI as [_ HI]. apply HI, Z.bits_0.
Qed.

Lemma markRootEntangled_entangledWith (root : FiberRoot) (L a b : Z) :
  is_lanes L -> is_lanes (entangledLanes root) -> entanglements_ok root ->
  Z.testbit L a = true -> Z.testbit L b = true ->
  entangledWith (markRootEntangled root L) a b.
Proof.
  intros HL He Hok Ha Hb. split.
  - unfold markRootEntangled. simpl. rewrite testbit_bor, Ha by assumption.
    apply orb_true_r.
  - rewrite markRootEntangled_entanglements, Ha by assumption.
    assert (is_lanes (default 0 (entanglements root !! a)))
      by (apply is_lanes_default; intros e; apply Hok).
    eexists. split; [reflexivity|]. split; [apply is_lanes_bor; assumption|].
    rewrite testbit_bor, Hb by assumption. apply orb_true_r.
Qed.

(** C3 (amended): on a root where lanes [2^a] and [2^b] have been marked
    entangled by [markRootEntangled], whenever [getNextLanes] reaches its
    entanglement step (it did not return early with no lanes or with the
    in-progress [wipLanes]) and lane [2^a] is in the batch chosen from the
    pending lanes before that step, the returned set contains both lanes. *)
Theorem getNextLanes_entangled_lanes_together
    (root0 : FiberRoot) (a b wipLanes reg chosen priority : Z) :
  0 <= a <= 30 -> 0 <= b <= 30 ->
  is_lanes (pendingLanes root0) ->
  is_lanes (entangledLanes root0) ->
  entanglements_ok root0 ->
  let root := markRootEntangled root0 (bor (2 ^ a) (2 ^ b)) in
  selectNextLanes root wipLanes reg = inr (chosen, priority) ->
  Z.testbit chosen a = true ->
  Z.testbit (fst (getNextLanes root wipLanes reg)) a = true
  /\ Z.testbit (fst (getNextLanes root wipLanes reg)) b = true.
Proof.
  intros Ha Hb Hp He Hok root Hsel Hca.
  pose proof (is_lanes_pow2 a Ha) as HA. pose proof (is_lanes_pow2 b Hb) as HB.
  assert (HL : is_lanes (bor (2 ^ a) (2 ^ b))) by (apply is_lanes_bor; assumption).
  assert (HLa : Z.testbit (bor (2 ^ a) (2 ^ b)) a = true).
  { rewrite testbit_bor, Z.pow2_bits_true by (assumption || lia). reflexivity. }
  assert (HLb : Z.testbit (bor (2 ^ a) (2 ^ b)) b = true).
  { rewrite testbit_bor, (Z.pow2_bits_true b) by (assumption || lia).
    apply orb_true_r. }
  assert (Hchosen : is_lanes chosen).
  { eapply selectNextLanes_chosen_lanes; [|exact Hsel]. exact Hp. }
  destruct (markRootEntangled_entangledWith root0 _ a a HL He Hok HLa HLa)
    as [Hea (ea & Hlook & Hel & Haa)].
  destruct (markRootEntangled_entangledWith root0 _ a b HL He Hok HLa HLb)
    as [_ (eb & Hlook' & _ & Hab)].
  fold root in Hea, Hlook, Hlook'.
  assert (eb = ea) as -> by congruence.
  assert (Hel' : is_lanes (entangledLanes root)).
  { unfold root, markRootEntangled. simpl. apply is_lanes_bor; assumption. }
  unfold getNextLanes. rewrite Hsel.
  destruct (Z.eqb_spec (entangledLanes root) NoLanes) as [H0|_].
  { rewrite H0 in Hea. unfold NoLanes in Hea. rewrite Z.bits_0 in Hea.
    discriminate. }
  simpl.
  assert (Hlanes : Z.testbit (band chosen (entangledLanes root)) a = true).
  { rewrite testbit_band, Hca, Hea by assumption. reflexivity. }
  split.
  - apply (entangle_loop_adds _ _ _ ea a a); auto using band_lanes_l.
  - apply (entangle_loop_adds _ _ _ ea a b); auto using band_lanes_l.
Qed.


(** *** markStarvedLanesAsExpired *)

Lemma band_pow2_is_zero (x k : Z) :
  is_lanes x -> 0 <= k <= 30 ->
  (band (2 ^ k) x =? NoLanes) = negb (Z.testbit x k).
Proof.
  intros Hx Hk. rewrite band_lanes by (try apply is_lanes_pow2; assumption).
  destruct (Z.testbit x k) eqn:E; simpl.
  - apply Z.eqb_neq. intros H0.
    assert (Hb : Z.testbit (Z.land (2 ^ k) x) k = true)
      by (rewrite Z.land_spec, Z.pow2_bits_true, E by lia; reflexivity).
    rewrite H0 in Hb. unfold NoLanes in Hb. rewrite Z.bits_0 in Hb. discriminate.
  - apply Z.eqb_eq, Z.bits_inj'. intros i _. unfold NoLanes.
    rewrite Z.land_spec, Z.bits_0.
    destruct (Z.eq_dec k i) as [<-|Hne].
    + rewrite E. apply andb_false_r.
    + rewrite Z.pow2_bits_false by assumption. reflexivity.
Qed.

(** What one visited lane [i] ends up with, in terms of the root before
    the call. *)
Definition starvedLaneDone (root : FiberRoot) (now i : Z) (r : FiberRoot) : Prop :=
  (expirationTimes root !! i = Some NoTimestamp ->
   Z.testbit (suspendedLanes root) i = false
   \/ Z.testbit (pingedLanes root) i = true ->
   expirationTimes r !! i = Some (fst (computeExpirationTime (2 ^ i) now)))
  /\ (forall e, expirationTimes root !! i = Some e ->
        e <> NoTimestamp -> e <= now ->
        Z.testbit (expiredLanes r) i = true).

Ltac root_simpl :=
  unfold starvedLaneDone in *;
  cbn [fst snd pendingLanes suspendedLanes pingedLanes expiredLanes
       mutableReadLanes entangledLanes eventTimes expirationTimes
       entanglements] in *.

Lemma markStarvedLanes_loop (root : FiberRoot) (now reg : Z) :
  is_lanes (pendingLanes root) ->
  is_lanes (suspendedLanes root) ->
  is_lanes (pingedLanes root) ->
  is_lanes (expiredLanes root) ->
  let r := fst (markStarvedLanesAsExpired root now reg) in
  (forall i, Z.testbit (pendingLanes root) i = true -> starvedLaneDone root now i r)
  /\ (forall i, Z.testbit (expiredLanes root) i = true ->
        Z.testbit (expiredLanes r) i = true).
Proof.
  intros Hp Hs Hg He.
  pose (I := fun (rem : Z) (st : FiberRoot * Z) =>
    let r := fst st in
    is_lanes (expiredLanes r)
    /\ (forall i, Z.testbit (expiredLanes root) i = true ->
          Z.testbit (expiredLanes r) i = true)
    /\ (forall i, Z.testbit rem i = true ->
          expirationTimes r !! i = expirationTimes root !! i)
    /\ (forall i, Z.testbit (pendingLanes root) i = true ->
          Z.testbit rem i = false -> starvedLaneDone root now i r)).
  assert (HI : I 0 (markStarvedLanesAsExpired root now reg)).
  { unfold markStarvedLanesAsExpired. apply (forEachLane_rule _ I).
    - intros rem [r g] Hrem Hpos (Hexp & Hmono & Htodo & Hdone). root_simpl.
      pose proof (log2_lanes rem Hrem Hpos) as Hk.
      pose proof (Z.bit_log2 rem Hpos) as Htop.
      set (k := Z.log2 rem) in *.
      pose proof (Htodo k Htop) as Hslot. root_simpl.
      assert (Hkeep : forall r' : FiberRoot,
                is_lanes (expiredLanes r') ->
                (forall i, Z.testbit (expiredLanes r) i = true ->
                           Z.testbit (expiredLanes r') i = true) ->
                (forall i, i <> k -> expirationTimes r' !! i = expirationTimes r !! i) ->
                starvedLaneDone root now k r' ->
                forall g', I (Z.clearbit rem k) (r', g')).
      { intros r' Hexp' Hgrow Hsame Hk' g'. unfold I. root_simpl.
        split; [assumption|]. split; [auto|]. split.
        - intros i Hi. rewrite Z.clearbit_eqb in Hi. apply andb_prop in Hi as [Hi Hne].
          apply negb_true_iff, Z.eqb_neq in Hne.
          rewrite Hsame by congruence. apply Htodo. assumption.
        - intros i Hpi Hi. rewrite Z.clearbit_eqb in Hi.
          destruct (Z.eq_dec k i) as [<-|Hne]; [assumption|].
          destruct (Z.eqb_spec k i); [contradiction|]. rewrite andb_true_r in Hi.
          destruct (Hdone i Hpi Hi) as [Hd1 Hd2]. root_simpl. split.
          + intros H1 H2. rewrite Hsame by congruence. auto.
          + intros e H1 H2 H3. apply Hgrow. eauto. }
      unfold markStarvedLane. root_simpl.
      destruct (expirationTimes r !! k) as [e|] eqn:Hlook.
      + destruct (Z.eqb_spec e NoTimestamp) as [->|Hne].
        * rewrite !band_pow2_is_zero by assumption. rewrite negb_involutive.
          destruct (negb (Z.testbit (suspendedLanes root) k)
                    || Z.testbit (pingedLanes root) k) eqn:Hc.
          -- destruct (computeExpirationTime (2 ^ k) now) as [t g'] eqn:Hct.
             apply Hkeep; root_simpl; auto.
             ++ intros i Hi. apply lookup_insert_ne. congruence.
             ++ split; root_simpl.
                ** intros _ _. rewrite lookup_insert_eq. reflexivity.
                ** intros e' He'. rewrite <- Hslot in He'. congruence.
          -- apply Hkeep; auto. split; root_simpl.
             ++ intros _ [Hn|Hy].
                ** rewrite Hn in Hc. discriminate.
                ** rewrite Hy, orb_true_r in Hc. discriminate.
             ++ intros e' He'. rewrite <- Hslot in He'. congruence.
        * destruct (Z.leb_spec e now) as [Hle|Hgt].
          -- apply Hkeep; root_simpl; auto.
             ++ apply is_lanes_bor; [assumption|apply is_lanes_pow2; assumption].
             ++ intros i Hi. apply testbit_bor_l;
                  [apply is_lanes_int32; assumption|assumption].
             ++ split; root_simpl.
                ** intros He'. rewrite <- Hslot in He'. congruence.
                ** intros _ _ _ _.
                   rewrite testbit_bor by (try apply is_lanes_pow2; assumption).
                   rewrite Z.pow2_bits_true by lia. apply orb_true_r.
          -- apply Hkeep; auto. split; root_simpl.
             ++ intros He'. rewrite <- Hslot in He'. congruence.
             ++ intros e' He'. rewrite <- Hslot in He'.
                assert (e' = e) by congruence. lia.
      + apply Hkeep; auto. split; root_simpl.
        * intros He'. rewrite <- Hslot in He'. congruence.
        * intros e' He'. rewrite <- Hslot in He'. congruence.
    - assumption.
    - unfold I. root_simpl. split; [assumption|]. split; [auto|]. split; [auto|].
      intros i Hi Hrem. congruence. }
  destruct HI as (_ & Hmono & _ & Hdone). split; [|assumption].
  intros i Hi. apply Hdone; [assumption|apply Z.bits_0].
Qed.

(** C8: [markStarvedLanesAsExpired root now] gives every pending lane that
    has no recorded expiration time and is not suspended (or is pinged) an
    expiration time by its priority: [now + 250] at input-continuous
    priority or above, [now + 5000] from transition priority up to there,
    and none ([NoTimestamp]) below, which covers idle priority and
    everything under it.  Every pending lane whose recorded expiration time
    is at most [now] is added to [expiredLanes], and no lane leaves
    [expiredLanes]. *)
Theorem markStarvedLanesAsExpired_by_priority (root : FiberRoot) (now reg : Z) :
  is_lanes (pendingLanes root) ->
  is_lanes (suspendedLanes root) ->
  is_lanes (pingedLanes root) ->
  is_lanes (expiredLanes root) ->
  let root' := fst (markStarvedLanesAsExpired root now reg) in
  (forall i,
     Z.testbit (pendingLanes root) i = true ->
     expirationTimes root !! i = Some NoTimestamp ->
     Z.testbit (suspendedLanes root) i = false
     \/ Z.testbit (pingedLanes root) i = true ->
     let priority := snd (getHighestPriorityLanes (2 ^ i)) in
     expirationTimes root' !! i
     = Some (if InputContinuousLanePriority <=? priority then now + 250
             else if TransitionPriority <=? priority then now + 5000
             else NoTimestamp)
     /\ (priority <= IdleHydrationLanePriority ->
         expirationTimes root' !! i = Some NoTimestamp))
  /\ (forall i e,
        Z.testbit (pendingLanes root) i = true ->
        expirationTimes root !! i = Some e ->
        e <> NoTimestamp -> e <= now ->
        Z.testbit (expiredLanes root') i = true)
  /\ (forall i,
        Z.testbit (expiredLanes root) i = true ->
        Z.testbit (expiredLanes root') i = true).
Proof.
  intros Hp Hs Hg He root'.
  destruct (markStarvedLanes_loop root now reg Hp Hs Hg He) as [Hdone Hmono].
  fold root' in Hdone, Hmono.
  split; [|split; [|assumption]].
  - intros i Hi Hnone Hc priority.
    destruct (Hdone i Hi) as [Hd _]. specialize (Hd Hnone Hc).
    unfold computeExpirationTime in Hd. cbn [fst] in Hd. fold priority in Hd.
    split; [assumption|].
    intros Hidle. rewrite Hd. unfold_priorities.
    destruct (Z.leb_spec 10 priority); [lia|].
    destruct (Z.leb_spec 6 priority); [lia|]. reflexivity.
  - intros i e Hi Hlook Hne Hle. destruct (Hdone i Hi) as [_ Hd]. eauto.
Qed.

(** *** Concrete roots *)

Lemma createLaneMap_lookup (v i e : Z) : createLaneMap v !! i = Some e -> e = v.
Proof.
  unfold createLaneMap. intros Hl. apply elem_of_list_to_map_2 in Hl.
  apply list_elem_of_fmap in Hl as (j & Heq & _). congruence.
Qed.

Definition emptyRoot : FiberRoot :=
  mkFiberRoot NoLanes NoLanes NoLanes NoLanes NoLanes NoLanes
    (createLaneMap 0) (createLaneMap NoTimestamp) (createLaneMap NoLanes).

(** Two default lanes (bits 9 and 10) updated, then entangled. *)
Definition root_two_default_lanes : FiberRoot :=
  markRootUpdated (markRootUpdated emptyRoot (2 ^ 9) 10) (2 ^ 10) 10.

(** C3 as stated fails: with lane [2^9] in progress, [getNextLanes] keeps
    the in-progress set, which contains lane [2^9] without its entangled
    lane [2^10]. *)
Lemma getNextLanes_in_progress_not_entangled :
  let root := markRootEntangled root_two_default_lanes (bor (2 ^ 9) (2 ^ 10)) in
  let next := fst (getNextLanes root (2 ^ 9) NoLanePriority) in
  next = 2 ^ 9
  /\ includesSomeLane next (2 ^ 9) = true
  /\ includesSomeLane next (2 ^ 10) = false.
Proof. vm_compute. repeat split. Qed.

(** The entanglement step is a single pass over the chosen batch: the sync
    lane is chosen, it is entangled with lane [2^9], and lane [2^9] comes in
    without lane [2^10], with which it was marked entangled before. *)
Lemma getNextLanes_entanglement_single_pass :
  let root :=
    markRootEntangled
      (markRootEntangled (markRootUpdated root_two_default_lanes SyncLane 10)
         (bor (2 ^ 9) (2 ^ 10)))
      (bor SyncLane (2 ^ 9)) in
  let next := fst (getNextLanes root NoLanes NoLanePriority) in
  selectNextLanes root NoLanes NoLanePriority = inr (SyncLane, SyncLanePriority)
  /\ includesSomeLane next (2 ^ 9) = true
  /\ includesSomeLane next (2 ^ 10) = false.
Proof. vm_compute. repeat split. Qed.

Lemma getNextLanes_entangled_witness :
  let root := markRootEntangled root_two_default_lanes (bor (2 ^ 9) (2 ^ 10)) in
  Z.testbit (fst (getNextLanes root NoLanes NoLanePriority)) 9 = true
  /\ Z.testbit (fst (getNextLanes root NoLanes NoLanePriority)) 10 = true.
Proof.
  apply (getNextLanes_entangled_lanes_together root_two_default_lanes 9 10
           NoLanes NoLanePriority (Z.lor (2 ^ 9) (2 ^ 10)) DefaultLanePriority).
  - closed_range.
  - closed_range.
  - closed_range.
  - closed_range.
  - intros i e Hlook. apply createLaneMap_lookup in Hlook. subst e. closed_range.
  - vm_compute. reflexivity.
  - vm_compute. reflexivity.
Defined.

(** The sync lane and a default lane are pending; the default lane has
    expired. *)
Definition root_expired_default_lane : FiberRoot :=
  markRootExpired
    (markRootUpdated (markRootUpdated emptyRoot (2 ^ 9) 10) SyncLane 20) (2 ^ 9).

(** C2 as stated fails: with the sync lane in progress, [getNextLanes]
    returns the sync lane alone, without the expired lane [2^9]. *)
Lemma getNextLanes_in_progress_sync_over_expired :
  expiredLanes root_expired_default_lane = 2 ^ 9
  /\ fst (getNextLanes root_expired_default_lane SyncLane NoLanePriority) = SyncLane
  /\ isSubsetOfLanes
       (fst (getNextLanes root_expired_default_lane SyncLane NoLanePriority))
       (expiredLanes root_expired_default_lane) = false.
Proof. vm_compute. repeat split. Qed.

(** *** Instances of the theorems on concrete roots *)

Lemma getNextLanes_expired_witness :
  snd (getNextLanes root_expired_default_lane NoLanes NoLanePriority)
  = SyncLanePriority
  /\ (isSubsetOfLanes
        (fst (getNextLanes root_expired_default_lane NoLanes NoLanePriority))
        (expiredLanes root_expired_default_lane) = true
      \/ (fst (getNextLanes root_expired_default_lane NoLanes NoLanePriority)
          = NoLanes
          /\ NoLanes <> NoLanes
          /\ includesSomeLane NoLanes (suspendedLanes root_expired_default_lane)
             = false
          /\ includesSomeLane SyncLane NoLanes = true)).
Proof.
  apply (getNextLanes_expired_lanes_first root_expired_default_lane NoLanes
           NoLanePriority).
  - closed_range.
  - closed_range.
  - vm_compute. congruence.
  - vm_compute. reflexivity.
Defined.

(** A default lane (bit 9) and an idle lane (bit 28) are pending. *)
Definition root_default_and_idle : FiberRoot :=
  markRootUpdated (markRootUpdated emptyRoot (2 ^ 9) 10) (2 ^ 28) 10.

Lemma markStarvedLanesAsExpired_witness :
  let root := root_default_and_idle in
  let root' := fst (markStarvedLanesAsExpired root 100 NoLanePriority) in
  (forall i,
     Z.testbit (pendingLanes root) i = true ->
     expirationTimes root !! i = Some NoTimestamp ->
     Z.testbit (suspendedLanes root) i = false
     \/ Z.testbit (pingedLanes root) i = true ->
     let priority := snd (getHighestPriorityLanes (2 ^ i)) in
     expirationTimes root' !! i
     = Some (if InputContinuousLanePriority <=? priority then 100 + 250
             else if TransitionPriority <=? priority then 100 + 5000
             else NoTimestamp)
     /\ (priority <= IdleHydrationLanePriority ->
         expirationTimes root' !! i = Some NoTimestamp))
  /\ (forall i e,
        Z.testbit (pendingLanes root) i = true ->
        expirationTimes root !! i = Some e ->
        e <> NoTimestamp -> e <= 100 ->
        Z.testbit (expiredLanes root') i = true)
  /\ (forall i,
        Z.testbit (expiredLanes root) i = true ->
        Z.testbit (expiredLanes root') i = true).
Proof.
  apply (markStarvedLanesAsExpired_by_priority root_default_and_idle 100
           NoLanePriority); closed_range.
Defined.

Lemma markRootFinished_witness :
  let root := root_two_default_lanes in
  let root' := markRootFinished root (2 ^ 10) in
  pendingLanes root' = 2 ^ 10
  /\ isSubsetOfLanes (pendingLanes root') (suspendedLanes root') = true
  /\ isSubsetOfLanes (pendingLanes root') (pingedLanes root') = true
  /\ isSubsetOfLanes (pendingLanes root') (expiredLanes root') = true
  /\ isSubsetOfLanes (pendingLanes root') (entangledLanes root') = true
  /\ isSubsetOfLanes (pendingLanes root') (mutableReadLanes root') = true
  /\ (forall i,
        Z.testbit (pendingLanes root) i = true ->
        Z.testbit (2 ^ 10) i = false ->
        eventTimes root' !! i = Some NoTimestamp
        /\ expirationTimes root' !! i = Some NoTimestamp
        /\ entanglements root' !! i = Some NoLanes).
Proof.
  apply (markRootFinished_registers_within_pending root_two_default_lanes (2 ^ 10));
    closed_range.
Defined.

Lemma root_two_default_lanes_entanglements_ok :
  entanglements_ok root_two_default_lanes.
Proof.
  intros i e Hlook. apply createLaneMap_lookup in Hlook. subst e. closed_range.
Qed.

Lemma markRootEntangled_witness :
  let root := root_two_default_lanes in
  let L := Z.lor (2 ^ 9) (2 ^ 10) in
  let root' := markRootEntangled root L in
  isSubsetOfLanes (entangledLanes root') L = true
  /\ (forall i, Z.testbit L i = true ->
        exists e, entanglements root' !! i = Some e
                  /\ isSubsetOfLanes e L = true
                  /\ Z.testbit e i = true)
  /\ isSubsetOfLanes (entangledLanes root') (entangledLanes root) = true
  /\ (forall i e, entanglements root !! i = Some e ->
        exists e', entanglements root' !! i = Some e'
                   /\ isSubsetOfLanes e' e = true).
Proof.
  apply (markRootEntangled_entangles_all root_two_default_lanes
           (Z.lor (2 ^ 9) (2 ^ 10))).
  - closed_range.
  - closed_range.
  - exact root_two_default_lanes_entanglements_ok.
Defined.

End LaneFacts.

(** * Properties of the scheduler *)

Module SchedulerFacts.
Import Scheduler.

Section Facts.
Context {Callback Host : Type} `{HostConfig Host}.
Variable enableSchedulerDebugging : bool.
Variable invoke : Callback -> bool -> @State Callback Host -> @CallbackResult Callback * @State Callback Host.

Local Abbreviation State := (@State Callback Host).
Local Abbreviation Task := (@Task Callback).

(** The callback a task reference leads to; [None] when it is [null]. *)
Definition callbackOf (s : State) (task : Z) : option Callback :=
  tasks s !! task ≫= callback.

(** *** The queues *)

Lemma push_elem (tasks : gmap Z Task) (heap : list Z) (node x : Z) :
  x ∈ push tasks heap node <-> x = node \/ x ∈ heap.
Proof.
  induction heap as [|first rest IH]; simpl.
  - rewrite list_elem_of_singleton, elem_of_nil. tauto.
  - destruct (precedes tasks node first).
    + rewrite !elem_of_cons. tauto.
    + rewrite !elem_of_cons, IH. tauto.
Qed.


(** *** advanceTimers *)

Lemma advanceTimersLoop_spec (now : Z) (timers : list Z) :
  forall (tasks : gmap Z Task) (queue : list Z),
    let '(tasks', queue', timers') := advanceTimersLoop now timers tasks queue in
    (forall t, tasks' !! t ≫= callback = tasks !! t ≫= callback)
    /\ (forall x, x ∈ queue -> x ∈ queue')
    /\ (forall x, x ∈ queue' ->
          x ∈ queue \/ is_Some (tasks !! x ≫= callback)).
Proof.
  induction timers as [|ref rest IH]; intros tasks queue; simpl.
  - auto.
  - destruct (tasks !! ref) as [timer|] eqn:Hlook; [|auto].
    destruct (callback timer) as [cb|] eqn:Hcb.
    + destruct (startTime timer <=? now); [|auto].
      set (tasks1 := <[ref := setSortIndex (expirationTime timer) timer]> tasks).
      specialize (IH tasks1 (push tasks1 queue ref)).
      destruct (advanceTimersLoop now rest tasks1 (push tasks1 queue ref))
        as [[tasks' queue'] timers'].
      destruct IH as (Hcb' & Hmono & Hlive).
      assert (Hsame : forall t, tasks1 !! t ≫= callback = tasks !! t ≫= callback).
      { intros t. unfold tasks1. destruct (decide (ref = t)) as [<-|Hne].
        - rewrite lookup_insert_eq, Hlook. reflexivity.
        - rewrite lookup_insert_ne by assumption. reflexivity. }
      split; [intros t; rewrite Hcb'; apply Hsame|]. split.
      * intros x Hx. apply Hmono, push_elem. auto.
      * intros x Hx. destruct (Hlive x Hx) as [Hq|Hl].
        -- apply push_elem in Hq as [->|Hq]; [|auto].
           right. rewrite Hlook. simpl. rewrite Hcb. eauto.
        -- right. rewrite <- Hsame. assumption.
    + apply IH.
Qed.

Lemma advanceTimers_callbackOf (now : Z) (s : State) (t : Z) :
  callbackOf (advanceTimers now s) t = callbackOf s t.
Proof.
  unfold advanceTimers, callbackOf.
  pose proof (advanceTimersLoop_spec now (timerQueue s) (tasks s) (taskQueue s))
    as Hspec.
  destruct (advanceTimersLoop now (timerQueue s) (tasks s) (taskQueue s))
    as [[tasks' queue'] timers'].
  destruct Hspec as (Hcb & _). apply Hcb.
Qed.

Lemma advanceTimers_keeps_queued (now : Z) (s : State) (x : Z) :
  x ∈ taskQueue s -> x ∈ taskQueue (advanceTimers now s).
Proof.
  unfold advanceTimers.
  pose proof (advanceTimersLoop_spec now (timerQueue s) (tasks s) (taskQueue s))
    as Hspec.
  destruct (advanceTimersLoop now (timerQueue s) (tasks s) (taskQueue s))
    as [[tasks' queue'] timers'].
  destruct Hspec as (_ & Hmono & _). apply Hmono.
Qed.

Lemma advanceTimers_promotes_live (now : Z) (s : State) (x : Z) :
  x ∈ taskQueue (advanceTimers now s) ->
  x ∈ taskQueue s \/ is_Some (callbackOf s x).
Proof.
  unfold advanceTimers, callbackOf.
  pose proof (advanceTimersLoop_spec now (timerQueue s) (tasks s) (taskQueue s))
    as Hspec.
  destruct (advanceTimersLoop now (timerQueue s) (tasks s) (taskQueue s))
    as [[tasks' queue'] timers'].
  destruct Hspec as (_ & _ & Hlive). apply Hlive.
Qed.


(** *** unstable_scheduleCallback *)

(** The start time and the timeout that [unstable_scheduleCallback]
    computes. *)
Definition startTimeFor (now : Z) (options : Options) : Z :=
  match options with
  | OptionsObject (Some delay) => if 0 <? delay then now + delay else now
  | _ => now
  end.

Definition timeoutFor (priorityLevel : Z) : Z :=
  if priorityLevel =? ImmediatePriority then IMMEDIATE_PRIORITY_TIMEOUT
  else if priorityLevel =? UserBlockingPriority
  then USER_BLOCKING_PRIORITY_TIMEOUT
  else if priorityLevel =? IdlePriority then IDLE_PRIORITY_TIMEOUT
  else if priorityLevel =? LowPriority then LOW_PRIORITY_TIMEOUT
  else NORMAL_PRIORITY_TIMEOUT.

Lemma scheduleCallback_task
    (s : State) (priorityLevel : Z) (callback : Callback) (options : Options) :
  let now := getCurrentTime (host s) in
  let start := startTimeFor now options in
  let expiration := start + timeoutFor priorityLevel in
  let r := unstable_scheduleCallback priorityLevel callback options s in
  fst r = taskIdCounter s
  /\ tasks (snd r) !! fst r
     = Some (mkTask (taskIdCounter s) (Some callback) priorityLevel start
               expiration (if now <? start then start else expiration))
  /\ ((now <? start) = false -> fst r ∈ taskQueue (snd r)).
Proof.
  intros now start expiration r. subst r.
  unfold unstable_scheduleCallback.
  fold now. fold (startTimeFor now options). fold start.
  fold (timeoutFor priorityLevel). fold expiration.
  destruct (now <? start) eqn:Hdelayed.
  - repeat case_match; cbn; rewrite lookup_insert_eq;
      (split; [reflexivity|split; [reflexivity|discriminate]]).
  - repeat case_match; cbn; rewrite lookup_insert_eq;
      (split; [reflexivity|split; [reflexivity|]]);
      intros _; apply push_elem; auto.
Qed.


(** *** The order of the ready queue *)

Lemma compare_antisym (a b : Task) : compare b a = - compare a b.
Proof.
  unfold compare.
  destruct (Z.eqb_spec (sortIndex a - sortIndex b) 0),
    (Z.eqb_spec (sortIndex b - sortIndex a) 0); lia.
Qed.

Lemma compare_trans (a b c : Task) :
  compare a b < 0 -> compare b c < 0 -> compare a c < 0.
Proof.
  unfold compare.
  destruct (Z.eqb_spec (sortIndex a - sortIndex b) 0),
    (Z.eqb_spec (sortIndex b - sortIndex c) 0),
    (Z.eqb_spec (sortIndex a - sortIndex c) 0); lia.
Qed.

Lemma compare_total (a b : Task) :
  id a <> id b -> ~ compare a b < 0 -> compare b a < 0.
Proof.
  unfold compare.
  destruct (Z.eqb_spec (sortIndex a - sortIndex b) 0),
    (Z.eqb_spec (sortIndex b - sortIndex a) 0); lia.
Qed.

(** The nodes of a queue are tasks made by [unstable_scheduleCallback]:
    each has its object in the store, under the id the counter gave it. *)
Definition queuedTasks (tasks : gmap Z Task) (heap : list Z) : Prop :=
  forall ref, ref ∈ heap -> exists t, tasks !! ref = Some t /\ id t = ref.

(** A queue in the order of the comparator: each node precedes all the
    nodes behind it. *)
Definition ordered (tasks : gmap Z Task) (heap : list Z) : Prop :=
  StronglySorted (fun a b => precedes tasks a b = true) heap.

Lemma precedes_trans (tasks : gmap Z Task) (a b c : Z) :
  precedes tasks a b = true -> precedes tasks b c = true ->
  precedes tasks a c = true.
Proof.
  unfold precedes.
  destruct (tasks !! a) as [ta|], (tasks !! b) as [tb|], (tasks !! c) as [tc|];
    try discriminate.
  rewrite !Z.ltb_lt. apply compare_trans.
Qed.

Lemma precedes_total (tasks : gmap Z Task) (a b : Z) :
  queuedTasks tasks [a; b] -> a <> b ->
  precedes tasks a b = false -> precedes tasks b a = true.
Proof.
  intros Hq Hne. unfold precedes.
  destruct (Hq a) as (ta & -> & Ha); [set_solver|].
  destruct (Hq b) as (tb & -> & Hb); [set_solver|].
  rewrite Z.ltb_lt, Z.ltb_ge. intros Hge.
  apply compare_total; [congruence|lia].
Qed.

Lemma push_ordered (tasks : gmap Z Task) (heap : list Z) (node : Z) :
  queuedTasks tasks (node :: heap) -> node ∉ heap ->
  ordered tasks heap -> ordered tasks (push tasks heap node).
Proof.
  unfold ordered. induction heap as [|first rest IH]; intros Hq Hnew Hsorted.
  - simpl. apply SSorted_cons; [constructor|constructor].
  - simpl. apply StronglySorted_cons in Hsorted as [Hfirst Hrest].
    destruct (precedes tasks node first) eqn:Hcmp.
    + apply SSorted_cons.
      * apply SSorted_cons; assumption.
      * constructor; [assumption|].
        eapply Forall_impl; [exact Hfirst|].
        intros x Hx. simpl in Hx. eapply precedes_trans; eassumption.
    + apply SSorted_cons.
      * apply IH; [|rewrite not_elem_of_cons in Hnew; tauto|assumption].
        intros ref Href. apply Hq. rewrite !elem_of_cons in *. tauto.
      * apply Forall_forall. intros x Hx.
        apply push_elem in Hx as [->|Hx].
        -- apply precedes_total;
             [|rewrite not_elem_of_cons in Hnew; intuition congruence|assumption].
           intros ref Href. apply Hq.
           rewrite !elem_of_cons, elem_of_nil in *. tauto.
        -- rewrite Forall_forall in Hfirst. apply Hfirst. assumption.
Qed.

Lemma ordered_ext (tasks tasks' : gmap Z Task) (heap : list Z) :
  (forall ref, ref ∈ heap -> tasks' !! ref = tasks !! ref) ->
  ordered tasks heap -> ordered tasks' heap.
Proof.
  unfold ordered. induction heap as [|first rest IH]; intros Hsame Hsorted.
  - constructor.
  - apply StronglySorted_cons in Hsorted as [Hfirst Hrest].
    apply SSorted_cons.
    + apply IH; [|assumption]. intros ref Href. apply Hsame. set_solver.
    + apply Forall_forall. intros x Hx.
      rewrite Forall_forall in Hfirst. specialize (Hfirst x Hx).
      unfold precedes in *. rewrite !Hsame by set_solver. exact Hfirst.
Qed.

(** [a] is queued and [b] is not ahead of it: [peek] and [pop] reach [a]
    before [b]. *)
Definition queuedAhead (a b : Z) (heap : list Z) : Prop :=
  exists pre post, heap = pre ++ a :: post /\ a <> b /\ b ∉ pre.

Lemma queuedAhead_peek (a b : Z) (heap : list Z) :
  queuedAhead a b heap -> peek heap <> Some b.
Proof.
  intros (pre & post & -> & Hne & Hpre). destruct pre as [|x pre]; simpl.
  - congruence.
  - intros [= ->]. apply Hpre. set_solver.
Qed.

Lemma queuedAhead_pop (a b : Z) (heap : list Z) :
  queuedAhead a b heap -> peek heap <> Some a -> queuedAhead a b (pop heap).
Proof.
  intros (pre & post & -> & Hne & Hpre) Hhead.
  destruct pre as [|x pre]; simpl in *; [congruence|].
  exists pre, post. split; [reflexivity|]. split; [assumption|].
  rewrite not_elem_of_cons in Hpre. tauto.
Qed.

Lemma ordered_ahead (tasks : gmap Z Task) (heap : list Z) (a b : Z)
    (ta tb : Task) :
  ordered tasks heap -> a ∈ heap ->
  tasks !! a = Some ta -> tasks !! b = Some tb -> compare ta tb < 0 ->
  queuedAhead a b heap.
Proof.
  intros Hsorted Ha Hta Htb Hlt.
  apply list_elem_of_split in Ha as (pre & post & ->).
  exists pre, post. split; [reflexivity|]. split.
  - intros ->. rewrite Hta in Htb. injection Htb as ->.
    pose proof (compare_antisym tb tb). lia.
  - intros Hb.
    assert (Hba : precedes tasks b a = true).
    { apply (StronglySorted_app_1_elem_of _ _ _ _ _ Hsorted Hb). set_solver. }
    unfold precedes in Hba. rewrite Hta, Htb in Hba.
    apply Z.ltb_lt in Hba. pose proof (compare_antisym ta tb). lia.
Qed.

(** The ready queue of a state is in heap order, and its nodes are tasks
    the counter has numbered. *)
Definition taskQueueOrdered (s : State) : Prop :=
  ordered (tasks s) (taskQueue s)
  /\ queuedTasks (tasks s) (taskQueue s)
  /\ (forall ref, ref ∈ taskQueue s -> ref < taskIdCounter s).

Lemma scheduleCallback_queues
    (s : State) (priorityLevel : Z) (callback : Callback) (options : Options) :
  let now := getCurrentTime (host s) in
  let start := startTimeFor now options in
  let r := unstable_scheduleCallback priorityLevel callback options s in
  taskIdCounter (snd r) = taskIdCounter s + 1
  /\ (forall ref, ref <> taskIdCounter s ->
        tasks (snd r) !! ref = tasks s !! ref)
  /\ taskQueue (snd r)
     = (if now <? start then taskQueue s
        else push (tasks (snd r)) (taskQueue s) (taskIdCounter s)).
Proof.
  intros now start r. subst r.
  unfold unstable_scheduleCallback.
  fold now. fold (startTimeFor now options). fold start.
  destruct (now <? start) eqn:Hdelayed.
  - repeat case_match; cbn; (split; [reflexivity|split; [|reflexivity]]);
      intros ref Hne; rewrite lookup_insert_ne by congruence; reflexivity.
  - repeat case_match; cbn; (split; [reflexivity|split; [|reflexivity]]);
      intros ref Hne; rewrite lookup_insert_ne by congruence; reflexivity.
Qed.

Lemma scheduleCallback_ordered
    (s : State) (priorityLevel : Z) (callback : Callback) (options : Options) :
  taskQueueOrdered s ->
  taskQueueOrdered
    (snd (unstable_scheduleCallback priorityLevel callback options s)).
Proof.
  intros (Hsorted & Hq & Hold).
  destruct (scheduleCallback_queues s priorityLevel callback options)
    as (Hcounter & Hstore & Hqueue).
  destruct (scheduleCallback_task s priorityLevel callback options)
    as (Href & Hnew & _).
  cbv zeta in *.
  set (r := unstable_scheduleCallback priorityLevel callback options s) in *.
  assert (Hkept : forall ref, ref ∈ taskQueue s ->
            tasks (snd r) !! ref = tasks s !! ref).
  { intros ref Hin. apply Hstore. specialize (Hold ref Hin). lia. }
  assert (Hsorted' : ordered (tasks (snd r)) (taskQueue s)).
  { apply (ordered_ext (tasks s)); assumption. }
  assert (Hq' : queuedTasks (tasks (snd r)) (taskQueue s)).
  { intros ref Hin. rewrite Hkept by assumption. apply Hq. assumption. }
  unfold taskQueueOrdered. rewrite Hqueue, Hcounter.
  destruct (getCurrentTime (host s) <? startTimeFor (getCurrentTime (host s)) options).
  - split; [assumption|]. split; [assumption|].
    intros ref Hin. specialize (Hold ref Hin). lia.
  - assert (Hall : queuedTasks (tasks (snd r)) (taskIdCounter s :: taskQueue s)).
    { intros ref Hin. apply elem_of_cons in Hin as [->|Hin]; [|auto].
      rewrite Href in Hnew. rewrite Hnew. eexists. split; reflexivity. }
    split; [|split].
    + apply push_ordered; [assumption| |assumption].
      intros Hin. specialize (Hold _ Hin). lia.
    + intros ref Hin. apply push_elem in Hin. apply Hall. set_solver.
    + intros ref Hin. apply push_elem in Hin as [->|Hin]; [lia|].
      specialize (Hold ref Hin). lia.
Qed.

(** A round of the work loop calls no task but the current one. *)
Lemma workLoopRound_ran_current (hasTimeRemaining : bool) (now : Z)
    (s : State) :
  match workLoopRound enableSchedulerDebugging invoke hasTimeRemaining now s with
  | Exit _ => True
  | Again _ ran _ | Raised ran _ =>
      forall x, x ∈ ran -> currentTask s = Some x
  end.
Proof.
  unfold workLoopRound.
  destruct (currentTask s) as [ref|]; [|exact I].
  destruct (enableSchedulerDebugging && isSchedulerPaused s); [exact I|].
  destruct (tasks s !! ref) as [t|]; [|exact I].
  destruct ((now <? expirationTime t)
            && (negb hasTimeRemaining || shouldYieldToHost (host s)));
    [exact I|].
  destruct (callback t) as [cb|].
  - destruct (invoke cb (expirationTime t <=? now) _) as [[k| |] s1];
      intros x Hx; apply list_elem_of_singleton in Hx; congruence.
  - intros x Hx. apply elem_of_nil in Hx. contradiction.
Qed.

Lemma scheduleCallback_keeps_queued
    (s : State) (priorityLevel : Z) (callback : Callback) (options : Options)
    (x : Z) :
  x ∈ taskQueue s ->
  x ∈ taskQueue (snd (unstable_scheduleCallback priorityLevel callback options s)).
Proof.
  intros Hin.
  destruct (scheduleCallback_queues s priorityLevel callback options)
    as (_ & _ & Hqueue).
  cbv zeta in Hqueue. rewrite Hqueue.
  destruct (_ <? _); [assumption|]. apply push_elem. auto.
Qed.

Lemma sortIndex_ahead (s : State) (a b : Z) (ta tb : Task) :
  taskQueueOrdered s -> a ∈ taskQueue s ->
  tasks s !! a = Some ta -> tasks s !! b = Some tb ->
  sortIndex ta < sortIndex tb ->
  queuedAhead a b (taskQueue s).
Proof.
  intros (Hsorted & _) Ha Hta Htb Hlt.
  apply (ordered_ahead (tasks s) _ a b ta tb); try assumption.
  unfold compare. destruct (Z.eqb_spec (sortIndex ta - sortIndex tb) 0); lia.
Qed.

(** C4: [unstable_scheduleCallback] gives the task the timeout of its
    priority level (Immediate -1, UserBlocking 250, Normal 5000, Low 10000,
    Idle 1073741823, anything else 5000) and [expirationTime = startTime +
    timeout].  So a task scheduled at Immediate priority with no delay has
    [expirationTime <= now] and is in the ready queue, and the queue order
    [compare] puts it before any task scheduled at Normal priority at the
    same instant.  The ready queue stays in that order; so whichever of the
    two is scheduled first, the Immediate task stands in the ready queue
    ahead of the Normal one (which is behind it, or still among the timers
    when it was given a delay), and the Normal one is not the task [peek]
    returns.  [pop] leaves it ahead until it removes it, and a round of
    the work loop that starts at the head of the ready queue does not call
    the task behind. *)
Theorem scheduleCallback_timeout_by_priority
    (s : State) (priorityLevel : Z) (callback : Callback) (options : Options) :
  let now := getCurrentTime (host s) in
  let r := unstable_scheduleCallback priorityLevel callback options s in
  exists task : Task,
    tasks (snd r) !! fst r = Some task
    /\ startTime task
       = match options with
         | OptionsObject (Some delay) => if 0 <? delay then now + delay else now
         | _ => now
         end
    /\ (priorityLevel = ImmediatePriority ->
        expirationTime task = startTime task + -1)
    /\ (priorityLevel = UserBlockingPriority ->
        expirationTime task = startTime task + 250)
    /\ (priorityLevel = NormalPriority ->
        expirationTime task = startTime task + 5000)
    /\ (priorityLevel = LowPriority ->
        expirationTime task = startTime task + 10000)
    /\ (priorityLevel = IdlePriority ->
        expirationTime task = startTime task + 1073741823)
    /\ (priorityLevel <> ImmediatePriority ->
        priorityLevel <> UserBlockingPriority ->
        priorityLevel <> NormalPriority ->
        priorityLevel <> LowPriority ->
        priorityLevel <> IdlePriority ->
        expirationTime task = startTime task + 5000)
    /\ (priorityLevel = ImmediatePriority -> startTime task = now ->
        expirationTime task <= now
        /\ sortIndex task = expirationTime task
        /\ fst r ∈ taskQueue (snd r))
    /\ (forall (s2 : State) (callback2 : Callback) (options2 : Options),
          priorityLevel = ImmediatePriority -> startTime task = now ->
          getCurrentTime (host s2) = now ->
          let r2 :=
            unstable_scheduleCallback NormalPriority callback2 options2 s2 in
          exists task2 : Task,
            tasks (snd r2) !! fst r2 = Some task2
            /\ expirationTime task < expirationTime task2
            /\ compare task task2 < 0)
    /\ (taskQueueOrdered s -> taskQueueOrdered (snd r))
    /\ (forall (callback2 : Callback) (options2 : Options),
          priorityLevel = ImmediatePriority -> startTime task = now ->
          taskQueueOrdered s ->
          getCurrentTime (host (snd r)) = now ->
          let r2 :=
            unstable_scheduleCallback NormalPriority callback2 options2
              (snd r) in
          queuedAhead (fst r) (fst r2) (taskQueue (snd r2))
          /\ peek (taskQueue (snd r2)) <> Some (fst r2)
          /\ (forall task2 : Task,
                tasks (snd r2) !! fst r2 = Some task2 ->
                startTime task2 = now -> fst r2 ∈ taskQueue (snd r2)))
    /\ (forall (s0 : State) (callback0 : Callback) (options0 : Options),
          let r0 :=
            unstable_scheduleCallback NormalPriority callback0 options0 s0 in
          priorityLevel = ImmediatePriority -> startTime task = now ->
          taskQueueOrdered s0 -> s = snd r0 ->
          getCurrentTime (host s0) = now ->
          queuedAhead (fst r) (fst r0) (taskQueue (snd r))
          /\ peek (taskQueue (snd r)) <> Some (fst r0)
          /\ (forall task0 : Task,
                tasks (snd r0) !! fst r0 = Some task0 ->
                startTime task0 = now -> fst r0 ∈ taskQueue (snd r)))
    /\ (forall (a b : Z) (heap : list Z),
          queuedAhead a b heap ->
          peek heap <> Some b
          /\ (peek heap <> Some a -> queuedAhead a b (pop heap)))
    /\ (forall (a b : Z) (hasTimeRemaining : bool) (currentTime : Z)
               (queued : State),
          queuedAhead a b (taskQueue queued) ->
          currentTask queued = peek (taskQueue queued) ->
          match workLoopRound enableSchedulerDebugging invoke hasTimeRemaining
                  currentTime queued with
          | Exit _ => True
          | Again _ ran _ | Raised ran _ => b ∉ ran
          end).
Proof.
  intros now r.
  destruct (scheduleCallback_task s priorityLevel callback options)
    as (Href & Htask & Hready).
  destruct (scheduleCallback_queues s priorityLevel callback options)
    as (Hcounter & Hstore & _).
  fold now r in Href, Htask, Hready, Hcounter, Hstore.
  eexists. split; [exact Htask|].
  cbn [startTime expirationTime sortIndex id].
  assert (Hge : forall options2, now <= startTimeFor now options2).
  { intros options2. unfold startTimeFor. destruct options2 as [|[d|]]; try lia.
    destruct (Z.ltb_spec 0 d); lia. }
  assert (Hnormal : forall (s2 : State) callback2 options2,
            getCurrentTime (host s2) = now ->
            let r2 :=
              unstable_scheduleCallback NormalPriority callback2 options2 s2 in
            exists task2 : Task,
              tasks (snd r2) !! fst r2 = Some task2
              /\ fst r2 = taskIdCounter s2
              /\ startTime task2 = startTimeFor now options2
              /\ expirationTime task2 = startTimeFor now options2 + 5000
              /\ now <= sortIndex task2
              /\ (startTime task2 = now -> fst r2 ∈ taskQueue (snd r2))).
  { intros s2 callback2 options2 Hnow r2.
    destruct (scheduleCallback_task s2 NormalPriority callback2 options2)
      as (Href2 & Htask2 & Hready2).
    cbv zeta in Htask2, Hready2. rewrite Hnow in Htask2, Hready2.
    eexists. split; [exact Htask2|]. split; [exact Href2|].
    cbn [startTime expirationTime sortIndex].
    split; [reflexivity|]. split; [reflexivity|].
    pose proof (Hge options2). change (timeoutFor NormalPriority) with 5000.
    split.
    - destruct (now <? startTimeFor now options2); lia.
    - intros Hstart. apply Hready2. rewrite Hstart. apply Z.ltb_irrefl. }
  unfold timeoutFor, IMMEDIATE_PRIORITY_TIMEOUT, USER_BLOCKING_PRIORITY_TIMEOUT,
    IDLE_PRIORITY_TIMEOUT, LOW_PRIORITY_TIMEOUT, NORMAL_PRIORITY_TIMEOUT,
    maxSigned31BitInt in *.
  split; [reflexivity|].
  do 5 (split; [intros ->; reflexivity|]).
  split.
  { unfold ImmediatePriority, UserBlockingPriority, NormalPriority,
      LowPriority, IdlePriority.
    intros H1 H2 H3 H4 H5.
    destruct (Z.eqb_spec priorityLevel 1); [contradiction|].
    destruct (Z.eqb_spec priorityLevel 2); [contradiction|].
    destruct (Z.eqb_spec priorityLevel 5); [contradiction|].
    destruct (Z.eqb_spec priorityLevel 4); [contradiction|]. reflexivity. }
  fold (startTimeFor now options) in *.
  assert (Himmediate : priorityLevel = ImmediatePriority ->
            startTimeFor now options = now ->
            tasks (snd r) !! fst r
            = Some (mkTask (taskIdCounter s) (Some callback) ImmediatePriority
                      now (now + -1) (now + -1))
            /\ fst r ∈ taskQueue (snd r)).
  { intros -> Hstart. rewrite Htask, Hstart, Z.ltb_irrefl.
    split; [reflexivity|]. apply Hready. rewrite Hstart. apply Z.ltb_irrefl. }
  split.
  { intros Hp Hstart. destruct (Himmediate Hp Hstart) as [_ Hin].
    subst priorityLevel. rewrite Hstart, Z.ltb_irrefl.
    change (ImmediatePriority =? ImmediatePriority) with true. cbv iota.
    split; [lia|]. split; [reflexivity|]. exact Hin. }
  split.
  { intros s2 callback2 options2 Hp Hstart Hnow.
    destruct (Hnormal s2 callback2 options2 Hnow)
      as (task2 & Hlook2 & _ & Hstart2 & Hexp2 & Hsort2 & _).
    cbv zeta. exists task2. split; [exact Hlook2|].
    subst priorityLevel. rewrite Hstart, Z.ltb_irrefl.
    change (ImmediatePriority =? ImmediatePriority) with true. cbv iota.
    pose proof (Hge options2).
    split; [lia|]. unfold compare. cbn [sortIndex id].
    destruct (Z.eqb_spec (now + -1 - sortIndex task2) 0); lia. }
  split; [apply scheduleCallback_ordered|].
  split; [|split; [|split]].
  - intros callback2 options2 Hp Hstart Hordered Hnow.
    set (r2 := unstable_scheduleCallback NormalPriority callback2 options2
                 (snd r)).
    destruct (Himmediate Hp Hstart) as [Hlook Hin].
    destruct (Hnormal (snd r) callback2 options2 Hnow)
      as (task2 & Hlook2 & Href2 & _ & _ & Hsort2 & Hready2).
    fold r2 in Hlook2, Href2, Hready2.
    destruct (scheduleCallback_queues (snd r) NormalPriority callback2 options2)
      as (_ & Hstore2 & _).
    fold r2 in Hstore2.
    assert (Hahead : queuedAhead (fst r) (fst r2) (taskQueue (snd r2))).
    { eapply sortIndex_ahead.
      - apply scheduleCallback_ordered, scheduleCallback_ordered, Hordered.
      - apply scheduleCallback_keeps_queued, Hin.
      - rewrite Hstore2 by lia. exact Hlook.
      - exact Hlook2.
      - cbn [sortIndex]. lia. }
    split; [exact Hahead|]. split; [exact (queuedAhead_peek _ _ _ Hahead)|].
    intros task2' Hlook2'. rewrite Hlook2 in Hlook2'. injection Hlook2' as <-.
    exact Hready2.
  - intros s0 callback0 options0 Hp Hstart Hordered Hs Hnow.
    set (r0 := unstable_scheduleCallback NormalPriority callback0 options0 s0)
      in *.
    destruct (Himmediate Hp Hstart) as [Hlook Hin].
    destruct (Hnormal s0 callback0 options0 Hnow)
      as (task0 & Hlook0 & Href0 & _ & _ & Hsort0 & Hready0).
    fold r0 in Hlook0, Href0, Hready0.
    destruct (scheduleCallback_queues s0 NormalPriority callback0 options0)
      as (Hcounter0 & _ & _).
    fold r0 in Hcounter0. rewrite <- Hs in Hlook0, Hready0, Hcounter0.
    assert (Hahead : queuedAhead (fst r) (fst r0) (taskQueue (snd r))).
    { eapply sortIndex_ahead.
      - apply scheduleCallback_ordered. rewrite Hs.
        apply scheduleCallback_ordered, Hordered.
      - exact Hin.
      - exact Hlook.
      - rewrite Hstore by lia. exact Hlook0.
      - cbn [sortIndex]. lia. }
    split; [exact Hahead|]. split; [exact (queuedAhead_peek _ _ _ Hahead)|].
    intros task0' Hlook0' Hstart0. rewrite <- Hs in Hlook0'.
    rewrite Hlook0 in Hlook0'. injection Hlook0' as <-.
    apply scheduleCallback_keeps_queued. auto.
  - intros a b heap Hahead.
    split; [apply (queuedAhead_peek a b), Hahead|].
    apply queuedAhead_pop, Hahead.
  - intros a b hasTimeRemaining currentTime queued Hahead Hcur.
    pose proof (workLoopRound_ran_current hasTimeRemaining currentTime queued)
      as Hran.
    pose proof (queuedAhead_peek a b _ Hahead) as Hhead.
    destruct (workLoopRound enableSchedulerDebugging invoke hasTimeRemaining
                currentTime queued) as [s1|now1 ran s1|ran s1];
      [exact I|..]; intros Hb; apply Hran in Hb; congruence.
Qed.


(** *** unstable_runWithPriority *)

(** The level [unstable_runWithPriority] runs the handler at. *)
Definition validPriority (priorityLevel : Z) : bool :=
  (priorityLevel =? ImmediatePriority)
  || (priorityLevel =? UserBlockingPriority)
  || (priorityLevel =? NormalPriority)
  || (priorityLevel =? LowPriority)
  || (priorityLevel =? IdlePriority).

(** C6: for every priority argument and every handler,
    [unstable_runWithPriority] runs the handler once, in a state that
    differs from the caller's only in the ambient priority, which is the
    given level when it is one of the five known ones and Normal otherwise;
    it ends as the handler ends (it throws only if the handler throws); and
    afterwards the ambient priority is the previous one, whether the handler
    returned or threw. *)
Theorem runWithPriority_defaults_and_restores {R : Type}
    (priorityLevel : Z) (eventHandler : State -> Completion R * State)
    (s : State) :
  let level := if validPriority priorityLevel then priorityLevel
               else NormalPriority in
  let entered := withCurrentPriorityLevel level s in
  let done := unstable_runWithPriority priorityLevel eventHandler s in
  currentPriorityLevel entered = level
  /\ validPriority level = true
  /\ fst done = fst (eventHandler entered)
  /\ snd done
     = withCurrentPriorityLevel (currentPriorityLevel s)
         (snd (eventHandler entered))
  /\ currentPriorityLevel (snd done) = currentPriorityLevel s
  /\ (fst done = Thrown -> fst (eventHandler entered) = Thrown).
Proof.
  intros level entered done.
  assert (Hdone : done = (fst (eventHandler entered),
                          withCurrentPriorityLevel (currentPriorityLevel s)
                            (snd (eventHandler entered)))).
  { unfold done, unstable_runWithPriority. fold (validPriority priorityLevel).
    fold level. cbn [currentPriorityLevel]. fold entered.
    destruct (eventHandler entered) as [result s']. reflexivity. }
  rewrite Hdone. cbn [fst snd].
  split; [reflexivity|]. split.
  { unfold level. destruct (validPriority priorityLevel) eqn:Hv;
      [assumption|reflexivity]. }
  repeat split; auto.
Qed.

(** *** Cancellation *)

(** The callbacks that run never put a callback back on [task]: the
    field is written only by [unstable_cancelCallback] and by the work
    loop.  This is asked of the states in which [task] has been made
    (the counter has passed its id), and there the callbacks leave it
    made: a callback may schedule and cancel tasks as it likes. *)
Definition callbacksKeepCancelled (task : Z) : Prop :=
  forall (cb : Callback) (didTimeout : bool) (s : State),
    task < taskIdCounter s ->
    callbackOf s task = None ->
    callbackOf (snd (invoke cb didTimeout s)) task = None
    /\ task < taskIdCounter (snd (invoke cb didTimeout s)).







(** *** The work loop *)

Lemma workLoopRound_shape (hasTimeRemaining : bool) (now : Z) (s : State) :
  match workLoopRound enableSchedulerDebugging invoke hasTimeRemaining now s with
  | Exit s' => s' = s
  | Again _ _ s' => currentTask s' = peek (taskQueue s')
  | Raised _ _ => True
  end.
Proof.
  unfold workLoopRound.
  destruct (currentTask s) as [ref|]; [|reflexivity].
  destruct (enableSchedulerDebugging && isSchedulerPaused s); [reflexivity|].
  destruct (tasks s !! ref) as [t|]; [|reflexivity].
  destruct ((now <? expirationTime t)
            && (negb hasTimeRemaining || shouldYieldToHost (host s)));
    [reflexivity|].
  destruct (callback t) as [cb|]; [|reflexivity].
  destruct (invoke cb (expirationTime t <=? now) _) as [[k| |] s1];
    try reflexivity; exact I.
Qed.

Lemma workLoopFrom_result (rounds : nat) :
  forall (hasTimeRemaining : bool) (now : Z) (s : State) more ran s',
    currentTask s = peek (taskQueue s) ->
    workLoopFrom enableSchedulerDebugging invoke rounds hasTimeRemaining now s
    = Some (Returned more, ran, s') ->
    currentTask s' = peek (taskQueue s')
    /\ (more = true <-> is_Some (peek (taskQueue s'))).
Proof.
  induction rounds as [|rounds IH];
    intros hasTimeRemaining now s more ran s' Hhead Hrun; simpl in Hrun.
  - discriminate.
  - pose proof (workLoopRound_shape hasTimeRemaining now s) as Hshape.
    destruct (workLoopRound enableSchedulerDebugging invoke hasTimeRemaining now s)
      as [s1|now1 ran1 s1|ran1 s1].
    + subst s1. unfold workLoopEnd in Hrun.
      destruct (currentTask s) as [ref|] eqn:Hcur.
      * injection Hrun as <- <- <-. rewrite Hcur. split; [assumption|].
        rewrite <- Hhead. split; eauto.
      * assert (Hnone : forall s2 : State,
                  taskQueue s2 = taskQueue s -> currentTask s2 = None ->
                  currentTask s2 = peek (taskQueue s2)
                  /\ (false = true <-> is_Some (peek (taskQueue s2)))).
        { intros s2 Hq Hc. rewrite Hq, <- Hhead, Hc. split; [reflexivity|].
          split; [discriminate|]. intros [? ?]. discriminate. }
        destruct (peekTask (tasks s) (timerQueue s)) as [[? firstTimer]|];
          injection Hrun as <- <- <-; apply Hnone; auto.
    + destruct (workLoopFrom enableSchedulerDebugging invoke rounds
                  hasTimeRemaining now1 s1) as [[[result2 ran2] s2]|] eqn:Hrest;
        [|discriminate].
      injection Hrun as Hr <- <-. subst result2. eapply IH; eauto.
    + discriminate.
Qed.


End Facts.
(** *** A host and callbacks to run the scheduler on *)

(** A host with a clock and a deadline: it says to yield once the clock
    has reached the deadline, as the browser host does, and records the
    requests it receives. *)
Record DemoHost : Type := mkDemoHost {
  clock : Z;
  deadline : Z;
  callbackRequested : bool;
  timeoutRequested : option Z
}.

#[local] Instance demoHostConfig : HostConfig DemoHost := {|
  getCurrentTime h := clock h;
  shouldYieldToHost h := deadline h <=? clock h;
  requestHostCallback h :=
    mkDemoHost (clock h) (deadline h) true (timeoutRequested h);
  requestHostTimeout ms h :=
    mkDemoHost (clock h) (deadline h) (callbackRequested h) (Some ms);
  cancelHostTimeout h :=
    mkDemoHost (clock h) (deadline h) (callbackRequested h) None
|}.

(** A callback that works for [ms] milliseconds and returns a continuation
    [more] times before it finishes. *)
Inductive DemoCallback : Type :=
  | Work (ms : Z) (more : nat).

Definition demoInvoke (cb : DemoCallback) (didTimeout : bool)
    (s : @State DemoCallback DemoHost)
    : @CallbackResult DemoCallback * @State DemoCallback DemoHost :=
  match cb with
  | Work ms more =>
      (match more with
       | O => Finished
       | S more => Continuation (Work ms more)
       end,
       withHost
         (mkDemoHost (clock (host s) + ms) (deadline (host s))
            (callbackRequested (host s)) (timeoutRequested (host s))) s)
  end.

(** The scheduler as the module leaves it when loaded, at time 0. *)
Definition demoStart (deadline : Z) : @State DemoCallback DemoHost :=
  mkState ∅ [] [] 1 false None NormalPriority false false false
    (mkDemoHost 0 deadline false None).

(** A callback that uses the scheduler itself: a fork schedules its child
    as a new task, at the priority level and with the options it holds,
    and finishes. *)
Inductive Job : Type :=
  | Leaf
  | Fork (priorityLevel : Z) (options : Options) (child : Job).

Definition jobInvoke {Host : Type} `{HostConfig Host} (cb : Job)
    (didTimeout : bool) (s : @State Job Host)
    : @CallbackResult Job * @State Job Host :=
  match cb with
  | Leaf => (Finished, s)
  | Fork priorityLevel options child =>
      (Finished,
       snd (unstable_scheduleCallback priorityLevel child options s))
  end.



(** The yield law of the specification: with a budget of 5 ms, a task that
    works 10 ms and returns a continuation is still at the head of the
    ready queue after the slice, with the continuation as its callback, and
    [workLoop] returns true. *)
Example workLoop_yields_after_slice :
  let s := snd (unstable_scheduleCallback NormalPriority (Work 10 1) NotAnObject
                  (demoStart 5)) in
  exists s',
    workLoop false demoInvoke 3 true 0 s = Some (Returned true, [1], s')
    /\ peek (taskQueue s') = Some 1
    /\ callbackOf s' 1 = Some (Work 10 0).
Proof.
  eexists. split; [vm_compute; reflexivity|]. split; reflexivity.
Qed.

(** Three tasks scheduled at the same instant at Idle, Immediate and Normal
    priority run in the order Immediate, Normal, Idle, and the ready queue
    is empty afterwards. *)
Example workLoop_runs_by_expiration :
  let s1 := snd (unstable_scheduleCallback IdlePriority (Work 0 0) NotAnObject
                   (demoStart 1000)) in
  let s2 := snd (unstable_scheduleCallback ImmediatePriority (Work 0 0)
                   NotAnObject s1) in
  let s3 := snd (unstable_scheduleCallback NormalPriority (Work 0 0)
                   NotAnObject s2) in
  exists s',
    workLoop false demoInvoke 4 true 0 s3 = Some (Returned false, [2; 3; 1], s')
    /\ unstable_getFirstCallbackNode s' = None.
Proof.
  eexists. split; [vm_compute; reflexivity|reflexivity].
Qed.

(** Instances of the theorems on the demo scheduler. *)

Lemma scheduleCallback_immediate_witness :
  let r0 := unstable_scheduleCallback NormalPriority (Work 0 0) NotAnObject
              (demoStart 1000) in
  let r := unstable_scheduleCallback ImmediatePriority (Work 0 0) NotAnObject
             (snd r0) in
  let r2 := unstable_scheduleCallback NormalPriority (Work 0 0) NotAnObject
              (snd r) in
  (exists task : @Task DemoCallback,
     tasks (snd r) !! fst r = Some task
     /\ expirationTime task = startTime task + -1
     /\ expirationTime task <= 0
     /\ fst r ∈ taskQueue (snd r))
  /\ taskQueueOrdered (demoStart 1000)
  /\ queuedAhead (fst r) (fst r0) (taskQueue (snd r))
  /\ taskQueue (snd r) = [2; 1]
  /\ queuedAhead (fst r) (fst r2) (taskQueue (snd r2))
  /\ taskQueue (snd r2) = [2; 1; 3].
Proof.
  intros r0 r r2.
  assert (taskQueueOrdered (demoStart 1000)) as Hordered.
  { split; [constructor|].
    split; intros ref Hin; apply elem_of_nil in Hin; contradiction. }
  destruct (scheduleCallback_timeout_by_priority false demoInvoke (snd r0)
              ImmediatePriority (Work 0 0) NotAnObject)
    as (task & Hlook & Hstart & Himm & _ & _ & _ & _ & _ & Hnow & _ & Hkept
        & Hbefore & Hafter & _ & _).
  split.
  { exists task. split; [exact Hlook|]. split; [apply Himm; reflexivity|].
    destruct (Hnow eq_refl Hstart) as (Hle & _ & Hin). split; assumption. }
  split; [exact Hordered|]. split.
  { apply (Hafter (demoStart 1000) (Work 0 0) NotAnObject eq_refl Hstart
             Hordered eq_refl eq_refl). }
  split; [reflexivity|]. split; [|reflexivity].
  apply (Hbefore (Work 0 0) NotAnObject eq_refl Hstart); [|reflexivity].
  destruct (scheduleCallback_timeout_by_priority false demoInvoke
              (demoStart 1000)
              NormalPriority (Work 0 0) NotAnObject)
    as (_ & _ & _ & _ & _ & _ & _ & _ & _ & _ & _ & Hkept0 & _).
  exact (Hkept0 Hordered).
Defined.

Lemma runWithPriority_invalid_level_witness :
  let handler := fun s : @State DemoCallback DemoHost =>
                   (@Thrown unit, withCurrentPriorityLevel IdlePriority s) in
  let done := unstable_runWithPriority 42 handler (demoStart 1000) in
  fst done = fst (handler (withCurrentPriorityLevel NormalPriority (demoStart 1000)))
  /\ currentPriorityLevel (snd done) = NormalPriority.
Proof.
  intros handler done.
  destruct (runWithPriority_defaults_and_restores 42 handler (demoStart 1000))
    as (_ & _ & Hresult & _ & Hrestored & _).
  split; [exact Hresult|exact Hrestored].
Defined.


Lemma demoInvoke_keeps_cancelled (task : Z) :
  callbacksKeepCancelled demoInvoke task.
Proof. intros [ms more] didTimeout s Hmade Hc. split; assumption. Qed.



End SchedulerFacts.

(** * More properties of the lane engine *)

Module LaneProperties.
Import JS Lane LaneFacts.

(** *** The lowest lane of a mask *)

(** Number of trailing zero bits of a positive number. *)
Fixpoint trailingZeros (p : positive) : Z :=
  match p with
  | xO q => 1 + trailingZeros q
  | _ => 0
  end.

Lemma trailingZeros_nonneg p : 0 <= trailingZeros p.
Proof. induction p; simpl; lia. Qed.

Lemma land_opp_pos (p : positive) :
  Z.land (Z.pos p) (- Z.pos p) = 2 ^ trailingZeros p.
Proof.
  induction p as [q IH|q IH|].
  - (* odd *)
    simpl trailingZeros. rewrite Z.pow_0_r.
    apply Z.bits_inj'. intros n Hn.
    rewrite Z.land_spec.
    replace (- Z.pos q~1) with (2 * (- Z.pos q - 1) + 1) by lia.
    replace (Z.pos q~1) with (2 * Z.pos q + 1) by lia.
    destruct (Z.eq_dec n 0) as [->|Hne].
    + rewrite !Z.testbit_odd_0. reflexivity.
    + replace n with (Z.succ (n - 1)) by lia.
      rewrite !Z.testbit_odd_succ by lia.
      replace (- Z.pos q - 1) with (Z.lnot (Z.pos q))
        by (rewrite Z.lnot_eq_pred_opp; lia).
      rewrite Z.lnot_spec by lia. rewrite andb_negb_r.
      replace (Z.succ (n - 1)) with n by lia.
      change 1 with (2 ^ 0). rewrite Z.pow2_bits_false by lia. reflexivity.
  - (* even *)
    simpl trailingZeros.
    pose proof (trailingZeros_nonneg q).
    rewrite Z.pow_add_r by lia. rewrite Z.pow_1_r, <- IH.
    replace (- Z.pos q~0) with (2 * (- Z.pos q)) by lia.
    replace (Z.pos q~0) with (2 * Z.pos q) by lia.
    apply Z.bits_inj'. intros n Hn.
    rewrite Z.land_spec.
    destruct (Z.eq_dec n 0) as [->|Hne].
    + rewrite !Z.testbit_even_0. reflexivity.
    + replace n with (Z.succ (n - 1)) by lia.
      rewrite !Z.testbit_even_succ by lia. rewrite Z.land_spec. reflexivity.
  - reflexivity.
Qed.

Lemma trailingZeros_bit (p : positive) :
  Z.testbit (Z.pos p) (trailingZeros p) = true
  /\ forall j, j < trailingZeros p -> Z.testbit (Z.pos p) j = false.
Proof.
  induction p as [q IH|q IH|].
  - simpl trailingZeros. split; [reflexivity|].
    intros j Hj. apply Z.testbit_neg_r. assumption.
  - simpl trailingZeros. pose proof (trailingZeros_nonneg q).
    destruct IH as [Hset Hlow].
    replace (Z.pos q~0) with (2 * Z.pos q) by lia. split.
    + replace (1 + trailingZeros q) with (Z.succ (trailingZeros q)) by lia.
      rewrite Z.testbit_even_succ by assumption. exact Hset.
    + intros j Hj. destruct (Z_lt_dec j 0) as [Hneg|Hnn];
        [apply Z.testbit_neg_r; assumption|].
      destruct (Z.eq_dec j 0) as [->|Hne]; [apply Z.testbit_even_0|].
      replace j with (Z.succ (j - 1)) by lia.
      rewrite Z.testbit_even_succ by lia. apply Hlow. lia.
  - simpl. split; [reflexivity|]. intros j Hj. apply Z.testbit_neg_r. assumption.
Qed.

Lemma getHighestPriorityLane_lanes x :
  is_lanes x -> getHighestPriorityLane x = Z.land x (- x).
Proof.
  intros [H0 H1]. unfold getHighestPriorityLane, band.
  rewrite !toInt32_small by (unfold is_int32; lia). reflexivity.
Qed.

(** [lanes & -lanes] is the lowest lane of the mask: a single lane of the
    mask below which the mask has no lane; it is [NoLanes] for the empty
    mask. *)
Lemma lowest_lane (x : Z) :
  is_lanes x -> 0 < x ->
  exists i, 0 <= i <= 30
            /\ getHighestPriorityLane x = 2 ^ i
            /\ Z.testbit x i = true
            /\ forall j, j < i -> Z.testbit x j = false.
Proof.
  intros Hx Hpos. rewrite getHighestPriorityLane_lanes by assumption.
  destruct x as [|p|p]; try lia.
  destruct (trailingZeros_bit p) as [Hset Hlow].
  exists (trailingZeros p). split.
  - split; [apply trailingZeros_nonneg|].
    destruct (Z_le_dec (trailingZeros p) 30) as [|Hgt]; [assumption|].
    rewrite bits_above_lanes in Hset by (assumption || lia). discriminate.
  - split; [apply land_opp_pos|]. split; assumption.
Qed.

(** *** Classification by groups of lanes *)

(** The groups [getHighestPriorityLanes] goes through, as ranges of lane
    indices [lo, hi) with their priority. *)
Definition laneRanges : list (Z * Z * Z) :=
  [ (0, 1, SyncLanePriority); (1, 2, SyncBatchedLanePriority);
    (2, 3, InputDiscreteHydrationLanePriority);
    (3, 5, InputDiscreteLanePriority);
    (5, 6, InputContinuousHydrationLanePriority);
    (6, 8, InputContinuousLanePriority);
    (8, 9, DefaultHydrationLanePriority); (9, 12, DefaultLanePriority);
    (12, 13, TransitionHydrationPriority); (13, 22, TransitionPriority);
    (22, 26, RetryLanePriority); (26, 27, SelectiveHydrationLanePriority);
    (27, 28, IdleHydrationLanePriority); (28, 30, IdleLanePriority);
    (30, 31, OffscreenLanePriority) ].

Definition rangeMask (lo hi : Z) : Z := Z.shiftl (Z.ones (hi - lo)) lo.

Fixpoint firstMatch (ranges : list (Z * Z * Z)) (lanes : Z) : Z * Z :=
  match ranges with
  | [] => (lanes, DefaultLanePriority)
  | (lo, hi, p) :: rest =>
      if negb (Z.land (rangeMask lo hi) lanes =? 0)
      then (Z.land (rangeMask lo hi) lanes, p)
      else firstMatch rest lanes
  end.

Fixpoint consecutive (lo : Z) (ranges : list (Z * Z * Z)) : bool :=
  match ranges with
  | [] => true
  | (l, h, _) :: rest => (l =? lo) && (l <? h) && consecutive h rest
  end.

(** The range a lane index falls in. *)
Fixpoint classOf (ranges : list (Z * Z * Z)) (i : Z) : option (Z * Z * Z) :=
  match ranges with
  | [] => None
  | (l, h, p) :: rest => if i <? h then Some (l, h, p) else classOf rest i
  end.

Lemma testbit_rangeMask lo hi j :
  0 <= lo -> lo <= hi ->
  Z.testbit (rangeMask lo hi) j = (lo <=? j) && (j <? hi).
Proof.
  intros Hlo Hhi. unfold rangeMask.
  destruct (Z_lt_dec j 0) as [Hneg|Hnn].
  - rewrite Z.testbit_neg_r by assumption.
    destruct (Z.leb_spec lo j); [lia|reflexivity].
  - rewrite Z.shiftl_spec by lia.
    destruct (Z.leb_spec lo j) as [Hle|Hlt].
    + rewrite Z.testbit_ones_nonneg by lia. simpl.
      destruct (Z.ltb_spec (j - lo) (hi - lo)); destruct (Z.ltb_spec j hi);
        try lia; reflexivity.
    + simpl. apply Z.testbit_neg_r. lia.
Qed.

Lemma land_pow2_single k x :
  0 <= k -> Z.land (2 ^ k) x <> 0 -> Z.land (2 ^ k) x = 2 ^ k.
Proof.
  intros Hk Hne. apply Z.bits_inj'. intros n Hn. rewrite Z.land_spec.
  destruct (Z.eq_dec k n) as [<-|Hkn].
  - rewrite Z.pow2_bits_true by assumption. simpl.
    destruct (Z.testbit x k) eqn:E; [reflexivity|].
    exfalso. apply Hne. apply Z.bits_inj'. intros m Hm.
    rewrite Z.land_spec, Z.bits_0.
    destruct (Z.eq_dec k m) as [<-|Hkm].
    + rewrite E. apply andb_false_r.
    + rewrite Z.pow2_bits_false by assumption. reflexivity.
  - rewrite Z.pow2_bits_false by assumption. reflexivity.
Qed.

Lemma land_single_lane c x :
  c = 2 ^ Z.log2 c -> Z.land c x <> 0 -> Z.land c x = c.
Proof.
  intros Hc. rewrite Hc. apply land_pow2_single. apply Z.log2_nonneg.
Qed.

Lemma band_mask_l c x : is_lanes c -> is_lanes x -> band c x = Z.land c x.
Proof. apply band_lanes. Qed.

Lemma band_mask_r c x : is_lanes c -> is_lanes x -> band x c = Z.land c x.
Proof. intros. rewrite band_lanes by assumption. apply Z.land_comm. Qed.

Lemma getHighestPriorityLanes_firstMatch lanes :
  is_lanes lanes -> getHighestPriorityLanes lanes = firstMatch laneRanges lanes.
Proof.
  intros Hl. unfold getHighestPriorityLanes.
  repeat match goal with
  | |- context [band lanes ?c] =>
      rewrite (band_mask_r c lanes) by first [assumption | closed_range]
  | |- context [band ?c lanes] =>
      rewrite (band_mask_l c lanes) by first [assumption | closed_range]
  end.
  unfold laneRanges, firstMatch.
  change (rangeMask 0 1) with SyncLane.
  change (rangeMask 1 2) with SyncBatchedLane.
  change (rangeMask 2 3) with InputDiscreteHydrationLane.
  change (rangeMask 3 5) with InputDiscreteLanes.
  change (rangeMask 5 6) with InputContinuousHydrationLane.
  change (rangeMask 6 8) with InputContinuousLanes.
  change (rangeMask 8 9) with DefaultHydrationLane.
  change (rangeMask 9 12) with DefaultLanes.
  change (rangeMask 12 13) with TransitionHydrationLane.
  change (rangeMask 13 22) with TransitionLanes.
  change (rangeMask 22 26) with RetryLanes.
  change (rangeMask 26 27) with SelectiveHydrationLane.
  change (rangeMask 27 28) with IdleHydrationLane.
  change (rangeMask 28 30) with IdleLanes.
  change (rangeMask 30 31) with OffscreenLane.
  unfold NoLanes. cbv zeta.
  repeat match goal with
  | |- (if negb (Z.land ?c lanes =? 0) then _ else _) = _ =>
      destruct (Z.eqb_spec (Z.land c lanes) 0) as [?|Hne]; cbn [negb];
      [|first [ reflexivity
              | f_equal; symmetry; apply land_single_lane;
                [vm_compute; reflexivity | exact Hne] ]]
  end.
  reflexivity.
Qed.

Lemma land_rangeMask_zero lo hi lanes i :
  0 <= lo -> lo <= hi -> hi <= i ->
  (forall j, j < i -> Z.testbit lanes j = false) ->
  Z.land (rangeMask lo hi) lanes = 0.
Proof.
  intros Hlo Hhi Hi Hlow. apply Z.bits_inj'. intros n Hn.
  rewrite Z.land_spec, Z.bits_0, testbit_rangeMask by assumption.
  destruct (Z.ltb_spec n hi) as [Hlt|Hge].
  - rewrite Hlow by lia. apply andb_false_r.
  - rewrite andb_false_r. reflexivity.
Qed.

Lemma land_rangeMask_nonzero lo hi lanes i :
  0 <= lo -> lo <= i < hi -> Z.testbit lanes i = true ->
  Z.land (rangeMask lo hi) lanes <> 0.
Proof.
  intros Hlo Hi Hset Heq.
  assert (Z.testbit (Z.land (rangeMask lo hi) lanes) i = true) as Hbit.
  { rewrite Z.land_spec, testbit_rangeMask, Hset by lia.
    destruct (Z.leb_spec lo i); [|lia]. destruct (Z.ltb_spec i hi); [|lia].
    reflexivity. }
  rewrite Heq, Z.bits_0 in Hbit. discriminate.
Qed.

(** With the groups laid out one after the other, the first group that
    meets the mask is the group of the mask's lowest lane. *)
Lemma firstMatch_classOf (ranges : list (Z * Z * Z)) :
  forall lo lanes i l h p,
    consecutive lo ranges = true -> 0 <= lo -> lo <= i ->
    Z.testbit lanes i = true ->
    (forall j, j < i -> Z.testbit lanes j = false) ->
    classOf ranges i = Some (l, h, p) ->
    firstMatch ranges lanes = (Z.land (rangeMask l h) lanes, p)
    /\ 0 <= l /\ l <= i < h.
Proof.
  induction ranges as [|[[l0 h0] p0] rest IH];
    intros lo lanes i l h p Hcons Hlo Hi Hset Hlow Hclass.
  - discriminate.
  - cbn [consecutive] in Hcons.
    apply andb_prop in Hcons as [Hc Hrest]. apply andb_prop in Hc as [Hl0 Hh0].
    apply Z.eqb_eq in Hl0. apply Z.ltb_lt in Hh0. subst l0.
    cbn [classOf] in Hclass. cbn [firstMatch].
    destruct (Z.ltb_spec i h0) as [Hlt|Hge].
    + injection Hclass as <- <- <-.
      destruct (Z.eqb_spec (Z.land (rangeMask lo h0) lanes) 0) as [E|_].
      * exfalso. revert E. apply (land_rangeMask_nonzero lo h0 lanes i); auto.
      * cbn [negb]. split; [reflexivity|lia].
    + rewrite (land_rangeMask_zero lo h0 lanes i) by (auto; lia).
      cbn [Z.eqb negb].
      apply (IH h0); auto; lia.
Qed.

Lemma classOf_laneRanges i :
  0 <= i <= 30 -> exists l h p, classOf laneRanges i = Some (l, h, p).
Proof.
  intros Hi. unfold laneRanges. cbn [classOf].
  repeat match goal with
  | |- context [i <? ?h] => destruct (Z.ltb_spec i h); [eauto|]
  end.
  lia.
Qed.

Lemma classOf_priority (ranges : list (Z * Z * Z)) i l h p :
  classOf ranges i = Some (l, h, p) -> In (l, h, p) ranges.
Proof.
  induction ranges as [|[[l0 h0] p0] rest IH]; [discriminate|].
  cbn [classOf]. destruct (i <? h0).
  - intros [= <- <- <-]. left. reflexivity.
  - intros Hc. right. auto.
Qed.

(** The lowest lane of a non-empty mask, as a position. *)
Lemma lowest_lane_position (x : Z) :
  is_lanes x -> x <> 0 ->
  exists i, 0 <= i <= 30
            /\ getHighestPriorityLane x = 2 ^ i
            /\ Z.testbit x i = true
            /\ forall j, j < i -> Z.testbit x j = false.
Proof. intros Hx Hne. apply lowest_lane; [assumption|]. destruct Hx. lia. Qed.

(** What [getHighestPriorityLanes] gives for a non-empty mask, in terms of
    the group of its lowest lane. *)
Lemma getHighestPriorityLanes_group lanes i :
  is_lanes lanes -> 0 <= i <= 30 ->
  Z.testbit lanes i = true ->
  (forall j, j < i -> Z.testbit lanes j = false) ->
  exists l h p,
    classOf laneRanges i = Some (l, h, p)
    /\ getHighestPriorityLanes lanes = (Z.land (rangeMask l h) lanes, p)
    /\ 0 <= l /\ l <= i < h.
Proof.
  intros Hl Hi Hset Hlow.
  destruct (classOf_laneRanges i Hi) as (l & h & p & Hclass).
  exists l, h, p. split; [assumption|].
  rewrite getHighestPriorityLanes_firstMatch by assumption.
  apply (firstMatch_classOf laneRanges 0); auto; try lia.
Qed.

Lemma laneRanges_priority l h p :
  In (l, h, p) laneRanges -> OffscreenLanePriority <= p <= SyncLanePriority.
Proof.
  unfold laneRanges. cbn [In]. unfold_priorities.
  intros Hin.
  repeat (destruct Hin as [Hin|Hin]; [injection Hin as <- <- <-; lia|]).
  contradiction.
Qed.

Lemma is_lanes_land_r a b : is_lanes b -> is_lanes (Z.land a b).
Proof. intros. rewrite Z.land_comm. apply is_lanes_bits.
  - apply Z.land_nonneg. left. apply H.
  - intros i Hi. rewrite Z.land_spec, (bits_above_lanes b) by assumption.
    reflexivity.
Qed.

Lemma classOf_bounds (ranges : list (Z * Z * Z)) :
  forall lo i l h p,
    consecutive lo ranges = true -> classOf ranges i = Some (l, h, p) ->
    lo <= l /\ l < h.
Proof.
  induction ranges as [|[[l0 h0] p0] rest IH]; intros lo i l h p Hcons Hclass;
    [discriminate|].
  cbn [consecutive] in Hcons.
  apply andb_prop in Hcons as [Hc Hrest]. apply andb_prop in Hc as [Hl0 Hh0].
  apply Z.eqb_eq in Hl0. apply Z.ltb_lt in Hh0. subst l0.
  cbn [classOf] in Hclass. destruct (i <? h0).
  - injection Hclass as <- <- <-. lia.
  - destruct (IH h0 i l h p Hrest Hclass). lia.
Qed.

(** Two positions of one group have the same group. *)
Lemma classOf_same_group (ranges : list (Z * Z * Z)) :
  forall lo i j l h p,
    consecutive lo ranges = true -> classOf ranges i = Some (l, h, p) ->
    l <= j < h -> classOf ranges j = Some (l, h, p).
Proof.
  induction ranges as [|[[l0 h0] p0] rest IH];
    intros lo i j l h p Hcons Hclass Hj; [discriminate|].
  pose proof Hcons as Hcons'. cbn [consecutive] in Hcons.
  apply andb_prop in Hcons as [Hc Hrest]. apply andb_prop in Hc as [Hl0 Hh0].
  apply Z.eqb_eq in Hl0. apply Z.ltb_lt in Hh0. subst l0.
  cbn [classOf] in *. destruct (Z.ltb_spec i h0) as [Hi|Hi].
  - injection Hclass as <- <- <-.
    destruct (Z.ltb_spec j h0); [reflexivity|lia].
  - destruct (classOf_bounds rest h0 i l h p Hrest Hclass).
    destruct (Z.ltb_spec j h0); [lia|].
    apply (IH h0 i); assumption.
Qed.

Lemma testbit_pow2 i j : 0 <= i -> Z.testbit (2 ^ i) j = (i =? j).
Proof.
  intros Hi. destruct (Z.eqb_spec i j) as [<-|Hne].
  - apply Z.pow2_bits_true. assumption.
  - apply Z.pow2_bits_false. assumption.
Qed.

(** The priority of a single lane is the priority of its group. *)
Lemma getHighestPriorityLanes_pow2 i l h p :
  0 <= i <= 30 -> classOf laneRanges i = Some (l, h, p) ->
  getHighestPriorityLanes (2 ^ i) = (2 ^ i, p).
Proof.
  intros Hi Hclass.
  destruct (getHighestPriorityLanes_group (2 ^ i) i) as (l' & h' & p' & Hc & Hg & Hl & Hr).
  - apply is_lanes_pow2. assumption.
  - assumption.
  - apply Z.pow2_bits_true. lia.
  - intros j Hj. apply Z.pow2_bits_false. lia.
  - rewrite Hclass in Hc. injection Hc as <- <- <-. rewrite Hg. f_equal.
    apply Z.bits_inj'. intros n Hn.
    rewrite Z.land_spec, testbit_rangeMask, testbit_pow2 by lia.
    destruct (Z.eqb_spec i n) as [<-|Hne]; [|apply andb_false_r].
    destruct (Z.leb_spec l i); [|lia]. destruct (Z.ltb_spec i h); [|lia].
    reflexivity.
Qed.

(** *** The highest-priority and the lowest-priority lane *)

(** X1: [lanes & -lanes] is the highest-priority lane of a mask.  For a
    non-empty mask of lanes, [getHighestPriorityLane] (and so
    [pickArbitraryLane]) returns a single lane [2^i] that belongs to the
    mask and below which the mask has no lane. *)
Theorem getHighestPriorityLane_is_lowest_set_bit (lanes : Z) :
  is_lanes lanes -> lanes <> NoLanes ->
  exists i, 0 <= i <= 30
            /\ pickArbitraryLane lanes = 2 ^ i
            /\ getHighestPriorityLane lanes = 2 ^ i
            /\ Z.testbit lanes i = true
            /\ forall j, j < i -> Z.testbit lanes j = false.
Proof.
  intros Hl Hne.
  destruct (lowest_lane_position lanes Hl Hne) as (i & Hi & Hv & Hset & Hlow).
  exists i. unfold pickArbitraryLane. auto.
Qed.

Lemma getHighestPriorityLane_is_lowest_set_bit_witness :
  is_lanes DefaultLanes /\ DefaultLanes <> NoLanes
  /\ exists i, 0 <= i <= 30
            /\ pickArbitraryLane DefaultLanes = 2 ^ i
            /\ getHighestPriorityLane DefaultLanes = 2 ^ i
            /\ Z.testbit DefaultLanes i = true
            /\ forall j, j < i -> Z.testbit DefaultLanes j = false.
Proof.
  assert (is_lanes DefaultLanes) as Hl by closed_range.
  assert (DefaultLanes <> NoLanes) as Hne by (vm_compute; congruence).
  split; [exact Hl|]. split; [exact Hne|].
  exact (getHighestPriorityLane_is_lowest_set_bit DefaultLanes Hl Hne).
Defined.

(** X2: [getLowestPriorityLane] returns the lowest-priority lane of a
    mask: [NoLanes] for the empty mask, and otherwise the single lane
    [2^i] of the mask above which the mask has no lane. *)
Theorem getLowestPriorityLane_is_highest_set_bit (lanes : Z) :
  is_lanes lanes ->
  (lanes = NoLanes -> getLowestPriorityLane lanes = NoLanes)
  /\ (lanes <> NoLanes ->
      exists i, 0 <= i <= 30
                /\ getLowestPriorityLane lanes = 2 ^ i
                /\ Z.testbit lanes i = true
                /\ forall j, i < j -> Z.testbit lanes j = false).
Proof.
  intros Hl. split.
  - intros ->. reflexivity.
  - intros Hne. assert (0 < lanes) as Hpos by (destruct Hl; unfold NoLanes in Hne; lia).
    pose proof (log2_lanes lanes Hl Hpos) as Hlog.
    exists (Z.log2 lanes). split; [assumption|]. split; [|split].
    + unfold getLowestPriorityLane. rewrite clz32_lanes by assumption.
      replace (31 - (31 - Z.log2 lanes)) with (Z.log2 lanes) by lia.
      destruct (Z.ltb_spec (Z.log2 lanes) 0); [lia|].
      apply shl_1. assumption.
    + apply Z.bit_log2. assumption.
    + intros j Hj. apply Z.bits_above_log2; lia.
Qed.

Lemma getLowestPriorityLane_is_highest_set_bit_witness :
  is_lanes DefaultLanes
  /\ (DefaultLanes = NoLanes -> getLowestPriorityLane DefaultLanes = NoLanes)
  /\ (DefaultLanes <> NoLanes ->
      exists i, 0 <= i <= 30
                /\ getLowestPriorityLane DefaultLanes = 2 ^ i
                /\ Z.testbit DefaultLanes i = true
                /\ forall j, i < j -> Z.testbit DefaultLanes j = false).
Proof.
  assert (is_lanes DefaultLanes) as Hl by closed_range.
  split; [exact Hl|].
  exact (getLowestPriorityLane_is_highest_set_bit DefaultLanes Hl).
Defined.

(** X3: [getEqualOrHigherPriorityLanes] of a non-empty mask is the mask
    of all the lanes up to its lowest-priority lane.  When that lane is
    the last one ([OffscreenLane]) the shift overflows and the value is
    [-2^31 - 1], outside the 32-bit range; intersecting it with a mask of
    lanes still keeps every lane of that mask. *)
Theorem getEqualOrHigherPriorityLanes_mask (lanes : Z) :
  is_lanes lanes -> lanes <> NoLanes ->
  getEqualOrHigherPriorityLanes lanes
  = (if Z.log2 lanes <? 30 then Z.ones (Z.log2 lanes + 1) else - 2 ^ 31 - 1)
  /\ forall pending, is_lanes pending ->
       band pending (getEqualOrHigherPriorityLanes lanes)
       = Z.land pending (Z.ones (Z.log2 lanes + 1)).
Proof.
  intros Hl Hne.
  assert (0 < lanes) as Hpos by (destruct Hl; unfold NoLanes in Hne; lia).
  pose proof (log2_lanes lanes Hl Hpos) as Hlog. split.
  - unfold getEqualOrHigherPriorityLanes, getLowestPriorityLane.
    rewrite clz32_lanes by assumption.
    replace (31 - (31 - Z.log2 lanes)) with (Z.log2 lanes) by lia.
    destruct (Z.ltb_spec (Z.log2 lanes) 0); [lia|].
    rewrite shl_1 by assumption.
    destruct (Z.ltb_spec (Z.log2 lanes) 30) as [Hlt|Hge].
    + unfold shl, toUint32.
      rewrite (toInt32_lanes (2 ^ Z.log2 lanes))
        by (apply is_lanes_pow2; assumption).
      change (1 mod 2 ^ 32 mod 32) with 1.
      rewrite Z.shiftl_mul_pow2 by lia.
      replace (2 ^ Z.log2 lanes * 2 ^ 1) with (2 ^ (Z.log2 lanes + 1))
        by (rewrite Z.pow_add_r by lia; reflexivity).
      rewrite toInt32_lanes by (apply is_lanes_pow2; lia).
      rewrite Z.ones_equiv. lia.
    + replace (Z.log2 lanes) with 30 by lia. reflexivity.
  - intros pending Hp. apply band_getEqualOrHigherPriorityLanes; assumption.
Qed.

Lemma getEqualOrHigherPriorityLanes_mask_witness :
  is_lanes OffscreenLane /\ OffscreenLane <> NoLanes
  /\ getEqualOrHigherPriorityLanes OffscreenLane = - 2 ^ 31 - 1
  /\ band IdleLanes (getEqualOrHigherPriorityLanes OffscreenLane) = IdleLanes.
Proof.
  assert (is_lanes OffscreenLane) as Hl by closed_range.
  assert (OffscreenLane <> NoLanes) as Hne by (vm_compute; congruence).
  split; [exact Hl|]. split; [exact Hne|].
  destruct (getEqualOrHigherPriorityLanes_mask OffscreenLane Hl Hne) as [Hv Hb].
  split; [exact Hv|].
  rewrite Hb by closed_range. reflexivity.
Defined.

(** *** The lanes and the priority [getHighestPriorityLanes] returns *)

(** The group of lanes each lane priority stands for: the masks that
    [getHighestPriorityLanes] tests, by the priority it returns with
    them. *)
Definition lanesOfPriority (priority : Z) : Z :=
  if priority =? SyncLanePriority then SyncLane
  else if priority =? SyncBatchedLanePriority then SyncBatchedLane
  else if priority =? InputDiscreteHydrationLanePriority
  then InputDiscreteHydrationLane
  else if priority =? InputDiscreteLanePriority then InputDiscreteLanes
  else if priority =? InputContinuousHydrationLanePriority
  then InputContinuousHydrationLane
  else if priority =? InputContinuousLanePriority then InputContinuousLanes
  else if priority =? DefaultHydrationLanePriority then DefaultHydrationLane
  else if priority =? DefaultLanePriority then DefaultLanes
  else if priority =? TransitionHydrationPriority then TransitionHydrationLane
  else if priority =? TransitionPriority then TransitionLanes
  else if priority =? RetryLanePriority then RetryLanes
  else if priority =? SelectiveHydrationLanePriority
  then SelectiveHydrationLane
  else if priority =? IdleHydrationLanePriority then IdleHydrationLane
  else if priority =? IdleLanePriority then IdleLanes
  else if priority =? OffscreenLanePriority then OffscreenLane
  else NoLanes.

Lemma laneRanges_lanesOfPriority l h p :
  In (l, h, p) laneRanges -> lanesOfPriority p = rangeMask l h.
Proof.
  unfold laneRanges. cbn [In]. intros Hin.
  repeat (destruct Hin as [Hin|Hin];
          [injection Hin as <- <- <-; vm_compute; reflexivity|]).
  contradiction.
Qed.

Lemma is_lanes_lanesOfPriority p : is_lanes (lanesOfPriority p).
Proof.
  unfold lanesOfPriority. repeat case_match; closed_range.
Qed.

(** The groups are listed from the highest priority down, and from the
    lowest lane up. *)
Lemma laneRanges_order l h p l' h' p' :
  In (l, h, p) laneRanges -> In (l', h', p') laneRanges -> p < p' ->
  0 <= l' /\ l' <= h' /\ h' <= l.
Proof.
  unfold laneRanges. cbn [In]. unfold_priorities. intros H1 H2 Hlt.
  repeat (destruct H1 as [H1|H1]; [injection H1 as <- <- <-|]);
    try contradiction;
    repeat (destruct H2 as [H2|H2]; [injection H2 as <- <- <-; lia|]);
    contradiction.
Qed.

Lemma laneRanges_of_priority p :
  OffscreenLanePriority <= p <= SyncLanePriority ->
  exists l h, In (l, h, p) laneRanges.
Proof.
  unfold_priorities. intros Hp.
  assert (p = 1 \/ p = 2 \/ p = 3 \/ p = 4 \/ p = 5 \/ p = 6 \/ p = 7
          \/ p = 8 \/ p = 9 \/ p = 10 \/ p = 11 \/ p = 12 \/ p = 13
          \/ p = 14 \/ p = 15) as Hcases by lia.
  unfold laneRanges. unfold_priorities. cbn [In].
  repeat (destruct Hcases as [->|Hcases]; [eexists _, _; tauto|]).
  subst p. eexists _, _; tauto.
Qed.

Lemma lanesOfPriority_outside p :
  ~ OffscreenLanePriority <= p <= SyncLanePriority ->
  lanesOfPriority p = NoLanes.
Proof.
  unfold lanesOfPriority. unfold_priorities. intros Hp.
  repeat match goal with
         | |- context [?a =? ?b] => destruct (Z.eqb_spec a b); [lia|]
         end.
  reflexivity.
Qed.

(** X4: for a non-empty mask of lanes, [getHighestPriorityLanes] returns
    the lanes of the mask that lie in the group of the mask's
    highest-priority lane, with that group's priority: the priority is one
    of the fifteen lane priorities, the lanes returned are exactly the
    lanes of the mask in the group of that priority, they contain the
    mask's highest-priority lane, and the mask has no lane in a group of a
    higher priority.  So the result is the one of a group test, never that
    of the final branch alone: with [DefaultLanePriority] come lanes of
    [DefaultLanes] only. *)
Theorem getHighestPriorityLanes_nonempty_part (lanes : Z) :
  is_lanes lanes -> lanes <> NoLanes ->
  let '(group, priority) := getHighestPriorityLanes lanes in
  group <> NoLanes
  /\ is_lanes group
  /\ isSubsetOfLanes lanes group = true
  /\ isSubsetOfLanes group (getHighestPriorityLane lanes) = true
  /\ OffscreenLanePriority <= priority <= SyncLanePriority
  /\ group = band (lanesOfPriority priority) lanes
  /\ (forall higher : Z,
        priority < higher -> band (lanesOfPriority higher) lanes = NoLanes)
  /\ (priority = DefaultLanePriority ->
      isSubsetOfLanes DefaultLanes group = true).
Proof.
  intros Hl Hne.
  destruct (lowest_lane_position lanes Hl Hne) as (i & Hi & Hv & Hset & Hlow).
  destruct (getHighestPriorityLanes_group lanes i Hl Hi Hset Hlow)
    as (l & h & p & Hclass & Hg & Hl0 & Hr).
  rewrite Hg, Hv.
  pose proof (classOf_priority _ _ _ _ _ Hclass) as Hin.
  pose proof (laneRanges_lanesOfPriority l h p Hin) as Hmask.
  assert (is_lanes (Z.land (rangeMask l h) lanes)) as Hgl
    by (apply is_lanes_land_r; assumption).
  assert (Z.testbit (Z.land (rangeMask l h) lanes) i = true) as Hgi.
  { rewrite Z.land_spec, testbit_rangeMask, Hset by lia.
    destruct (Z.leb_spec l i); [|lia]. destruct (Z.ltb_spec i h); [|lia].
    reflexivity. }
  assert (Hgroup : Z.land (rangeMask l h) lanes
                   = band (lanesOfPriority p) lanes).
  { rewrite band_lanes by (apply is_lanes_lanesOfPriority || assumption).
    rewrite Hmask. reflexivity. }
  split_and!.
  - intros E. rewrite E, Z.bits_0 in Hgi. discriminate.
  - assumption.
  - apply isSubsetOfLanes_bits; [assumption..|].
    intros n Hn. rewrite Z.land_spec in Hn. apply andb_prop in Hn. apply Hn.
  - apply isSubsetOfLanes_bits; [assumption|apply is_lanes_pow2; assumption|].
    intros n Hn. rewrite testbit_pow2 in Hn by lia.
    apply Z.eqb_eq in Hn. subst n. assumption.
  - apply (laneRanges_priority l h). assumption.
  - apply (laneRanges_priority l h). assumption.
  - exact Hgroup.
  - intros higher Hhigher.
    rewrite band_lanes by (apply is_lanes_lanesOfPriority || assumption).
    destruct (Z_le_dec OffscreenLanePriority higher) as [Hlo|Hlo];
      [destruct (Z_le_dec higher SyncLanePriority) as [Hhi|Hhi]|].
    + destruct (laneRanges_of_priority higher (conj Hlo Hhi))
        as (l' & h' & Hin').
      rewrite (laneRanges_lanesOfPriority l' h' higher Hin').
      destruct (laneRanges_order l h p l' h' higher Hin Hin' Hhigher)
        as (Hl' & Hh' & Hbelow).
      apply (land_rangeMask_zero l' h' lanes i); try assumption. lia.
    + rewrite lanesOfPriority_outside by lia. reflexivity.
    + rewrite lanesOfPriority_outside by lia. reflexivity.
  - intros ->. rewrite Hgroup.
    rewrite band_lanes by (apply is_lanes_lanesOfPriority || assumption).
    apply isSubsetOfLanes_bits;
      [closed_range|apply is_lanes_land_r; assumption|].
    intros n Hn. rewrite Z.land_spec in Hn. apply andb_prop in Hn. apply Hn.
Qed.

Lemma getHighestPriorityLanes_nonempty_part_witness :
  is_lanes (bor DefaultLanes IdleLanes) /\ bor DefaultLanes IdleLanes <> NoLanes
  /\ getHighestPriorityLanes (bor DefaultLanes IdleLanes)
     = (DefaultLanes, DefaultLanePriority)
  /\ isSubsetOfLanes (bor DefaultLanes IdleLanes) DefaultLanes = true
  /\ DefaultLanes
     = band (lanesOfPriority DefaultLanePriority) (bor DefaultLanes IdleLanes)
  /\ band (lanesOfPriority SyncLanePriority) (bor DefaultLanes IdleLanes)
     = NoLanes.
Proof.
  assert (is_lanes (bor DefaultLanes IdleLanes)) as Hl by closed_range.
  assert (bor DefaultLanes IdleLanes <> NoLanes) as Hne by (vm_compute; congruence).
  split; [exact Hl|]. split; [exact Hne|].
  pose proof (getHighestPriorityLanes_nonempty_part _ Hl Hne) as Hp.
  destruct (getHighestPriorityLanes (bor DefaultLanes IdleLanes))
    as [group priority] eqn:E.
  destruct Hp as (_ & _ & Hsub & _ & _ & Hgroup & Hhigher & _).
  vm_compute in E. injection E as <- <-. split; [reflexivity|].
  split; [exact Hsub|]. split; [exact Hgroup|].
  apply Hhigher. reflexivity.
Defined.

(** X5: all the lanes that [getHighestPriorityLanes] returns have the
    priority it leaves in the register: each of them, taken alone, is
    classified with that same priority. *)
Theorem getHighestPriorityLanes_one_priority (lanes j : Z) :
  is_lanes lanes ->
  Z.testbit (fst (getHighestPriorityLanes lanes)) j = true ->
  getHighestPriorityLanes (2 ^ j)
  = (2 ^ j, snd (getHighestPriorityLanes lanes)).
Proof.
  intros Hl Hj.
  destruct (Z.eq_dec lanes 0) as [->|Hne].
  { vm_compute in Hj. destruct j; discriminate. }
  destruct (lowest_lane_position lanes Hl Hne) as (i & Hi & Hv & Hset & Hlow).
  destruct (getHighestPriorityLanes_group lanes i Hl Hi Hset Hlow)
    as (l & h & p & Hclass & Hg & Hl0 & Hr).
  rewrite Hg in *. cbn [fst snd] in *.
  rewrite Z.land_spec in Hj. apply andb_prop in Hj as [Hm Hb].
  rewrite testbit_rangeMask in Hm by lia.
  apply andb_prop in Hm as [Hlo Hhi].
  apply Z.leb_le in Hlo. apply Z.ltb_lt in Hhi.
  assert (0 <= j <= 30) as Hj30.
  { split; [lia|]. destruct (Z_le_dec j 30); [assumption|].
    rewrite bits_above_lanes in Hb by (assumption || lia). discriminate. }
  apply (getHighestPriorityLanes_pow2 j l h p Hj30).
  apply (classOf_same_group laneRanges 0 i); [reflexivity|assumption|lia].
Qed.

Lemma getHighestPriorityLanes_one_priority_witness :
  is_lanes TransitionLanes
  /\ Z.testbit (fst (getHighestPriorityLanes TransitionLanes)) 20 = true
  /\ getHighestPriorityLanes (2 ^ 20) = (2 ^ 20, TransitionPriority).
Proof.
  assert (is_lanes TransitionLanes) as Hl by closed_range.
  assert (Z.testbit (fst (getHighestPriorityLanes TransitionLanes)) 20 = true)
    as Hb by reflexivity.
  split; [exact Hl|]. split; [exact Hb|].
  exact (getHighestPriorityLanes_one_priority TransitionLanes 20 Hl Hb).
Defined.

(** *** Choosing a lane for an update *)

(** Picking a lane of the group [group] outside [taken]: there is none
    exactly when the whole group is taken, and otherwise the lane picked
    is a single lane of the group that is not taken. *)
Lemma pickArbitraryLane_free (group taken : Z) :
  is_lanes group -> is_lanes taken ->
  let lane := pickArbitraryLane (band group (bnot taken)) in
  (lane =? NoLane) = isSubsetOfLanes taken group
  /\ (lane <> NoLane ->
      exists i, 0 <= i <= 30 /\ lane = 2 ^ i
                /\ Z.testbit group i = true /\ Z.testbit taken i = false).
Proof.
  intros Hg Ht. cbv zeta. rewrite band_bnot_lanes by assumption.
  assert (is_lanes (Z.ldiff group taken)) as Hd by (apply is_lanes_ldiff; assumption).
  assert (Z.ldiff group taken = 0 <-> Z.land taken group = group) as Hiff.
  { split; intros E.
    - apply Z.bits_inj'. intros n _. rewrite Z.land_spec.
      assert (Z.testbit (Z.ldiff group taken) n = false) as Hn
        by (rewrite E; apply Z.bits_0).
      rewrite Z.ldiff_spec in Hn.
      destruct (Z.testbit group n), (Z.testbit taken n); try reflexivity; discriminate.
    - apply Z.bits_inj'. intros n _. rewrite Z.ldiff_spec, Z.bits_0.
      rewrite <- E at 1. rewrite Z.land_spec.
      destruct (Z.testbit group n), (Z.testbit taken n); reflexivity. }
  unfold isSubsetOfLanes. rewrite band_lanes by assumption.
  destruct (Z.eq_dec (Z.ldiff group taken) 0) as [E|Hne].
  - rewrite E. split.
    + change (pickArbitraryLane 0 =? NoLane) with true. symmetry.
      apply Z.eqb_eq. apply Hiff. assumption.
    + intros Hc. exfalso. apply Hc. reflexivity.
  - destruct (lowest_lane_position _ Hd Hne) as (i & Hi & Hv & Hset & Hlow).
    unfold pickArbitraryLane. rewrite Hv.
    assert (0 < 2 ^ i) by (apply Z.pow_pos_nonneg; lia).
    split.
    + destruct (Z.eqb_spec (2 ^ i) NoLane) as [E|_]; [unfold NoLane in E; lia|].
      symmetry. apply Z.eqb_neq. intros E. apply Hne. apply Hiff. assumption.
    + intros _. exists i. rewrite Z.ldiff_spec in Hset.
      apply andb_prop in Hset as [Hgi Hti]. apply negb_true_iff in Hti. auto.
Qed.

(** The same, for picking in the whole group. *)
Lemma pickArbitraryLane_group (group : Z) :
  is_lanes group -> group <> 0 ->
  exists i, 0 <= i <= 30 /\ pickArbitraryLane group = 2 ^ i
            /\ Z.testbit group i = true.
Proof.
  intros Hg Hne.
  destruct (lowest_lane_position _ Hg Hne) as (i & Hi & Hv & Hset & _).
  exists i. auto.
Qed.

Lemma findUpdateLaneWithin_S depth lanePriority wipLanes :
  findUpdateLaneWithin (S depth) lanePriority wipLanes =
      if lanePriority =? NoLanePriority then Some None
      else if lanePriority =? SyncLanePriority then Some (Some SyncLane)
      else if lanePriority =? SyncBatchedLanePriority
      then Some (Some SyncBatchedLane)
      else if lanePriority =? InputDiscreteLanePriority then
        let lane := pickArbitraryLane (band InputDiscreteLanes (bnot wipLanes)) in
        if lane =? NoLane
        then findUpdateLaneWithin depth InputContinuousLanePriority wipLanes
        else Some (Some lane)
      else if lanePriority =? InputContinuousLanePriority then
        let lane :=
          pickArbitraryLane (band InputContinuousLanes (bnot wipLanes)) in
        if lane =? NoLane
        then findUpdateLaneWithin depth DefaultLanePriority wipLanes
        else Some (Some lane)
      else if lanePriority =? DefaultLanePriority then
        let lane := pickArbitraryLane (band DefaultLanes (bnot wipLanes)) in
        if lane =? NoLane then
          let lane := pickArbitraryLane (band TransitionLanes (bnot wipLanes)) in
          if lane =? NoLane then Some (Some (pickArbitraryLane DefaultLanes))
          else Some (Some lane)
        else Some (Some lane)
      else if (lanePriority =? TransitionPriority)
              || (lanePriority =? RetryLanePriority)
      then Some None
      else if lanePriority =? IdleLanePriority then
        let lane := pickArbitraryLane (band IdleLanes (bnot wipLanes)) in
        if lane =? NoLane then Some (Some (pickArbitraryLane IdleLanes))
        else Some (Some lane)
      else Some None.
Proof. reflexivity. Qed.

(** The lane chosen at [DefaultLanePriority]. *)
Definition defaultUpdateLane (wipLanes : Z) : Z :=
  let lane := pickArbitraryLane (band DefaultLanes (bnot wipLanes)) in
  if lane =? NoLane then
    let lane := pickArbitraryLane (band TransitionLanes (bnot wipLanes)) in
    if lane =? NoLane then pickArbitraryLane DefaultLanes else lane
  else lane.

Definition continuousUpdateLane (wipLanes : Z) : Z :=
  let lane := pickArbitraryLane (band InputContinuousLanes (bnot wipLanes)) in
  if lane =? NoLane then defaultUpdateLane wipLanes else lane.

Definition discreteUpdateLane (wipLanes : Z) : Z :=
  let lane := pickArbitraryLane (band InputDiscreteLanes (bnot wipLanes)) in
  if lane =? NoLane then continuousUpdateLane wipLanes else lane.

Definition idleUpdateLane (wipLanes : Z) : Z :=
  let lane := pickArbitraryLane (band IdleLanes (bnot wipLanes)) in
  if lane =? NoLane then pickArbitraryLane IdleLanes else lane.

Lemma findUpdateLaneWithin_default depth wipLanes :
  findUpdateLaneWithin (S depth) DefaultLanePriority wipLanes
  = Some (Some (defaultUpdateLane wipLanes)).
Proof.
  rewrite findUpdateLaneWithin_S. unfold defaultUpdateLane.
  change (DefaultLanePriority =? NoLanePriority) with false.
  change (DefaultLanePriority =? SyncLanePriority) with false.
  change (DefaultLanePriority =? SyncBatchedLanePriority) with false.
  change (DefaultLanePriority =? InputDiscreteLanePriority) with false.
  change (DefaultLanePriority =? InputContinuousLanePriority) with false.
  change (DefaultLanePriority =? DefaultLanePriority) with true.
  cbv iota zeta.
  repeat match goal with |- context [if ?c then _ else _] => destruct c end;
    reflexivity.
Qed.

Lemma findUpdateLaneWithin_continuous depth wipLanes :
  findUpdateLaneWithin (S (S depth)) InputContinuousLanePriority wipLanes
  = Some (Some (continuousUpdateLane wipLanes)).
Proof.
  rewrite findUpdateLaneWithin_S. unfold continuousUpdateLane.
  change (InputContinuousLanePriority =? NoLanePriority) with false.
  change (InputContinuousLanePriority =? SyncLanePriority) with false.
  change (InputContinuousLanePriority =? SyncBatchedLanePriority) with false.
  change (InputContinuousLanePriority =? InputDiscreteLanePriority) with false.
  change (InputContinuousLanePriority =? InputContinuousLanePriority) with true.
  cbv iota zeta. rewrite findUpdateLaneWithin_default.
  destruct (_ =? NoLane); reflexivity.
Qed.

Lemma findUpdateLaneWithin_discrete depth wipLanes :
  findUpdateLaneWithin (S (S (S depth))) InputDiscreteLanePriority wipLanes
  = Some (Some (discreteUpdateLane wipLanes)).
Proof.
  rewrite findUpdateLaneWithin_S. unfold discreteUpdateLane.
  change (InputDiscreteLanePriority =? NoLanePriority) with false.
  change (InputDiscreteLanePriority =? SyncLanePriority) with false.
  change (InputDiscreteLanePriority =? SyncBatchedLanePriority) with false.
  change (InputDiscreteLanePriority =? InputDiscreteLanePriority) with true.
  cbv iota zeta. rewrite findUpdateLaneWithin_continuous.
  destruct (_ =? NoLane); reflexivity.
Qed.

(** The priorities [findUpdateLane] accepts. *)
Definition isUpdateLanePriority (lanePriority : Z) : bool :=
  (lanePriority =? SyncLanePriority)
  || (lanePriority =? SyncBatchedLanePriority)
  || (lanePriority =? InputDiscreteLanePriority)
  || (lanePriority =? InputContinuousLanePriority)
  || (lanePriority =? DefaultLanePriority)
  || (lanePriority =? IdleLanePriority).

(** [findUpdateLane] by cases, with the calls to itself resolved. *)
Lemma findUpdateLaneWithin_cases depth lanePriority wipLanes :
  findUpdateLaneWithin (S (S (S depth))) lanePriority wipLanes
  = Some
      (if lanePriority =? SyncLanePriority then Some SyncLane
       else if lanePriority =? SyncBatchedLanePriority then Some SyncBatchedLane
       else if lanePriority =? InputDiscreteLanePriority
       then Some (discreteUpdateLane wipLanes)
       else if lanePriority =? InputContinuousLanePriority
       then Some (continuousUpdateLane wipLanes)
       else if lanePriority =? DefaultLanePriority
       then Some (defaultUpdateLane wipLanes)
       else if lanePriority =? IdleLanePriority
       then Some (idleUpdateLane wipLanes)
       else None).
Proof.
  destruct (Z.eqb_spec lanePriority InputDiscreteLanePriority) as [->|Hd].
  { rewrite findUpdateLaneWithin_discrete. reflexivity. }
  destruct (Z.eqb_spec lanePriority InputContinuousLanePriority) as [->|Hc].
  { rewrite findUpdateLaneWithin_continuous. reflexivity. }
  destruct (Z.eqb_spec lanePriority DefaultLanePriority) as [->|Hde].
  { rewrite findUpdateLaneWithin_default. reflexivity. }
  rewrite findUpdateLaneWithin_S. unfold idleUpdateLane.
  destruct (Z.eqb_spec lanePriority NoLanePriority) as [->|H0]; [reflexivity|].
  destruct (Z.eqb_spec lanePriority SyncLanePriority) as [->|H15]; [reflexivity|].
  destruct (Z.eqb_spec lanePriority SyncBatchedLanePriority) as [->|H14];
    [reflexivity|].
  destruct (Z.eqb_spec lanePriority InputDiscreteLanePriority); [contradiction|].
  destruct (Z.eqb_spec lanePriority InputContinuousLanePriority); [contradiction|].
  destruct (Z.eqb_spec lanePriority DefaultLanePriority); [contradiction|].
  destruct (Z.eqb_spec lanePriority TransitionPriority) as [->|H6]; [reflexivity|].
  destruct (Z.eqb_spec lanePriority RetryLanePriority) as [->|H5]; [reflexivity|].
  cbn [orb]. cbv zeta.
  destruct (Z.eqb_spec lanePriority IdleLanePriority) as [->|H2]; [|reflexivity].
  destruct (_ =? NoLane); reflexivity.
Qed.

Lemma findUpdateLane_cases lanePriority wipLanes :
  findUpdateLane lanePriority wipLanes
  = if lanePriority =? SyncLanePriority then Some SyncLane
    else if lanePriority =? SyncBatchedLanePriority then Some SyncBatchedLane
    else if lanePriority =? InputDiscreteLanePriority
    then Some (discreteUpdateLane wipLanes)
    else if lanePriority =? InputContinuousLanePriority
    then Some (continuousUpdateLane wipLanes)
    else if lanePriority =? DefaultLanePriority
    then Some (defaultUpdateLane wipLanes)
    else if lanePriority =? IdleLanePriority
    then Some (idleUpdateLane wipLanes)
    else None.
Proof.
  unfold findUpdateLane. rewrite findUpdateLaneWithin_cases. reflexivity.
Qed.

(** X6: [findUpdateLane] returns for every priority and every set of
    lanes in progress: its calls to itself are at most three deep, so with
    any bound of three or more the bounded function gives the result of
    [findUpdateLane].  It fails its [invariant] exactly for the priorities
    that are not update priorities: it accepts the sync, batched sync,
    discrete input, continuous input, default and idle priorities, and
    rejects [NoLanePriority], the transition and retry priorities, every
    hydration priority and any other number. *)
Theorem findUpdateLane_rejects_other_priorities (lanePriority wipLanes : Z) :
  (forall more : nat,
      findUpdateLaneWithin (3 + more) lanePriority wipLanes
      = Some (findUpdateLane lanePriority wipLanes))
  /\ (findUpdateLane lanePriority wipLanes = None
      <-> isUpdateLanePriority lanePriority = false).
Proof.
  split.
  - intros more. change (3 + more)%nat with (S (S (S more))).
    rewrite findUpdateLaneWithin_cases, findUpdateLane_cases. reflexivity.
  - rewrite findUpdateLane_cases. unfold isUpdateLanePriority.
    repeat match goal with
    | |- context [lanePriority =? ?c] => destruct (lanePriority =? c)
    end; cbn [orb]; split; congruence.
Qed.

Lemma In_bounds (ranges : list (Z * Z * Z)) :
  forall lo l h p,
    consecutive lo ranges = true -> In (l, h, p) ranges -> lo <= l /\ l < h.
Proof.
  induction ranges as [|[[l0 h0] p0] rest IH]; intros lo l h p Hcons Hin;
    [contradiction|].
  cbn [consecutive] in Hcons.
  apply andb_prop in Hcons as [Hc Hrest]. apply andb_prop in Hc as [Hl0 Hh0].
  apply Z.eqb_eq in Hl0. apply Z.ltb_lt in Hh0. subst l0.
  destruct Hin as [Hin|Hin].
  - injection Hin as <- <- <-. lia.
  - destruct (IH h0 l h p Hrest Hin). lia.
Qed.

Lemma classOf_of_In (ranges : list (Z * Z * Z)) :
  forall lo i l h p,
    consecutive lo ranges = true -> In (l, h, p) ranges -> l <= i < h ->
    classOf ranges i = Some (l, h, p).
Proof.
  induction ranges as [|[[l0 h0] p0] rest IH]; intros lo i l h p Hcons Hin Hi;
    [contradiction|].
  pose proof Hcons as Hcons'. cbn [consecutive] in Hcons.
  apply andb_prop in Hcons as [Hc Hrest]. apply andb_prop in Hc as [Hl0 Hh0].
  apply Z.eqb_eq in Hl0. apply Z.ltb_lt in Hh0. subst l0.
  cbn [classOf]. destruct Hin as [Hin|Hin].
  - injection Hin as <- <- <-. destruct (Z.ltb_spec i h0); [reflexivity|lia].
  - destruct (In_bounds rest h0 l h p Hrest Hin).
    destruct (Z.ltb_spec i h0); [lia|]. apply (IH h0); assumption.
Qed.

(** A lane of a group has the group's priority. *)
Lemma group_lane_priority l h p i :
  In (l, h, p) laneRanges -> Z.testbit (rangeMask l h) i = true ->
  0 <= i <= 30 /\ getHighestPriorityLanes (2 ^ i) = (2 ^ i, p).
Proof.
  intros Hin Hbit.
  destruct (In_bounds laneRanges 0 l h p eq_refl Hin) as [Hl Hh].
  rewrite testbit_rangeMask in Hbit by lia.
  apply andb_prop in Hbit as [Hlo Hhi].
  apply Z.leb_le in Hlo. apply Z.ltb_lt in Hhi.
  assert (h <= 31) as Hh31.
  { revert Hin. unfold laneRanges. cbn [In]. intros Hin.
    repeat (destruct Hin as [Hin|Hin]; [injection Hin as <- <- <-; lia|]).
    contradiction. }
  assert (0 <= i <= 30) as Hi by lia. split; [assumption|].
  apply (getHighestPriorityLanes_pow2 i l h p Hi).
  apply (classOf_of_In laneRanges 0); [reflexivity|assumption|lia].
Qed.

Lemma includesSomeLane_pow2 i w :
  0 <= i <= 30 -> is_lanes w -> includesSomeLane (2 ^ i) w = Z.testbit w i.
Proof.
  intros Hi Hw. unfold includesSomeLane.
  rewrite band_lanes by (try assumption; apply is_lanes_pow2; assumption).
  destruct (Z.testbit w i) eqn:E.
  - apply negb_true_iff, Z.eqb_neq. intros E0.
    assert (Z.testbit (Z.land (2 ^ i) w) i = true) as Hb
      by (rewrite Z.land_spec, E, Z.pow2_bits_true by lia; reflexivity).
    rewrite E0, Z.bits_0 in Hb. discriminate.
  - apply negb_false_iff, Z.eqb_eq. apply Z.bits_inj'. intros n _.
    rewrite Z.land_spec, Z.bits_0, testbit_pow2 by lia.
    destruct (Z.eqb_spec i n) as [<-|]; [rewrite E|]; reflexivity.
Qed.

(** What a chosen update lane is: a single lane, of some priority, and
    whether it had to be taken from the lanes in progress. *)
Definition chosenLane (wipLanes lane priority : Z) (forced : Prop) : Prop :=
  exists i, 0 <= i <= 30 /\ lane = 2 ^ i
            /\ getHighestPriorityLanes lane = (lane, priority)
            /\ (Z.testbit wipLanes i = true -> forced).

Lemma chosenLane_weaken w lane p (A B : Prop) :
  (A -> B) -> chosenLane w lane p A -> chosenLane w lane p B.
Proof.
  intros HAB (i & Hi & Hv & Hp & Hf). exists i. repeat split; auto; lia.
Qed.

(** A lane picked in a group outside the lanes in progress. *)
Lemma pick_free_lane l h p w :
  In (l, h, p) laneRanges -> is_lanes w ->
  let lane := pickArbitraryLane (band (rangeMask l h) (bnot w)) in
  if lane =? NoLane then isSubsetOfLanes w (rangeMask l h) = true
  else chosenLane w lane p False.
Proof.
  intros Hin Hw lane.
  assert (is_lanes (rangeMask l h)) as Hg.
  { revert Hin. unfold laneRanges. cbn [In]. intros Hin.
    repeat (destruct Hin as [Hin|Hin]; [injection Hin as <- <- <-; closed_range|]).
    contradiction. }
  destruct (pickArbitraryLane_free (rangeMask l h) w Hg Hw) as [Hz Hnz].
  fold lane in Hz, Hnz. destruct (Z.eqb_spec lane NoLane) as [E|Hne].
  - symmetry. assumption.
  - destruct (Hnz Hne) as (i & Hi & Hv & Hgi & Hwi).
    destruct (group_lane_priority l h p i Hin Hgi) as [_ Hp].
    exists i. rewrite Hv. repeat split; auto; try lia.
    rewrite Hwi. discriminate.
Qed.

(** A lane picked in a whole group. *)
Lemma pick_group_lane l h p w (forced : Prop) :
  In (l, h, p) laneRanges -> forced ->
  chosenLane w (pickArbitraryLane (rangeMask l h)) p forced.
Proof.
  intros Hin Hf.
  assert (is_lanes (rangeMask l h) /\ rangeMask l h <> 0) as [Hg Hne].
  { revert Hin. unfold laneRanges. cbn [In]. intros Hin.
    repeat (destruct Hin as [Hin|Hin];
            [injection Hin as <- <- <-; split; [closed_range|vm_compute; congruence]|]).
    contradiction. }
  destruct (pickArbitraryLane_group _ Hg Hne) as (i & Hi & Hv & Hgi).
  destruct (group_lane_priority l h p i Hin Hgi) as [_ Hp].
  exists i. rewrite Hv. repeat split; auto; lia.
Qed.

Ltac in_laneRanges :=
  unfold laneRanges; cbn [In];
  repeat first [left; reflexivity | right].

Lemma defaultUpdateLane_chosen w :
  is_lanes w ->
  exists p, TransitionPriority <= p <= DefaultLanePriority
    /\ chosenLane w (defaultUpdateLane w) p
         (isSubsetOfLanes w DefaultLanes = true
          /\ isSubsetOfLanes w TransitionLanes = true).
Proof.
  intros Hw. unfold defaultUpdateLane. cbv zeta.
  pose proof (pick_free_lane 9 12 DefaultLanePriority w ltac:(in_laneRanges) Hw) as H1.
  pose proof (pick_free_lane 13 22 TransitionPriority w ltac:(in_laneRanges) Hw) as H2.
  cbv zeta in H1, H2.
  change (rangeMask 9 12) with DefaultLanes in *.
  change (rangeMask 13 22) with TransitionLanes in *.
  destruct (_ =? NoLane).
  - destruct (_ =? NoLane).
    + exists DefaultLanePriority. split; [unfold_priorities; lia|].
      apply (pick_group_lane 9 12 DefaultLanePriority w); [in_laneRanges|auto].
    + exists TransitionPriority. split; [unfold_priorities; lia|].
      eapply chosenLane_weaken; [|exact H2]. contradiction.
  - exists DefaultLanePriority. split; [unfold_priorities; lia|].
    eapply chosenLane_weaken; [|exact H1]. contradiction.
Qed.

Lemma continuousUpdateLane_chosen w :
  is_lanes w ->
  exists p, TransitionPriority <= p <= InputContinuousLanePriority
    /\ chosenLane w (continuousUpdateLane w) p
         (isSubsetOfLanes w DefaultLanes = true
          /\ isSubsetOfLanes w TransitionLanes = true).
Proof.
  intros Hw. unfold continuousUpdateLane. cbv zeta.
  pose proof (pick_free_lane 6 8 InputContinuousLanePriority w
                ltac:(in_laneRanges) Hw) as H1.
  cbv zeta in H1. change (rangeMask 6 8) with InputContinuousLanes in *.
  destruct (_ =? NoLane).
  - destruct (defaultUpdateLane_chosen w Hw) as (p & Hp & Hc).
    exists p. split; [unfold_priorities; lia|assumption].
  - exists InputContinuousLanePriority. split; [unfold_priorities; lia|].
    eapply chosenLane_weaken; [|exact H1]. contradiction.
Qed.

Lemma discreteUpdateLane_chosen w :
  is_lanes w ->
  exists p, TransitionPriority <= p <= InputDiscreteLanePriority
    /\ chosenLane w (discreteUpdateLane w) p
         (isSubsetOfLanes w DefaultLanes = true
          /\ isSubsetOfLanes w TransitionLanes = true).
Proof.
  intros Hw. unfold discreteUpdateLane. cbv zeta.
  pose proof (pick_free_lane 3 5 InputDiscreteLanePriority w
                ltac:(in_laneRanges) Hw) as H1.
  cbv zeta in H1. change (rangeMask 3 5) with InputDiscreteLanes in *.
  destruct (_ =? NoLane).
  - destruct (continuousUpdateLane_chosen w Hw) as (p & Hp & Hc).
    exists p. split; [unfold_priorities; lia|assumption].
  - exists InputDiscreteLanePriority. split; [unfold_priorities; lia|].
    eapply chosenLane_weaken; [|exact H1]. contradiction.
Qed.

Lemma idleUpdateLane_chosen w :
  is_lanes w ->
  chosenLane w (idleUpdateLane w) IdleLanePriority
    (isSubsetOfLanes w IdleLanes = true).
Proof.
  intros Hw. unfold idleUpdateLane. cbv zeta.
  pose proof (pick_free_lane 28 30 IdleLanePriority w ltac:(in_laneRanges) Hw) as H1.
  cbv zeta in H1. change (rangeMask 28 30) with IdleLanes in *.
  destruct (_ =? NoLane).
  - apply (pick_group_lane 28 30 IdleLanePriority w); [in_laneRanges|auto].
  - eapply chosenLane_weaken; [|exact H1]. contradiction.
Qed.

(** X7: the lane [findUpdateLane] returns is a single lane, and its
    priority is never higher than the priority asked for. *)
Theorem findUpdateLane_single_lane_of_no_higher_priority
    (lanePriority wipLanes lane : Z) :
  is_lanes wipLanes ->
  findUpdateLane lanePriority wipLanes = Some lane ->
  exists i p, 0 <= i <= 30 /\ lane = 2 ^ i
              /\ getHighestPriorityLanes lane = (lane, p)
              /\ p <= lanePriority.
Proof.
  intros Hw. rewrite findUpdateLane_cases.
  destruct (Z.eqb_spec lanePriority SyncLanePriority) as [->|_].
  { intros [= <-]. exists 0, SyncLanePriority.
    repeat split; try reflexivity; lia. }
  destruct (Z.eqb_spec lanePriority SyncBatchedLanePriority) as [->|_].
  { intros [= <-]. exists 1, SyncBatchedLanePriority.
    repeat split; try reflexivity; lia. }
  destruct (Z.eqb_spec lanePriority InputDiscreteLanePriority) as [->|_].
  { intros [= <-].
    destruct (discreteUpdateLane_chosen wipLanes Hw) as (p & Hp & i & Hi & Hv & Hg & _).
    exists i, p. repeat split; auto; lia. }
  destruct (Z.eqb_spec lanePriority InputContinuousLanePriority) as [->|_].
  { intros [= <-].
    destruct (continuousUpdateLane_chosen wipLanes Hw) as (p & Hp & i & Hi & Hv & Hg & _).
    exists i, p. repeat split; auto; lia. }
  destruct (Z.eqb_spec lanePriority DefaultLanePriority) as [->|_].
  { intros [= <-].
    destruct (defaultUpdateLane_chosen wipLanes Hw) as (p & Hp & i & Hi & Hv & Hg & _).
    exists i, p. repeat split; auto; lia. }
  destruct (Z.eqb_spec lanePriority IdleLanePriority) as [->|_]; [|discriminate].
  intros [= <-].
  destruct (idleUpdateLane_chosen wipLanes Hw) as (i & Hi & Hv & Hg & _).
  exists i, IdleLanePriority. repeat split; auto; lia.
Qed.

Lemma findUpdateLane_single_lane_witness :
  is_lanes (bor InputDiscreteLanes InputContinuousLanes)
  /\ findUpdateLane InputDiscreteLanePriority
       (bor InputDiscreteLanes InputContinuousLanes) = Some 512
  /\ exists i p, 0 <= i <= 30 /\ 512 = 2 ^ i
                 /\ getHighestPriorityLanes 512 = (512, p)
                 /\ p <= InputDiscreteLanePriority.
Proof.
  assert (is_lanes (bor InputDiscreteLanes InputContinuousLanes)) as Hw
    by closed_range.
  assert (findUpdateLane InputDiscreteLanePriority
            (bor InputDiscreteLanes InputContinuousLanes) = Some 512) as Hf
    by reflexivity.
  split; [exact Hw|]. split; [exact Hf|].
  exact (findUpdateLane_single_lane_of_no_higher_priority _ _ _ Hw Hf).
Defined.

(** X8: [findUpdateLane] keeps away from the lanes in progress while it
    can.  For the input and default priorities the lane returned is in
    progress only when every default lane and every transition lane is in
    progress; for the idle priority, only when every idle lane is.  (The
    two sync priorities have one lane each, returned as it is.) *)
Theorem findUpdateLane_avoids_lanes_in_progress
    (lanePriority wipLanes lane : Z) :
  is_lanes wipLanes ->
  findUpdateLane lanePriority wipLanes = Some lane ->
  includesSomeLane lane wipLanes = true ->
  lanePriority = SyncLanePriority
  \/ lanePriority = SyncBatchedLanePriority
  \/ (lanePriority = IdleLanePriority
      /\ isSubsetOfLanes wipLanes IdleLanes = true)
  \/ (isSubsetOfLanes wipLanes DefaultLanes = true
      /\ isSubsetOfLanes wipLanes TransitionLanes = true).
Proof.
  intros Hw. rewrite findUpdateLane_cases.
  destruct (Z.eqb_spec lanePriority SyncLanePriority) as [->|_];
    [intros; left; reflexivity|].
  destruct (Z.eqb_spec lanePriority SyncBatchedLanePriority) as [->|_];
    [intros; right; left; reflexivity|].
  destruct (Z.eqb_spec lanePriority InputDiscreteLanePriority) as [->|_].
  { intros [= <-].
    destruct (discreteUpdateLane_chosen wipLanes Hw) as (p & Hp & i & Hi & Hv & Hg & Hf).
    rewrite Hv, includesSomeLane_pow2 by assumption.
    intros Hb. right. right. right. exact (Hf Hb). }
  destruct (Z.eqb_spec lanePriority InputContinuousLanePriority) as [->|_].
  { intros [= <-].
    destruct (continuousUpdateLane_chosen wipLanes Hw) as (p & Hp & i & Hi & Hv & Hg & Hf).
    rewrite Hv, includesSomeLane_pow2 by assumption.
    intros Hb. right. right. right. exact (Hf Hb). }
  destruct (Z.eqb_spec lanePriority DefaultLanePriority) as [->|_].
  { intros [= <-].
    destruct (defaultUpdateLane_chosen wipLanes Hw) as (p & Hp & i & Hi & Hv & Hg & Hf).
    rewrite Hv, includesSomeLane_pow2 by assumption.
    intros Hb. right. right. right. exact (Hf Hb). }
  destruct (Z.eqb_spec lanePriority IdleLanePriority) as [->|_]; [|discriminate].
  intros [= <-].
  destruct (idleUpdateLane_chosen wipLanes Hw) as (i & Hi & Hv & Hg & Hf).
  rewrite Hv, includesSomeLane_pow2 by assumption.
  intros Hb. right. right. left. split; [reflexivity|exact (Hf Hb)].
Qed.

Lemma findUpdateLane_avoids_lanes_in_progress_witness :
  is_lanes (bor DefaultLanes TransitionLanes)
  /\ findUpdateLane DefaultLanePriority (bor DefaultLanes TransitionLanes)
     = Some 512
  /\ includesSomeLane 512 (bor DefaultLanes TransitionLanes) = true
  /\ isSubsetOfLanes (bor DefaultLanes TransitionLanes) DefaultLanes = true.
Proof.
  assert (is_lanes (bor DefaultLanes TransitionLanes)) as Hw by closed_range.
  assert (findUpdateLane DefaultLanePriority (bor DefaultLanes TransitionLanes)
          = Some 512) as Hf by reflexivity.
  assert (includesSomeLane 512 (bor DefaultLanes TransitionLanes) = true) as Hi
    by reflexivity.
  split; [exact Hw|]. split; [exact Hf|]. split; [exact Hi|].
  destruct (findUpdateLane_avoids_lanes_in_progress _ _ _ Hw Hf Hi)
    as [E|[E|[[E _]|[Hd _]]]]; try discriminate E. exact Hd.
Defined.

(** X9: [findTransitionLane] always returns a single transition lane.
    The lane has no pending work unless every transition lane has; and
    when every transition lane has pending work, the lane is not in
    progress unless every transition lane is. *)
Theorem findTransitionLane_prefers_unclaimed_lanes (wipLanes pendingLanes : Z) :
  is_lanes wipLanes -> is_lanes pendingLanes ->
  let lane := findTransitionLane wipLanes pendingLanes in
  (exists i, 0 <= i <= 30 /\ lane = 2 ^ i)
  /\ getHighestPriorityLanes lane = (lane, TransitionPriority)
  /\ (includesSomeLane lane pendingLanes = true ->
      isSubsetOfLanes pendingLanes TransitionLanes = true
      /\ (includesSomeLane lane wipLanes = true ->
          isSubsetOfLanes wipLanes TransitionLanes = true)).
Proof.
  intros Hw Hp. unfold findTransitionLane. cbv zeta.
  pose proof (pick_free_lane 13 22 TransitionPriority pendingLanes
                ltac:(in_laneRanges) Hp) as H1.
  pose proof (pick_free_lane 13 22 TransitionPriority wipLanes
                ltac:(in_laneRanges) Hw) as H2.
  cbv zeta in H1, H2. change (rangeMask 13 22) with TransitionLanes in *.
  destruct (_ =? NoLane).
  - destruct (_ =? NoLane).
    + destruct (pick_group_lane 13 22 TransitionPriority 0 True
                  ltac:(in_laneRanges) I) as (i & Hi & Hv & Hg & _).
      change (rangeMask 13 22) with TransitionLanes in *.
      repeat split; eauto.
    + destruct H2 as (i & Hi & Hv & Hg & Hf).
      split; [eauto|]. split; [assumption|]. intros _. split; [assumption|].
      rewrite Hv, includesSomeLane_pow2 by assumption.
      intros Hb. destruct (Hf Hb).
  - destruct H1 as (i & Hi & Hv & Hg & Hf).
    split; [eauto|]. split; [assumption|].
    rewrite Hv at 1. rewrite includesSomeLane_pow2 by assumption.
    intros Hb. destruct (Hf Hb).
Qed.

Lemma findTransitionLane_prefers_unclaimed_lanes_witness :
  is_lanes 8192 /\ is_lanes (bor 8192 16384)
  /\ findTransitionLane 8192 (bor 8192 16384) = 32768
  /\ getHighestPriorityLanes (findTransitionLane 8192 (bor 8192 16384))
     = (findTransitionLane 8192 (bor 8192 16384), TransitionPriority).
Proof.
  assert (is_lanes 8192) as Hw by closed_range.
  assert (is_lanes (bor 8192 16384)) as Hp by closed_range.
  split; [exact Hw|]. split; [exact Hp|]. split; [reflexivity|].
  pose proof (findTransitionLane_prefers_unclaimed_lanes _ _ Hw Hp) as H.
  cbv zeta in H. destruct H as (_ & Hg & _). exact Hg.
Defined.

(** X10: [findRetryLane] always returns a single retry lane, and that
    lane is in progress only when every retry lane is in progress. *)
Theorem findRetryLane_prefers_free_lanes (wipLanes : Z) :
  is_lanes wipLanes ->
  let lane := findRetryLane wipLanes in
  (exists i, 0 <= i <= 30 /\ lane = 2 ^ i)
  /\ getHighestPriorityLanes lane = (lane, RetryLanePriority)
  /\ (includesSomeLane lane wipLanes = true ->
      isSubsetOfLanes wipLanes RetryLanes = true).
Proof.
  intros Hw. unfold findRetryLane. cbv zeta.
  pose proof (pick_free_lane 22 26 RetryLanePriority wipLanes
                ltac:(in_laneRanges) Hw) as H1.
  cbv zeta in H1. change (rangeMask 22 26) with RetryLanes in *.
  destruct (_ =? NoLane).
  - destruct (pick_group_lane 22 26 RetryLanePriority 0 True
                ltac:(in_laneRanges) I) as (i & Hi & Hv & Hg & _).
    change (rangeMask 22 26) with RetryLanes in *.
    repeat split; eauto.
  - destruct H1 as (i & Hi & Hv & Hg & Hf).
    split; [eauto|]. split; [assumption|].
    rewrite Hv, includesSomeLane_pow2 by assumption.
    intros Hb. destruct (Hf Hb).
Qed.

Lemma findRetryLane_prefers_free_lanes_witness :
  is_lanes RetryLanes
  /\ (exists i, 0 <= i <= 30 /\ findRetryLane RetryLanes = 2 ^ i)
  /\ isSubsetOfLanes RetryLanes RetryLanes = true.
Proof.
  assert (is_lanes RetryLanes) as Hw by closed_range.
  split; [exact Hw|].
  pose proof (findRetryLane_prefers_free_lanes _ Hw) as H.
  cbv zeta in H. destruct H as (Hs & _ & Hf).
  split; [exact Hs|]. apply Hf. reflexivity.
Defined.

(** *** Event times *)

(** X11: [getMostRecentEventTime] returns the greatest event time
    recorded for the lanes of the mask, and [NoTimestamp] when none of
    them has an event time above [NoTimestamp]: no recorded time of a lane
    of the mask exceeds the result, and the result is [NoTimestamp] or the
    recorded time of one of these lanes. *)
Theorem getMostRecentEventTime_is_maximum (root : FiberRoot) (lanes : Z) :
  is_lanes lanes ->
  let latest := getMostRecentEventTime root lanes in
  (forall i eventTime,
      Z.testbit lanes i = true -> eventTimes root !! i = Some eventTime ->
      eventTime <= latest)
  /\ NoTimestamp <= latest
  /\ (latest = NoTimestamp
      \/ exists i, Z.testbit lanes i = true /\ eventTimes root !! i = Some latest).
Proof.
  intros Hl. cbv zeta. unfold getMostRecentEventTime. cbv zeta.
  set (body := fun (index _ mostRecentEventTime : Z) =>
                 match eventTimes root !! index with
                 | Some eventTime =>
                     if mostRecentEventTime <? eventTime then eventTime
                     else mostRecentEventTime
                 | None => mostRecentEventTime
                 end).
  pose (I := fun (rest acc : Z) =>
    (forall i, Z.testbit rest i = true -> Z.testbit lanes i = true)
    /\ (forall i e, Z.testbit lanes i = true -> Z.testbit rest i = false ->
                    eventTimes root !! i = Some e -> e <= acc)
    /\ NoTimestamp <= acc
    /\ (acc = NoTimestamp
        \/ exists i, Z.testbit lanes i = true /\ eventTimes root !! i = Some acc)).
  assert (I 0 (forEachLane body lanes NoTimestamp)) as (_ & Hmax & Hlo & Hin).
  { apply (forEachLane_rule body I); [|assumption|].
    - intros rest acc Hr Hpos (Hsub & Hmax & Hlo & Hin).
      pose proof (log2_lanes rest Hr Hpos) as Hlog.
      assert (Z.testbit rest (Z.log2 rest) = true) as Htop
        by (apply Z.bit_log2; assumption).
      assert (NoTimestamp <= body (Z.log2 rest) (2 ^ Z.log2 rest) acc
              /\ acc <= body (Z.log2 rest) (2 ^ Z.log2 rest) acc
              /\ (forall e, eventTimes root !! Z.log2 rest = Some e ->
                            e <= body (Z.log2 rest) (2 ^ Z.log2 rest) acc)
              /\ (body (Z.log2 rest) (2 ^ Z.log2 rest) acc = acc
                  \/ eventTimes root !! Z.log2 rest
                     = Some (body (Z.log2 rest) (2 ^ Z.log2 rest) acc)))
        as (Hb1 & Hb2 & Hb3 & Hb4).
      { unfold body. destruct (eventTimes root !! Z.log2 rest) as [e|].
        - destruct (Z.ltb_spec acc e).
          + split; [lia|]. split; [lia|].
            split; [intros ? [= <-]; lia|right; reflexivity].
          + split; [lia|]. split; [lia|].
            split; [intros ? [= <-]; lia|left; reflexivity].
        - split; [lia|]. split; [lia|].
          split; [discriminate|left; reflexivity]. }
      split; [|split; [|split]].
      + intros i Hi. apply Hsub.
        rewrite Z.clearbit_eqb in Hi. apply andb_prop in Hi. apply Hi.
      + intros i e Hi Hrest He.
        rewrite Z.clearbit_eqb in Hrest.
        destruct (Z.eqb_spec (Z.log2 rest) i) as [<-|Hne].
        * apply Hb3. assumption.
        * rewrite andb_true_r in Hrest.
          specialize (Hmax i e Hi Hrest He). lia.
      + assumption.
      + destruct Hb4 as [E|E].
        * rewrite E. assumption.
        * right. exists (Z.log2 rest). split; [apply Hsub|]; assumption.
    - unfold I. split; [auto|]. split; [|split; [lia|left; reflexivity]].
      intros i e Hi Hrest. rewrite Hrest in Hi. discriminate. }
  split; [|split; assumption].
  intros i e Hi He. apply (Hmax i e Hi); [apply Z.bits_0|assumption].
Qed.

(** Two default lanes updated at different times. *)
Definition root_two_event_times : FiberRoot :=
  markRootUpdated (markRootUpdated emptyRoot (2 ^ 9) 10) (2 ^ 10) 30.

Lemma getMostRecentEventTime_is_maximum_witness :
  is_lanes DefaultLanes
  /\ getMostRecentEventTime root_two_event_times DefaultLanes = 30
  /\ let latest := getMostRecentEventTime root_two_event_times DefaultLanes in
     (forall i eventTime,
         Z.testbit DefaultLanes i = true ->
         eventTimes root_two_event_times !! i = Some eventTime ->
         eventTime <= latest)
     /\ NoTimestamp <= latest
     /\ (latest = NoTimestamp
         \/ exists i, Z.testbit DefaultLanes i = true
                      /\ eventTimes root_two_event_times !! i = Some latest).
Proof.
  assert (is_lanes DefaultLanes) as Hl by closed_range.
  split; [exact Hl|]. split; [reflexivity|].
  exact (getMostRecentEventTime_is_maximum root_two_event_times DefaultLanes Hl).
Defined.

(** *** Retrying after an error *)

(** X12: [getLanesToRetrySynchronouslyOnError] returns the pending lanes
    without [OffscreenLane], whatever the root: its result never includes
    [OffscreenLane], so when the offscreen lane is the only pending lane
    the result is [NoLanes] (the second test of the function never
    succeeds). *)
Theorem getLanesToRetrySynchronouslyOnError_never_offscreen (root : FiberRoot) :
  getLanesToRetrySynchronouslyOnError root
  = removeLanes (pendingLanes root) OffscreenLane
  /\ includesSomeLane (getLanesToRetrySynchronouslyOnError root) OffscreenLane
     = false
  /\ (pendingLanes root = OffscreenLane ->
      getLanesToRetrySynchronouslyOnError root = NoLanes).
Proof.
  assert (forall p, includesSomeLane (band p (bnot OffscreenLane)) OffscreenLane
                    = false) as Hno.
  { intros p. unfold includesSomeLane. apply negb_false_iff, Z.eqb_eq.
    unfold band at 1. rewrite (toInt32_small (band _ _)) by apply band_range.
    unfold band. rewrite <- Z.land_assoc.
    change (Z.land (toInt32 (bnot OffscreenLane)) (toInt32 OffscreenLane)) with 0.
    apply Z.land_0_r. }
  assert (getLanesToRetrySynchronouslyOnError root
          = removeLanes (pendingLanes root) OffscreenLane) as Heq.
  { unfold getLanesToRetrySynchronouslyOnError, removeLanes. cbv zeta.
    destruct (Z.eqb_spec (band (pendingLanes root) (bnot OffscreenLane)) NoLanes)
      as [E|_]; [|reflexivity].
    cbn [negb]. rewrite E. reflexivity. }
  split; [exact Heq|]. split.
  - rewrite Heq. apply Hno.
  - intros Hp. rewrite Heq, Hp. reflexivity.
Qed.

(** *** Priorities of the scheduler *)

(** X13: converting a scheduler priority to a lane priority and back
    never fails, gives back the immediate, user-blocking, normal and idle
    priorities, turns the low priority into the normal priority, and turns
    any other value into [NoSchedulerPriority]. *)
Theorem schedulerPriority_round_trip
    (ImmediateSchedulerPriority UserBlockingSchedulerPriority
     NormalSchedulerPriority LowSchedulerPriority IdleSchedulerPriority
     NoSchedulerPriority schedulerPriorityLevel : Z) :
  lanePriorityToSchedulerPriority
    ImmediateSchedulerPriority UserBlockingSchedulerPriority
    NormalSchedulerPriority IdleSchedulerPriority NoSchedulerPriority
    (schedulerPriorityToLanePriority
       ImmediateSchedulerPriority UserBlockingSchedulerPriority
       NormalSchedulerPriority LowSchedulerPriority IdleSchedulerPriority
       schedulerPriorityLevel)
  = Some
      (if (schedulerPriorityLevel =? ImmediateSchedulerPriority)
          || (schedulerPriorityLevel =? UserBlockingSchedulerPriority)
       then schedulerPriorityLevel
       else if (schedulerPriorityLevel =? NormalSchedulerPriority)
               || (schedulerPriorityLevel =? LowSchedulerPriority)
       then NormalSchedulerPriority
       else if schedulerPriorityLevel =? IdleSchedulerPriority
       then schedulerPriorityLevel
       else NoSchedulerPriority).
Proof.
  unfold schedulerPriorityToLanePriority.
  destruct (Z.eqb_spec schedulerPriorityLevel ImmediateSchedulerPriority)
    as [->|_]; [reflexivity|].
  destruct (Z.eqb_spec schedulerPriorityLevel UserBlockingSchedulerPriority)
    as [->|_]; [reflexivity|].
  cbn [orb].
  destruct ((schedulerPriorityLevel =? NormalSchedulerPriority)
            || (schedulerPriorityLevel =? LowSchedulerPriority));
    [reflexivity|].
  destruct (Z.eqb_spec schedulerPriorityLevel IdleSchedulerPriority)
    as [->|_]; reflexivity.
Qed.

(** *** Hydration *)

(** The [switch] of [getBumpedLaneForHydration]. *)
Definition hydrationLaneFor (highestLanePriority : Z) : option Z :=
  if (highestLanePriority =? SyncLanePriority)
     || (highestLanePriority =? SyncBatchedLanePriority)
  then Some NoLane
  else if (highestLanePriority =? InputDiscreteHydrationLanePriority)
          || (highestLanePriority =? InputDiscreteLanePriority)
  then Some InputDiscreteHydrationLane
  else if (highestLanePriority =? InputContinuousHydrationLanePriority)
          || (highestLanePriority =? InputContinuousLanePriority)
  then Some InputContinuousHydrationLane
  else if (highestLanePriority =? DefaultHydrationLanePriority)
          || (highestLanePriority =? DefaultLanePriority)
  then Some DefaultHydrationLane
  else if (highestLanePriority =? TransitionHydrationPriority)
          || (highestLanePriority =? TransitionPriority)
  then Some TransitionHydrationLane
  else if highestLanePriority =? RetryLanePriority
  then Some TransitionHydrationLane
  else if highestLanePriority =? SelectiveHydrationLanePriority
  then Some SelectiveHydrationLane
  else if (highestLanePriority =? IdleHydrationLanePriority)
          || (highestLanePriority =? IdleLanePriority)
  then Some IdleHydrationLane
  else if (highestLanePriority =? OffscreenLanePriority)
          || (highestLanePriority =? NoLanePriority)
  then Some NoLane
  else None.

Lemma getBumpedLaneForHydration_unfold (root : FiberRoot) (renderLanes : Z) :
  getBumpedLaneForHydration root renderLanes
  = match hydrationLaneFor (snd (getHighestPriorityLanes renderLanes)) with
    | None => None
    | Some lane =>
        if negb (band lane (bor (suspendedLanes root) renderLanes) =? NoLane)
        then Some NoLane
        else Some lane
    end.
Proof. reflexivity. Qed.

Ltac hydrationAt k :=
  right; exists k; split; [lia|split; [lia|reflexivity]].

(** The hydration lane of a group is not after the group. *)
Lemma hydrationLaneFor_group l h p :
  In (l, h, p) laneRanges ->
  exists lane, hydrationLaneFor p = Some lane
               /\ (lane = NoLane \/ exists k, 0 <= k <= l /\ k <= 30 /\ lane = 2 ^ k).
Proof.
  unfold laneRanges. cbn [In]. intros Hin.
  repeat (destruct Hin as [Hin|Hin];
          [injection Hin as <- <- <-;
           eexists; split; [reflexivity|];
           first [ left; reflexivity | hydrationAt 2 | hydrationAt 5
                 | hydrationAt 8 | hydrationAt 12 | hydrationAt 26
                 | hydrationAt 27 ]
          |]).
  contradiction.
Qed.

Lemma hydrationLaneFor_values p lane :
  hydrationLaneFor p = Some lane ->
  In lane [NoLane; InputDiscreteHydrationLane; InputContinuousHydrationLane;
           DefaultHydrationLane; TransitionHydrationLane;
           SelectiveHydrationLane; IdleHydrationLane].
Proof.
  unfold hydrationLaneFor.
  repeat match goal with
  | |- context [if ?c then _ else _] => destruct c
  end; intros [= <-]; cbn [In]; tauto.
Qed.

Lemma band_pow2_bor_nonzero k susp render :
  0 <= k <= 30 -> is_lanes render -> Z.testbit render k = true ->
  band (2 ^ k) (bor susp render) <> 0.
Proof.
  intros Hk Hr Hbit E.
  assert (Z.testbit (band (2 ^ k) (bor susp render)) k = true) as Hb.
  { unfold band. rewrite (toInt32_lanes (2 ^ k)) by (apply is_lanes_pow2; assumption).
    rewrite (toInt32_small (bor _ _)) by apply bor_range.
    rewrite Z.land_spec, Z.pow2_bits_true by lia.
    unfold bor. rewrite (toInt32_lanes render) by assumption.
    rewrite Z.lor_spec, Hbit. apply orb_true_r. }
  rewrite E, Z.bits_0 in Hb. discriminate.
Qed.

(** X14: [getBumpedLaneForHydration] never fails its [invariant].  The
    lane it returns is [NoLane] or one of the hydration lanes; it is
    neither suspended nor among the lanes being rendered; and when it is
    not [NoLane] it has a higher priority than every lane being
    rendered. *)
Theorem getBumpedLaneForHydration_bumps_priority
    (root : FiberRoot) (renderLanes : Z) :
  is_lanes renderLanes ->
  exists lane,
    getBumpedLaneForHydration root renderLanes = Some lane
    /\ In lane [NoLane; InputDiscreteHydrationLane;
                InputContinuousHydrationLane; DefaultHydrationLane;
                TransitionHydrationLane; SelectiveHydrationLane;
                IdleHydrationLane]
    /\ includesSomeLane lane (bor (suspendedLanes root) renderLanes) = false
    /\ (lane = NoLane
        \/ exists k, 0 <= k <= 30 /\ lane = 2 ^ k
                     /\ forall j, Z.testbit renderLanes j = true -> k < j).
Proof.
  intros Hr. rewrite getBumpedLaneForHydration_unfold.
  assert (exists l h,
             In (l, h, snd (getHighestPriorityLanes renderLanes)) laneRanges
             /\ forall j, Z.testbit renderLanes j = true -> l <= j)
    as (l & h & Hin & Hbound).
  { destruct (Z.eq_dec renderLanes 0) as [->|Hne].
    - exists 9, 12. split; [in_laneRanges|].
      intros j Hj. rewrite Z.bits_0 in Hj. discriminate.
    - destruct (lowest_lane_position renderLanes Hr Hne)
        as (i & Hi & Hv & Hset & Hlow).
      destruct (getHighestPriorityLanes_group renderLanes i Hr Hi Hset Hlow)
        as (l & h & p & Hclass & Hg & Hl0 & Hrange).
      exists l, h. rewrite Hg. cbn [snd]. split.
      + eapply classOf_priority. eassumption.
      + intros j Hj. destruct (Z_lt_dec j i) as [Hlt|]; [|lia].
        rewrite (Hlow j Hlt) in Hj. discriminate. }
  destruct (hydrationLaneFor_group l h _ Hin) as (lane0 & Hh & Hlane0).
  rewrite Hh.
  destruct (Z.eqb_spec (band lane0 (bor (suspendedLanes root) renderLanes)) NoLane)
    as [E|Hne]; cbn [negb].
  - exists lane0. split; [reflexivity|].
    split; [eapply hydrationLaneFor_values; eassumption|]. split.
    + unfold includesSomeLane. rewrite E. reflexivity.
    + destruct Hlane0 as [->|(k & Hk & Hk30 & ->)]; [left; reflexivity|].
      right. exists k. split; [lia|]. split; [reflexivity|].
      intros j Hj. specialize (Hbound j Hj).
      destruct (Z.eq_dec j k) as [->|]; [|lia].
      exfalso. revert E. apply band_pow2_bor_nonzero; [lia|assumption..].
  - exists NoLane. split; [reflexivity|]. split; [left; reflexivity|].
    split; [reflexivity|left; reflexivity].
Qed.

Lemma getBumpedLaneForHydration_bumps_priority_witness :
  is_lanes DefaultLanes
  /\ getBumpedLaneForHydration emptyRoot DefaultLanes = Some DefaultHydrationLane
  /\ exists lane,
       getBumpedLaneForHydration emptyRoot DefaultLanes = Some lane
       /\ In lane [NoLane; InputDiscreteHydrationLane;
                   InputContinuousHydrationLane; DefaultHydrationLane;
                   TransitionHydrationLane; SelectiveHydrationLane;
                   IdleHydrationLane]
       /\ includesSomeLane lane (bor (suspendedLanes emptyRoot) DefaultLanes)
          = false
       /\ (lane = NoLane
           \/ exists k, 0 <= k <= 30 /\ lane = 2 ^ k
                        /\ forall j, Z.testbit DefaultLanes j = true -> k < j).
Proof.
  assert (is_lanes DefaultLanes) as Hr by closed_range.
  split; [exact Hr|]. split; [reflexivity|].
  exact (getBumpedLaneForHydration_bumps_priority emptyRoot DefaultLanes Hr).
Defined.

End LaneProperties.

(** ** Choosing the next lanes *)

Module LaneNext.
Import JS Lane LaneFacts LaneProperties.

(** The first choice of [getNextLanes]: the lanes, their priority and the
    value of the register, before the in-progress lanes are looked at. *)
Definition firstChoice (root : FiberRoot) (return_highestLanePriority : Z)
    : Z * Z * Z :=
  let pendingLanes := pendingLanes root in
  let expiredLanes := expiredLanes root in
  let suspendedLanes := suspendedLanes root in
  let pingedLanes := pingedLanes root in
    if negb (expiredLanes =? NoLanes)
    then (expiredLanes, SyncLanePriority, SyncLanePriority)
    else
      let nonIdlePendingLanes := band pendingLanes NonIdleLanes in
      if negb (nonIdlePendingLanes =? NoLanes) then
        let nonIdleUnblockedLanes :=
          band nonIdlePendingLanes (bnot suspendedLanes) in
        if negb (nonIdleUnblockedLanes =? NoLanes) then
          let '(l, p) := getHighestPriorityLanes nonIdleUnblockedLanes in
          (l, p, p)
        else
          let nonIdlePingedLanes := band nonIdlePendingLanes pingedLanes in
          if negb (nonIdlePingedLanes =? NoLanes) then
            let '(l, p) := getHighestPriorityLanes nonIdlePingedLanes in
            (l, p, p)
          else (NoLanes, NoLanePriority, return_highestLanePriority)
      else
        let unblockedLanes := band pendingLanes (bnot suspendedLanes) in
        if negb (unblockedLanes =? NoLanes) then
          let '(l, p) := getHighestPriorityLanes unblockedLanes in
          (l, p, p)
        else if negb (pingedLanes =? NoLanes) then
          let '(l, p) := getHighestPriorityLanes pingedLanes in
          (l, p, p)
        else (NoLanes, NoLanePriority, return_highestLanePriority).

Lemma selectNextLanes_firstChoice (root : FiberRoot) (wipLanes reg : Z) :
  selectNextLanes root wipLanes reg
  = if pendingLanes root =? NoLanes then inl (NoLanes, NoLanePriority)
    else
      let '(nextLanes, nextLanePriority, reg) := firstChoice root reg in
      if nextLanes =? NoLanes then inl (NoLanes, reg)
      else
        let nextLanes :=
          band (pendingLanes root) (getEqualOrHigherPriorityLanes nextLanes) in
        if negb (wipLanes =? NoLanes) && negb (wipLanes =? nextLanes)
           && (band wipLanes (suspendedLanes root) =? NoLanes)
        then
          let wipLanePriority := snd (getHighestPriorityLanes wipLanes) in
          if nextLanePriority <=? wipLanePriority
          then inl (wipLanes, wipLanePriority)
          else inr (nextLanes, nextLanePriority)
        else inr (nextLanes, reg).
Proof. reflexivity. Qed.

(** *** Bits of the masks [getNextLanes] builds *)

Lemma testbit_band_int a b i :
  is_lanes a -> Z.testbit (band a b) i = Z.testbit a i && Z.testbit (toInt32 b) i.
Proof.
  intros Ha. unfold band. rewrite (toInt32_lanes a) by assumption.
  apply Z.land_spec.
Qed.

Lemma testbit_band_bnot a s i :
  is_lanes a ->
  Z.testbit (band a (bnot s)) i
  = Z.testbit a i && negb (Z.testbit (toInt32 s) i).
Proof.
  intros Ha. rewrite testbit_band_int by assumption.
  unfold bnot. rewrite (toInt32_small (Z.lnot _))
    by (apply is_int32_lnot, toInt32_range).
  destruct (Z_lt_dec i 0) as [Hneg|Hnn].
  - rewrite (Z.testbit_neg_r a) by assumption. reflexivity.
  - rewrite Z.lnot_spec by lia. reflexivity.
Qed.

Lemma isSubsetOfLanes_band_l a b : is_lanes a -> isSubsetOfLanes a (band a b) = true.
Proof.
  intros Ha. apply isSubsetOfLanes_bits; [assumption|apply band_lanes_l; assumption|].
  intros i Hi. rewrite testbit_band_int in Hi by assumption.
  apply andb_prop in Hi. apply Hi.
Qed.

Lemma testbit_le_log2 n j : 0 < n -> Z.testbit n j = true -> j <= Z.log2 n.
Proof.
  intros Hn Hj. destruct (Z_le_dec j (Z.log2 n)) as [|Hgt]; [assumption|].
  rewrite Z.bits_above_log2 in Hj by lia. discriminate.
Qed.

Lemma testbit_nonzero n j : Z.testbit n j = true -> n <> 0.
Proof. intros Hj ->. rewrite Z.bits_0 in Hj. discriminate. Qed.

Lemma lanes_nonzero_bit n : is_lanes n -> n <> 0 -> exists j, Z.testbit n j = true.
Proof.
  intros Hn Hne. exists (Z.log2 n). apply Z.bit_log2. destruct Hn. lia.
Qed.

(** The lanes [getHighestPriorityLanes] returns for a non-empty mask: a
    part of the mask that contains its lowest lane. *)
Lemma highest_group_lowest (lanes : Z) :
  is_lanes lanes -> lanes <> 0 ->
  is_lanes (fst (getHighestPriorityLanes lanes))
  /\ (forall j, Z.testbit (fst (getHighestPriorityLanes lanes)) j = true ->
                Z.testbit lanes j = true)
  /\ exists i, 0 <= i <= 30
               /\ Z.testbit (fst (getHighestPriorityLanes lanes)) i = true
               /\ forall j, Z.testbit lanes j = true -> i <= j.
Proof.
  intros Hl Hne.
  destruct (lowest_lane_position lanes Hl Hne) as (i & Hi & Hv & Hset & Hlow).
  destruct (getHighestPriorityLanes_group lanes i Hl Hi Hset Hlow)
    as (l & h & p & Hclass & Hg & Hl0 & Hr).
  rewrite Hg. cbn [fst]. split; [apply is_lanes_land_r; assumption|]. split.
  - intros j Hj. rewrite Z.land_spec in Hj. apply andb_prop in Hj. apply Hj.
  - exists i. split; [assumption|]. split.
    + rewrite Z.land_spec, testbit_rangeMask, Hset by lia.
      destruct (Z.leb_spec l i); [|lia]. destruct (Z.ltb_spec i h); [|lia].
      reflexivity.
    + intros j Hj. destruct (Z_lt_dec j i) as [Hlt|]; [|lia].
      rewrite (Hlow j Hlt) in Hj. discriminate.
Qed.

(** The mask kept after the first choice: the pending lanes up to the
    lowest-priority lane of the choice. *)
Lemma testbit_kept p n j :
  is_lanes p -> is_lanes n -> n <> 0 ->
  Z.testbit (band p (getEqualOrHigherPriorityLanes n)) j
  = Z.testbit p j && (j <=? Z.log2 n).
Proof.
  intros Hp Hn Hne. apply testbit_band_getEqualOrHigherPriorityLanes;
    try assumption. destruct Hn. lia.
Qed.

(** *** What [selectNextLanes] hands on *)

Lemma selectNextLanes_shape (root : FiberRoot) (wipLanes reg : Z) :
  match selectNextLanes root wipLanes reg with
  | inl (lanes, _) => lanes = NoLanes \/ (lanes = wipLanes /\ wipLanes <> NoLanes)
  | inr (lanes, _) =>
      fst (fst (firstChoice root reg)) <> NoLanes
      /\ lanes = band (pendingLanes root)
                   (getEqualOrHigherPriorityLanes (fst (fst (firstChoice root reg))))
  end.
Proof.
  rewrite selectNextLanes_firstChoice.
  destruct (pendingLanes root =? NoLanes); [left; reflexivity|].
  destruct (firstChoice root reg) as [[n p] r]. cbn [fst].
  destruct (Z.eqb_spec n NoLanes) as [|Hn]; [left; reflexivity|]. cbv zeta.
  destruct (Z.eqb_spec wipLanes NoLanes) as [|Hw]; cbn [negb andb];
    [split; [assumption|reflexivity]|].
  destruct (negb _ && _); [|split; [assumption|reflexivity]].
  destruct (_ <=? _); [right; split; [reflexivity|assumption]|].
  split; [assumption|reflexivity].
Qed.

(** X15: without entangled lanes, [getNextLanes] returns either the
    lanes in progress as they are, or a set of pending lanes ([NoLanes]
    included). *)
Theorem getNextLanes_within_pending (root : FiberRoot) (wipLanes reg : Z) :
  is_lanes (pendingLanes root) ->
  entangledLanes root = NoLanes ->
  fst (getNextLanes root wipLanes reg) = wipLanes
  \/ isSubsetOfLanes (pendingLanes root) (fst (getNextLanes root wipLanes reg))
     = true.
Proof.
  intros Hp He. unfold getNextLanes.
  pose proof (selectNextLanes_shape root wipLanes reg) as Hs.
  destruct (selectNextLanes root wipLanes reg) as [[l r]|[l r]].
  - cbn [fst]. destruct Hs as [->|[-> _]]; [right|left; reflexivity].
    apply isSubsetOfLanes_0.
  - rewrite He. cbn [negb Z.eqb fst]. change (NoLanes =? NoLanes) with true.
    cbn [negb fst]. destruct Hs as [_ ->]. right.
    apply isSubsetOfLanes_band_l. assumption.
Qed.

Lemma testbit_NonIdleLanes j :
  Z.testbit NonIdleLanes j = (0 <=? j) && (j <? 27).
Proof. change NonIdleLanes with (Z.ones 27). apply Z.testbit_ones. lia. Qed.

Lemma lanes_zero_bits n :
  is_lanes n -> (forall j, Z.testbit n j = false) -> n = 0.
Proof. intros _ Hb. apply Z.bits_inj'. intros j _. rewrite Hb, Z.bits_0. reflexivity. Qed.

Lemma band_0_r a : band a 0 = 0.
Proof. unfold band. change (toInt32 0) with 0. apply Z.land_0_r. Qed.

(** While non-idle work is pending and nothing has expired, the first
    choice is made among the non-idle pending lanes. *)
Lemma firstChoice_non_idle (root : FiberRoot) (reg : Z) :
  is_lanes (pendingLanes root) ->
  expiredLanes root = NoLanes ->
  band (pendingLanes root) NonIdleLanes <> NoLanes ->
  is_lanes (fst (fst (firstChoice root reg)))
  /\ forall j, Z.testbit (fst (fst (firstChoice root reg))) j = true ->
               Z.testbit (pendingLanes root) j = true /\ j < 27.
Proof.
  intros Hp He Hni. unfold firstChoice. cbv zeta. rewrite He.
  change (negb (NoLanes =? NoLanes)) with false. cbv iota.
  destruct (Z.eqb_spec (band (pendingLanes root) NonIdleLanes) NoLanes)
    as [|_]; [contradiction|]. cbn [negb].
  set (nonIdle := band (pendingLanes root) NonIdleLanes).
  assert (is_lanes nonIdle) as Hn by (apply band_lanes_l; assumption).
  assert (forall j, Z.testbit nonIdle j = true ->
                    Z.testbit (pendingLanes root) j = true /\ j < 27) as Hnb.
  { intros j Hj. unfold nonIdle in Hj.
    rewrite testbit_band in Hj by (assumption || closed_range).
    apply andb_prop in Hj as [Hpj Hnj]. rewrite testbit_NonIdleLanes in Hnj.
    apply andb_prop in Hnj as [_ Hlt]. apply Z.ltb_lt in Hlt. auto. }
  assert (forall x, is_lanes (band nonIdle x)
                    /\ forall j, Z.testbit (band nonIdle x) j = true ->
                                 Z.testbit (pendingLanes root) j = true /\ j < 27)
    as Hsub.
  { intros x. split; [apply band_lanes_l; assumption|].
    intros j Hj. rewrite testbit_band_int in Hj by assumption.
    apply andb_prop in Hj as [Hj _]. auto. }
  assert (forall x, band nonIdle x <> 0 ->
            is_lanes (fst (getHighestPriorityLanes (band nonIdle x)))
            /\ forall j,
                 Z.testbit (fst (getHighestPriorityLanes (band nonIdle x))) j = true ->
                 Z.testbit (pendingLanes root) j = true /\ j < 27) as Hgroup.
  { intros x Hx. destruct (Hsub x) as [Hl Hb].
    destruct (highest_group_lowest _ Hl Hx) as (Hgl & Hgb & _).
    split; [assumption|]. intros j Hj. apply Hb, Hgb, Hj. }
  assert (is_lanes NoLanes
          /\ forall j, Z.testbit NoLanes j = true ->
                       Z.testbit (pendingLanes root) j = true /\ j < 27) as Hnone.
  { split; [closed_range|]. intros j Hj. unfold NoLanes in Hj.
    rewrite Z.bits_0 in Hj. discriminate. }
  destruct (Z.eqb_spec (band nonIdle (bnot (suspendedLanes root))) NoLanes)
    as [_|Hu]; cbn [negb].
  - destruct (Z.eqb_spec (band nonIdle (pingedLanes root)) NoLanes)
      as [_|Hpi]; cbn [negb]; [exact Hnone|].
    specialize (Hgroup _ Hpi).
    destruct (getHighestPriorityLanes (band nonIdle (pingedLanes root))).
    exact Hgroup.
  - specialize (Hgroup _ Hu).
    destruct (getHighestPriorityLanes (band nonIdle (bnot (suspendedLanes root)))).
    exact Hgroup.
Qed.

(** X16: while non-idle work is pending and no lane has expired,
    [getNextLanes] does not start idle work: without entangled lanes, what
    it returns is either the lanes in progress as they are, or a set of
    non-idle lanes. *)
Theorem getNextLanes_non_idle_work_first (root : FiberRoot) (wipLanes reg : Z) :
  is_lanes (pendingLanes root) ->
  expiredLanes root = NoLanes ->
  entangledLanes root = NoLanes ->
  includesNonIdleWork (pendingLanes root) = true ->
  fst (getNextLanes root wipLanes reg) = wipLanes
  \/ isSubsetOfLanes NonIdleLanes (fst (getNextLanes root wipLanes reg)) = true.
Proof.
  intros Hp Hx He Hni. unfold includesNonIdleWork in Hni.
  apply negb_true_iff, Z.eqb_neq in Hni.
  destruct (firstChoice_non_idle root reg Hp Hx Hni) as [Hn Hnb].
  unfold getNextLanes.
  pose proof (selectNextLanes_shape root wipLanes reg) as Hs.
  destruct (selectNextLanes root wipLanes reg) as [[l r]|[l r]].
  - cbn [fst]. destruct Hs as [->|[-> _]]; [right|left; reflexivity].
    apply isSubsetOfLanes_0.
  - rewrite He. change (NoLanes =? NoLanes) with true. cbn [negb fst].
    destruct Hs as [Hne ->]. right.
    apply isSubsetOfLanes_bits;
      [closed_range|apply band_lanes_l; assumption|].
    intros j Hj. rewrite testbit_kept in Hj by assumption.
    apply andb_prop in Hj as [Hpj Hle]. apply Z.leb_le in Hle.
    assert (0 < fst (fst (firstChoice root reg))) as Hpos
      by (destruct Hn; unfold NoLanes in Hne; lia).
    destruct (Hnb (Z.log2 (fst (fst (firstChoice root reg))))) as [_ Hlt];
      [apply Z.bit_log2; assumption|].
    rewrite testbit_NonIdleLanes.
    assert (0 <= j).
    { destruct (Z_lt_dec j 0) as [Hneg|]; [|lia].
      rewrite Z.testbit_neg_r in Hpj by assumption. discriminate. }
    destruct (Z.leb_spec 0 j); [|lia]. destruct (Z.ltb_spec j 27); [|lia].
    reflexivity.
Qed.

(** With every pending lane suspended, and no lane pinged or expired,
    there is no first choice. *)
Lemma firstChoice_all_suspended (root : FiberRoot) (reg : Z) :
  is_lanes (pendingLanes root) -> is_lanes (suspendedLanes root) ->
  expiredLanes root = NoLanes -> pingedLanes root = NoLanes ->
  isSubsetOfLanes (suspendedLanes root) (pendingLanes root) = true ->
  firstChoice root reg = (NoLanes, NoLanePriority, reg).
Proof.
  intros Hp Hs He Hpi Hsub. unfold firstChoice. cbv zeta.
  rewrite He, Hpi. change (negb (NoLanes =? NoLanes)) with false. cbv iota.
  pose proof (proj1 (isSubsetOfLanes_bits _ _ Hs Hp) Hsub) as Hbits.
  assert (forall x, is_lanes x ->
            (forall j, Z.testbit x j = true -> Z.testbit (pendingLanes root) j = true) ->
            band x (bnot (suspendedLanes root)) = NoLanes) as Hblocked.
  { intros x Hx Hxb. apply lanes_zero_bits; [apply band_lanes_l; assumption|].
    intros j. rewrite testbit_band_bnot, (toInt32_lanes (suspendedLanes root))
      by assumption.
    destruct (Z.testbit x j) eqn:E; [|reflexivity].
    rewrite (Hbits j (Hxb j E)). reflexivity. }
  rewrite band_0_r.
  rewrite (Hblocked (pendingLanes root)) by auto.
  rewrite (Hblocked (band (pendingLanes root) NonIdleLanes)).
  - change (negb (NoLanes =? NoLanes)) with false.
    change (negb (0 =? NoLanes)) with false. cbv iota.
    destruct (negb _); reflexivity.
  - apply band_lanes_l. assumption.
  - intros j Hj. rewrite testbit_band_int in Hj by assumption.
    apply andb_prop in Hj. apply Hj.
Qed.

(** X17: when every pending lane is suspended and no lane is pinged or
    expired, [getNextLanes] finds nothing to work on: it returns
    [NoLanes], whatever lanes are in progress, and leaves the priority
    register as it was (or at [NoLanePriority] when nothing is pending). *)
Theorem getNextLanes_nothing_while_suspended (root : FiberRoot) (wipLanes reg : Z) :
  is_lanes (pendingLanes root) -> is_lanes (suspendedLanes root) ->
  expiredLanes root = NoLanes -> pingedLanes root = NoLanes ->
  isSubsetOfLanes (suspendedLanes root) (pendingLanes root) = true ->
  getNextLanes root wipLanes reg
  = (NoLanes, if pendingLanes root =? NoLanes then NoLanePriority else reg).
Proof.
  intros Hp Hs He Hpi Hsub. unfold getNextLanes.
  rewrite selectNextLanes_firstChoice, firstChoice_all_suspended by assumption.
  destruct (pendingLanes root =? NoLanes); reflexivity.
Qed.

Lemma getNextLanes_within_pending_witness :
  is_lanes (pendingLanes root_default_and_idle)
  /\ entangledLanes root_default_and_idle = NoLanes
  /\ (fst (getNextLanes root_default_and_idle NoLanes NoLanePriority) = NoLanes
      \/ isSubsetOfLanes (pendingLanes root_default_and_idle)
           (fst (getNextLanes root_default_and_idle NoLanes NoLanePriority))
         = true).
Proof.
  assert (is_lanes (pendingLanes root_default_and_idle)) as Hp by closed_range.
  assert (entangledLanes root_default_and_idle = NoLanes) as He by reflexivity.
  split; [exact Hp|]. split; [exact He|].
  exact (getNextLanes_within_pending root_default_and_idle NoLanes
           NoLanePriority Hp He).
Defined.

Lemma getNextLanes_non_idle_work_first_witness :
  is_lanes (pendingLanes root_default_and_idle)
  /\ expiredLanes root_default_and_idle = NoLanes
  /\ entangledLanes root_default_and_idle = NoLanes
  /\ includesNonIdleWork (pendingLanes root_default_and_idle) = true
  /\ includesSomeLane (pendingLanes root_default_and_idle) IdleLanes = true
  /\ (fst (getNextLanes root_default_and_idle NoLanes NoLanePriority) = NoLanes
      \/ isSubsetOfLanes NonIdleLanes
           (fst (getNextLanes root_default_and_idle NoLanes NoLanePriority))
         = true).
Proof.
  assert (is_lanes (pendingLanes root_default_and_idle)) as Hp by closed_range.
  assert (expiredLanes root_default_and_idle = NoLanes) as Hx by reflexivity.
  assert (entangledLanes root_default_and_idle = NoLanes) as He by reflexivity.
  assert (includesNonIdleWork (pendingLanes root_default_and_idle) = true)
    as Hni by reflexivity.
  split; [exact Hp|]. split; [exact Hx|]. split; [exact He|].
  split; [exact Hni|]. split; [reflexivity|].
  exact (getNextLanes_non_idle_work_first root_default_and_idle NoLanes
           NoLanePriority Hp Hx He Hni).
Defined.

(** A default lane updated, then suspended. *)
Definition root_default_suspended : FiberRoot :=
  markRootSuspended (markRootUpdated emptyRoot (2 ^ 9) 10) (2 ^ 9).

Lemma getNextLanes_nothing_while_suspended_witness :
  is_lanes (pendingLanes root_default_suspended)
  /\ is_lanes (suspendedLanes root_default_suspended)
  /\ expiredLanes root_default_suspended = NoLanes
  /\ pingedLanes root_default_suspended = NoLanes
  /\ isSubsetOfLanes (suspendedLanes root_default_suspended)
       (pendingLanes root_default_suspended) = true
  /\ pendingLanes root_default_suspended <> NoLanes
  /\ getNextLanes root_default_suspended NoLanes DefaultLanePriority
     = (NoLanes,
        if pendingLanes root_default_suspended =? NoLanes then NoLanePriority
        else DefaultLanePriority).
Proof.
  assert (is_lanes (pendingLanes root_default_suspended)) as Hp by closed_range.
  assert (is_lanes (suspendedLanes root_default_suspended)) as Hs by closed_range.
  assert (expiredLanes root_default_suspended = NoLanes) as He by reflexivity.
  assert (pingedLanes root_default_suspended = NoLanes) as Hpi by reflexivity.
  assert (isSubsetOfLanes (suspendedLanes root_default_suspended)
            (pendingLanes root_default_suspended) = true) as Hsub by reflexivity.
  split; [exact Hp|]. split; [exact Hs|]. split; [exact He|].
  split; [exact Hpi|]. split; [exact Hsub|].
  split; [vm_compute; congruence|].
  exact (getNextLanes_nothing_while_suspended root_default_suspended NoLanes
           DefaultLanePriority Hp Hs He Hpi Hsub).
Defined.

(** *** An update is picked up *)

Lemma testbit_toInt32_lanes a i : is_lanes a -> Z.testbit (toInt32 a) i = Z.testbit a i.
Proof. intros. rewrite toInt32_lanes by assumption. reflexivity. Qed.

(** X18: once [markRootUpdated] has recorded an update on a non-idle
    lane, [getNextLanes] called with no lanes in progress returns work to
    do: the lanes it returns include the updated lane or a lane of higher
    priority.  (The expired lanes are assumed pending, as the marking
    functions keep them.) *)
Theorem getNextLanes_picks_up_update
    (root : FiberRoot) (i eventTime reg : Z) :
  0 <= i <= 26 ->
  is_lanes (pendingLanes root) ->
  is_lanes (expiredLanes root) ->
  isSubsetOfLanes (pendingLanes root) (expiredLanes root) = true ->
  let root' := markRootUpdated root (2 ^ i) eventTime in
  exists j, j <= i
            /\ Z.testbit (fst (getNextLanes root' NoLanes reg)) j = true.
Proof.
  intros Hi Hp He Hsub root'.
  assert (is_lanes (2 ^ i)) as Hlane by (apply is_lanes_pow2; lia).
  assert (is_lanes (pendingLanes root')) as Hp'
    by (apply is_lanes_bor; assumption).
  assert (forall j, Z.testbit (pendingLanes root') j
                    = Z.testbit (pendingLanes root) j || (i =? j)) as Hpb.
  { intros j. unfold root', markRootUpdated. cbn [pendingLanes].
    rewrite testbit_bor, testbit_pow2 by (assumption || lia). reflexivity. }
  assert (Z.testbit (pendingLanes root') i = true) as Hpi
    by (rewrite Hpb, Z.eqb_refl; apply orb_true_r).
  assert (Z.testbit (toInt32 (suspendedLanes root')) i = false) as Hsi.
  { unfold root', markRootUpdated. cbn [suspendedLanes].
    rewrite toInt32_small by apply band_range. unfold band.
    replace (2 ^ i - 1) with (Z.ones i) by (rewrite Z.ones_equiv; lia).
    rewrite (toInt32_lanes (Z.ones i)) by (apply is_lanes_ones; lia).
    rewrite Z.land_spec, Z.ones_spec_high by lia. apply andb_false_r. }
  (* the lanes handed to the entanglement step *)
  assert (exists chosen r j,
             selectNextLanes root' NoLanes reg = inr (chosen, r)
             /\ is_lanes chosen /\ j <= i /\ Z.testbit chosen j = true)
    as (chosen & r & j & Hsel & Hcl & Hji & Hcj).
  { rewrite selectNextLanes_firstChoice.
    destruct (Z.eqb_spec (pendingLanes root') NoLanes) as [E|_].
    { rewrite E in Hpi. unfold NoLanes in Hpi. rewrite Z.bits_0 in Hpi.
      discriminate. }
    assert (exists n p r j,
               firstChoice root' reg = (n, p, r) /\ is_lanes n /\ n <> 0
               /\ j <= i /\ j <= Z.log2 n
               /\ Z.testbit (pendingLanes root') j = true)
      as (n & p & r & j & Hfc & Hn & Hne & Hji & Hjn & Hpj).
    { unfold firstChoice. cbv zeta.
      change (expiredLanes root') with (expiredLanes root).
      destruct (Z.eqb_spec (expiredLanes root) NoLanes) as [Hx|Hx]; cbn [negb].
      - set (nonIdle := band (pendingLanes root') NonIdleLanes).
        assert (is_lanes nonIdle) as Hnl by (apply band_lanes_l; assumption).
        assert (Z.testbit nonIdle i = true) as Hni.
        { unfold nonIdle. rewrite testbit_band by (assumption || closed_range).
          rewrite Hpi, testbit_NonIdleLanes.
          destruct (Z.leb_spec 0 i); [|lia]. destruct (Z.ltb_spec i 27); [|lia].
          reflexivity. }
        destruct (Z.eqb_spec nonIdle NoLanes) as [E|_].
        { exfalso. apply (testbit_nonzero _ _ Hni). exact E. }
        cbn [negb].
        set (unblocked := band nonIdle (bnot (suspendedLanes root'))).
        assert (is_lanes unblocked) as Hul by (apply band_lanes_l; assumption).
        assert (Z.testbit unblocked i = true) as Hui.
        { unfold unblocked. rewrite testbit_band_bnot, Hni, Hsi by assumption.
          reflexivity. }
        pose proof (testbit_nonzero _ _ Hui) as Hune.
        destruct (Z.eqb_spec unblocked NoLanes) as [E|_]; [contradiction|].
        cbn [negb].
        destruct (highest_group_lowest unblocked Hul Hune)
          as (Hgl & Hgb & i0 & Hi0 & Hgi0 & Hlow).
        destruct (getHighestPriorityLanes unblocked) as [g p]. cbn [fst] in *.
        exists g, p, p, i0. split; [reflexivity|]. split; [assumption|].
        pose proof (testbit_nonzero _ _ Hgi0) as Hgne.
        split; [assumption|]. split; [apply Hlow; assumption|].
        split; [apply testbit_le_log2; [destruct Hgl; lia|assumption]|].
        specialize (Hgb i0 Hgi0). unfold unblocked in Hgb.
        rewrite testbit_band_int in Hgb by assumption.
        apply andb_prop in Hgb as [Hgb _]. unfold nonIdle in Hgb.
        rewrite testbit_band_int in Hgb by assumption.
        apply andb_prop in Hgb. apply Hgb.
      - assert (0 < expiredLanes root) as Hpos
          by (destruct He; unfold NoLanes in Hx; lia).
        destruct (Z_le_dec i (Z.log2 (expiredLanes root))) as [Hle|Hgt].
        + exists (expiredLanes root), SyncLanePriority, SyncLanePriority, i.
          repeat split; try assumption; try apply He; lia.
        + exists (expiredLanes root), SyncLanePriority, SyncLanePriority,
            (Z.log2 (expiredLanes root)).
          repeat split; try assumption; try apply He; try lia.
          rewrite Hpb.
          rewrite (proj1 (isSubsetOfLanes_bits _ _ Hp He) Hsub)
            by (apply Z.bit_log2; assumption).
          reflexivity. }
    rewrite Hfc.
    destruct (Z.eqb_spec n NoLanes) as [E|_]; [contradiction|]. cbv zeta.
    change (negb (NoLanes =? NoLanes)) with false. cbn [andb].
    eexists _, _, j. split; [reflexivity|].
    split; [apply band_lanes_l; assumption|]. split; [assumption|].
    rewrite testbit_kept by assumption. rewrite Hpj.
    destruct (Z.leb_spec j (Z.log2 n)); [reflexivity|lia]. }
  exists j. split; [assumption|].
  unfold getNextLanes. rewrite Hsel.
  destruct (negb (entangledLanes root' =? NoLanes)); [|assumption].
  cbn [fst].
  apply (entangle_loop_grows (entanglements root')
           (band chosen (entangledLanes root')) chosen).
  - apply is_lanes_int32. assumption.
  - assumption.
Qed.

Lemma getNextLanes_picks_up_update_witness :
  0 <= 3 <= 26
  /\ is_lanes (pendingLanes root_default_suspended)
  /\ is_lanes (expiredLanes root_default_suspended)
  /\ isSubsetOfLanes (pendingLanes root_default_suspended)
       (expiredLanes root_default_suspended) = true
  /\ fst (getNextLanes (markRootUpdated root_default_suspended (2 ^ 3) 20)
            NoLanes NoLanePriority) = 2 ^ 3
  /\ exists j, j <= 3
       /\ Z.testbit
            (fst (getNextLanes (markRootUpdated root_default_suspended (2 ^ 3) 20)
                    NoLanes NoLanePriority)) j = true.
Proof.
  assert (0 <= 3 <= 26) as Hi by lia.
  assert (is_lanes (pendingLanes root_default_suspended)) as Hp by closed_range.
  assert (is_lanes (expiredLanes root_default_suspended)) as He by closed_range.
  assert (isSubsetOfLanes (pendingLanes root_default_suspended)
            (expiredLanes root_default_suspended) = true) as Hsub by reflexivity.
  split; [exact Hi|]. split; [exact Hp|]. split; [exact He|].
  split; [exact Hsub|]. split; [reflexivity|].
  exact (getNextLanes_picks_up_update root_default_suspended 3 20
           NoLanePriority Hi Hp He Hsub).
Defined.

End LaneNext.

(** ** The registers of a root *)

Module LaneRegisters.
Import JS Lane LaneFacts LaneProperties LaneNext.

(** *** The lane registers of a root stay consistent *)

(** The registers hold masks of lanes; pinged lanes are suspended, and
    expired lanes and lanes with a mutable read are pending. *)
Definition registersOk (root : FiberRoot) : Prop :=
  is_lanes (pendingLanes root) /\ is_lanes (suspendedLanes root)
  /\ is_lanes (pingedLanes root) /\ is_lanes (expiredLanes root)
  /\ is_lanes (mutableReadLanes root)
  /\ isSubsetOfLanes (suspendedLanes root) (pingedLanes root) = true
  /\ isSubsetOfLanes (pendingLanes root) (expiredLanes root) = true
  /\ isSubsetOfLanes (pendingLanes root) (mutableReadLanes root) = true.

Lemma registersOk_intro (root : FiberRoot) :
  is_lanes (pendingLanes root) -> is_lanes (suspendedLanes root) ->
  is_lanes (pingedLanes root) -> is_lanes (expiredLanes root) ->
  is_lanes (mutableReadLanes root) ->
  (forall i, Z.testbit (pingedLanes root) i = true ->
             Z.testbit (suspendedLanes root) i = true) ->
  (forall i, Z.testbit (expiredLanes root) i = true ->
             Z.testbit (pendingLanes root) i = true) ->
  (forall i, Z.testbit (mutableReadLanes root) i = true ->
             Z.testbit (pendingLanes root) i = true) ->
  registersOk root.
Proof.
  intros. unfold registersOk. split_and!; try assumption;
    apply isSubsetOfLanes_bits; assumption.
Qed.

Lemma registersOk_elim (root : FiberRoot) :
  registersOk root ->
  is_lanes (pendingLanes root) /\ is_lanes (suspendedLanes root)
  /\ is_lanes (pingedLanes root) /\ is_lanes (expiredLanes root)
  /\ is_lanes (mutableReadLanes root)
  /\ (forall i, Z.testbit (pingedLanes root) i = true ->
                Z.testbit (suspendedLanes root) i = true)
  /\ (forall i, Z.testbit (expiredLanes root) i = true ->
                Z.testbit (pendingLanes root) i = true)
  /\ (forall i, Z.testbit (mutableReadLanes root) i = true ->
                Z.testbit (pendingLanes root) i = true).
Proof.
  intros (Hp & Hs & Hg & He & Hm & H1 & H2 & H3).
  split_and!; try assumption.
  - apply isSubsetOfLanes_bits; assumption.
  - apply isSubsetOfLanes_bits; assumption.
  - apply isSubsetOfLanes_bits; assumption.
Qed.

Ltac bits_of H :=
  rewrite ?testbit_bor, ?testbit_band in H
    by first [assumption | apply band_lanes_l; assumption
             | apply is_lanes_bor; assumption ].

Lemma markRootUpdated_registersOk (root : FiberRoot) (i eventTime : Z) :
  0 <= i <= 30 -> registersOk root ->
  registersOk (markRootUpdated root (2 ^ i) eventTime).
Proof.
  intros Hi Hok.
  destruct (registersOk_elim root Hok) as (Hp & Hs & Hg & He & Hm & H1 & H2 & H3).
  assert (is_lanes (2 ^ i)) as Hl by (apply is_lanes_pow2; assumption).
  apply registersOk_intro; unfold markRootUpdated; root_simpl;
    try assumption; try (apply band_lanes_l; assumption).
  - apply is_lanes_bor; assumption.
  - intros j Hj. rewrite testbit_band_int in * by assumption.
    apply andb_prop in Hj as [Hj Hm']. rewrite (H1 j Hj), Hm'. reflexivity.
  - intros j Hj. rewrite testbit_bor by assumption. rewrite (H2 j Hj). reflexivity.
  - intros j Hj. rewrite testbit_bor by assumption. rewrite (H3 j Hj). reflexivity.
Qed.

Lemma markRootSuspended_registersOk (root : FiberRoot) (lanes : Z) :
  is_lanes lanes -> registersOk root ->
  registersOk (markRootSuspended root lanes).
Proof.
  intros Hl Hok.
  destruct (registersOk_elim root Hok) as (Hp & Hs & Hg & He & Hm & H1 & H2 & H3).
  apply registersOk_intro; unfold markRootSuspended; root_simpl;
    try assumption; try (apply band_lanes_l; assumption).
  - apply is_lanes_bor; assumption.
  - intros j Hj. rewrite testbit_band_int in Hj by assumption.
    apply andb_prop in Hj as [Hj _].
    rewrite testbit_bor by assumption. rewrite (H1 j Hj). reflexivity.
Qed.

Lemma markRootPinged_registersOk (root : FiberRoot) (lanes eventTime : Z) :
  is_lanes lanes -> registersOk root ->
  registersOk (markRootPinged root lanes eventTime).
Proof.
  intros Hl Hok.
  destruct (registersOk_elim root Hok) as (Hp & Hs & Hg & He & Hm & H1 & H2 & H3).
  assert (is_lanes (band (suspendedLanes root) lanes))
    by (apply band_lanes_l; assumption).
  apply registersOk_intro; unfold markRootPinged; root_simpl; try assumption.
  - apply is_lanes_bor; assumption.
  - intros j Hj. rewrite testbit_bor in Hj by assumption.
    apply orb_prop in Hj as [Hj|Hj]; [auto|].
    rewrite testbit_band_int in Hj by assumption.
    apply andb_prop in Hj. apply Hj.
Qed.

Lemma markRootExpired_registersOk (root : FiberRoot) (lanes : Z) :
  is_lanes lanes -> registersOk root ->
  registersOk (markRootExpired root lanes).
Proof.
  intros Hl Hok.
  destruct (registersOk_elim root Hok) as (Hp & Hs & Hg & He & Hm & H1 & H2 & H3).
  assert (is_lanes (band lanes (pendingLanes root)))
    by (apply band_lanes_l; assumption).
  apply registersOk_intro; unfold markRootExpired; root_simpl; try assumption.
  - apply is_lanes_bor; assumption.
  - intros j Hj. rewrite testbit_bor in Hj by assumption.
    apply orb_prop in Hj as [Hj|Hj]; [auto|].
    rewrite testbit_band in Hj by assumption.
    apply andb_prop in Hj. apply Hj.
Qed.

Lemma markDiscreteUpdatesExpired_registersOk (root : FiberRoot) :
  registersOk root -> registersOk (markDiscreteUpdatesExpired root).
Proof.
  intros Hok.
  destruct (registersOk_elim root Hok) as (Hp & Hs & Hg & He & Hm & H1 & H2 & H3).
  assert (is_lanes InputDiscreteLanes) as Hl by closed_range.
  assert (is_lanes (band InputDiscreteLanes (pendingLanes root)))
    by (apply band_lanes_l; assumption).
  apply registersOk_intro; unfold markDiscreteUpdatesExpired; root_simpl;
    try assumption.
  - apply is_lanes_bor; assumption.
  - intros j Hj. rewrite testbit_bor in Hj by assumption.
    apply orb_prop in Hj as [Hj|Hj]; [auto|].
    rewrite testbit_band in Hj by assumption.
    apply andb_prop in Hj. apply Hj.
Qed.

Lemma markRootMutableRead_registersOk (root : FiberRoot) (lanes : Z) :
  is_lanes lanes -> registersOk root ->
  registersOk (markRootMutableRead root lanes).
Proof.
  intros Hl Hok.
  destruct (registersOk_elim root Hok) as (Hp & Hs & Hg & He & Hm & H1 & H2 & H3).
  assert (is_lanes (band lanes (pendingLanes root)))
    by (apply band_lanes_l; assumption).
  apply registersOk_intro; unfold markRootMutableRead; root_simpl; try assumption.
  - apply is_lanes_bor; assumption.
  - intros j Hj. rewrite testbit_bor in Hj by assumption.
    apply orb_prop in Hj as [Hj|Hj]; [auto|].
    rewrite testbit_band in Hj by assumption.
    apply andb_prop in Hj. apply Hj.
Qed.

Lemma markRootFinished_registersOk (root : FiberRoot) (remainingLanes : Z) :
  is_lanes remainingLanes -> registersOk root ->
  registersOk (markRootFinished root remainingLanes).
Proof.
  intros Hl Hok.
  destruct (registersOk_elim root Hok) as (Hp & Hs & Hg & He & Hm & H1 & H2 & H3).
  unfold markRootFinished. cbv zeta.
  destruct (forEachLane clearLaneSlots _ _) as [[ent ev] ex].
  assert (is_lanes 0) as H0 by closed_range.
  apply registersOk_intro; root_simpl;
    try assumption; try (apply band_lanes_l; assumption).
  - intros j Hj. rewrite Z.bits_0 in Hj. discriminate.
  - intros j Hj. rewrite testbit_band in Hj by assumption.
    apply andb_prop in Hj. apply Hj.
  - intros j Hj. rewrite testbit_band in Hj by assumption.
    apply andb_prop in Hj. apply Hj.
Qed.

Lemma markStarvedLanesAsExpired_registersOk (root : FiberRoot) (now reg : Z) :
  registersOk root ->
  registersOk (fst (markStarvedLanesAsExpired root now reg))
  /\ pendingLanes (fst (markStarvedLanesAsExpired root now reg)) = pendingLanes root
  /\ suspendedLanes (fst (markStarvedLanesAsExpired root now reg))
     = suspendedLanes root
  /\ pingedLanes (fst (markStarvedLanesAsExpired root now reg)) = pingedLanes root
  /\ mutableReadLanes (fst (markStarvedLanesAsExpired root now reg))
     = mutableReadLanes root.
Proof.
  intros Hok.
  destruct (registersOk_elim root Hok) as (Hp & Hs & Hg & He & Hm & H1 & H2 & H3).
  pose (I := fun (rest : Z) (st : FiberRoot * Z) =>
    (forall i, Z.testbit rest i = true -> Z.testbit (pendingLanes root) i = true)
    /\ pendingLanes (fst st) = pendingLanes root
    /\ suspendedLanes (fst st) = suspendedLanes root
    /\ pingedLanes (fst st) = pingedLanes root
    /\ mutableReadLanes (fst st) = mutableReadLanes root
    /\ is_lanes (expiredLanes (fst st))
    /\ (forall i, Z.testbit (expiredLanes (fst st)) i = true ->
                  Z.testbit (pendingLanes root) i = true)).
  assert (I 0 (markStarvedLanesAsExpired root now reg))
    as (_ & Ep & Es & Eg & Em & Hel & Hsub).
  { unfold markStarvedLanesAsExpired. apply (forEachLane_rule _ I).
    - intros rest [r g] Hrest Hpos (Hin & Ep & Es & Eg & Em & Hel & Hsub).
      root_simpl.
      pose proof (log2_lanes rest Hrest Hpos) as Hk.
      pose proof (Z.bit_log2 rest Hpos) as Htop.
      assert (forall i, Z.testbit (Z.clearbit rest (Z.log2 rest)) i = true ->
                        Z.testbit (pendingLanes root) i = true) as Hin'.
      { intros i Hi. rewrite Z.clearbit_eqb in Hi.
        apply andb_prop in Hi as [Hi _]. auto. }
      unfold markStarvedLane.
      repeat case_match; unfold I; root_simpl;
        split_and!; try assumption.
      + apply is_lanes_bor; [assumption|apply is_lanes_pow2; assumption].
      + intros i Hi.
        rewrite testbit_bor in Hi by (try apply is_lanes_pow2; assumption).
        apply orb_prop in Hi as [Hi|Hi]; [auto|].
        rewrite testbit_pow2 in Hi by lia. apply Z.eqb_eq in Hi. subst i. auto.
    - assumption.
    - unfold I. root_simpl. split_and!; auto. }
  split; [|split_and!; assumption].
  apply registersOk_intro; try congruence.
  - rewrite Eg, Es. assumption.
  - rewrite Ep. assumption.
  - rewrite Em, Ep. assumption.
Qed.

(** X19: updating, suspending, pinging and finishing keep the lane
    registers of a root consistent.  If the registers hold masks of lanes,
    the pinged lanes are suspended, and the expired lanes and the lanes
    with a mutable read are pending, then the same holds after
    [markRootUpdated] (of a single lane), [markRootSuspended],
    [markRootPinged] and [markRootFinished], called with masks of lanes. *)
Theorem suspension_marks_keep_registers_consistent (root : FiberRoot) :
  registersOk root ->
  (forall i eventTime, 0 <= i <= 30 ->
     registersOk (markRootUpdated root (2 ^ i) eventTime))
  /\ (forall lanes, is_lanes lanes -> registersOk (markRootSuspended root lanes))
  /\ (forall lanes eventTime, is_lanes lanes ->
        registersOk (markRootPinged root lanes eventTime))
  /\ (forall lanes, is_lanes lanes -> registersOk (markRootFinished root lanes)).
Proof.
  intros Hok. split_and!.
  - intros. apply markRootUpdated_registersOk; assumption.
  - intros. apply markRootSuspended_registersOk; assumption.
  - intros. apply markRootPinged_registersOk; assumption.
  - intros. apply markRootFinished_registersOk; assumption.
Qed.

Lemma registersOk_root_default_suspended : registersOk root_default_suspended.
Proof. unfold registersOk. split_and!; first [closed_range | reflexivity]. Qed.

Lemma suspension_marks_keep_registers_consistent_witness :
  registersOk root_default_suspended
  /\ registersOk (markRootPinged root_default_suspended (2 ^ 9) 30)
  /\ registersOk (markRootFinished root_default_suspended NoLanes).
Proof.
  pose proof registersOk_root_default_suspended as Hok.
  split; [exact Hok|].
  destruct (suspension_marks_keep_registers_consistent root_default_suspended Hok)
    as (_ & _ & Hpinged & Hfinished).
  split; [apply Hpinged|apply Hfinished]; closed_range.
Defined.

(** X20: marking lanes as expired or as read keeps the lane registers of
    a root consistent.  Under the same conditions, [markRootExpired],
    [markDiscreteUpdatesExpired] and [markRootMutableRead] add pending
    lanes only, and [markStarvedLanesAsExpired] changes no register but
    [expiredLanes], to which it adds pending lanes only. *)
Theorem expiration_marks_keep_registers_consistent (root : FiberRoot) :
  registersOk root ->
  (forall lanes, is_lanes lanes -> registersOk (markRootExpired root lanes))
  /\ registersOk (markDiscreteUpdatesExpired root)
  /\ (forall lanes, is_lanes lanes -> registersOk (markRootMutableRead root lanes))
  /\ (forall currentTime reg,
        let root' := fst (markStarvedLanesAsExpired root currentTime reg) in
        registersOk root'
        /\ pendingLanes root' = pendingLanes root
        /\ suspendedLanes root' = suspendedLanes root
        /\ pingedLanes root' = pingedLanes root
        /\ mutableReadLanes root' = mutableReadLanes root).
Proof.
  intros Hok. split_and!.
  - intros. apply markRootExpired_registersOk; assumption.
  - apply markDiscreteUpdatesExpired_registersOk; assumption.
  - intros. apply markRootMutableRead_registersOk; assumption.
  - intros currentTime reg. cbv zeta.
    apply markStarvedLanesAsExpired_registersOk; assumption.
Qed.

Lemma expiration_marks_keep_registers_consistent_witness :
  registersOk root_default_suspended
  /\ registersOk (markRootExpired root_default_suspended (2 ^ 9))
  /\ registersOk (fst (markStarvedLanesAsExpired root_default_suspended 100
                         NoLanePriority)).
Proof.
  pose proof registersOk_root_default_suspended as Hok.
  split; [exact Hok|].
  destruct (expiration_marks_keep_registers_consistent root_default_suspended Hok)
    as (Hexpired & _ & _ & Hstarved).
  split; [apply Hexpired; closed_range|apply Hstarved].
Defined.

End LaneRegisters.

(** * More properties of the scheduler *)

Module SchedulerProperties.
Import Scheduler SchedulerFacts.

Section Facts.
Context {Callback Host : Type} `{HostConfig Host}.
Variable enableSchedulerDebugging : bool.
Variable invoke : Callback -> bool -> @State Callback Host -> @CallbackResult Callback * @State Callback Host.

Local Abbreviation State := (@State Callback Host).
Local Abbreviation Task := (@Task Callback).

(** *** advanceTimers *)

Lemma advanceTimers_fields (now : Z) (s : State) :
  isSchedulerPaused (advanceTimers now s) = isSchedulerPaused s
  /\ currentTask (advanceTimers now s) = currentTask s
  /\ currentPriorityLevel (advanceTimers now s) = currentPriorityLevel s
  /\ isPerformingWork (advanceTimers now s) = isPerformingWork s
  /\ isHostCallbackScheduled (advanceTimers now s) = isHostCallbackScheduled s
  /\ isHostTimeoutScheduled (advanceTimers now s) = isHostTimeoutScheduled s
  /\ taskIdCounter (advanceTimers now s) = taskIdCounter s
  /\ host (advanceTimers now s) = host s.
Proof.
  unfold advanceTimers.
  destruct (advanceTimersLoop now (timerQueue s) (tasks s) (taskQueue s))
    as [[tasks' queue'] timers'].
  repeat split.
Qed.

(** What the loop of [advanceTimers] leaves: the timers it went through
    are in the task queue or were cancelled, and it stops in front of a
    timer that is not cancelled and not due. *)
Lemma advanceTimersLoop_due (now : Z) (timers : list Z) :
  forall (tasks : gmap Z Task) (queue : list Z),
    let '(tasks', queue', timers') := advanceTimersLoop now timers tasks queue in
    (exists done, timers = done ++ timers'
        /\ forall x, x ∈ done -> x ∈ queue' \/ tasks !! x ≫= callback = None)
    /\ (forall ref timer,
          head timers' = Some ref -> tasks' !! ref = Some timer ->
          is_Some (callback timer) /\ now < startTime timer).
Proof.
  induction timers as [|ref rest IH]; intros tasks queue; cbn [advanceTimersLoop].
  - split; [exists []; split; [reflexivity|]|].
    + intros x Hx. apply elem_of_nil in Hx. contradiction.
    + intros ref timer Hhd. discriminate.
  - destruct (tasks !! ref) as [timer|] eqn:Hlook.
    + destruct (callback timer) as [cb|] eqn:Hcb.
      * destruct (Z.leb_spec (startTime timer) now) as [Hdue|Hlater].
        -- set (tasks1 := <[ref := setSortIndex (expirationTime timer) timer]> tasks).
           specialize (IH tasks1 (push tasks1 queue ref)).
           pose proof (advanceTimersLoop_spec now rest tasks1 (push tasks1 queue ref))
             as Hspec.
           destruct (advanceTimersLoop now rest tasks1 (push tasks1 queue ref))
             as [[tasks' queue'] timers'].
           destruct IH as ((done & Hdone & Hin) & Hstop).
           destruct Hspec as (_ & Hmono & _).
           split; [|assumption].
           exists (ref :: done). split; [rewrite Hdone; reflexivity|].
           intros x Hx. apply elem_of_cons in Hx as [->|Hx].
           ++ left. apply Hmono, push_elem. left. reflexivity.
           ++ destruct (Hin x Hx) as [Hq|Hc]; [left; assumption|].
              unfold tasks1 in Hc. destruct (decide (ref = x)) as [<-|Hne].
              ** rewrite lookup_insert_eq in Hc. cbn in Hc. congruence.
              ** rewrite lookup_insert_ne in Hc by assumption. right. assumption.
        -- split; [exists []; split; [reflexivity|]|].
           ++ intros x Hx. apply elem_of_nil in Hx. contradiction.
           ++ intros ref' timer' [= <-] Hlook'.
              rewrite Hlook in Hlook'. injection Hlook' as <-.
              rewrite Hcb. split; [eauto|assumption].
      * specialize (IH tasks queue).
        destruct (advanceTimersLoop now rest tasks queue)
          as [[tasks' queue'] timers'].
        destruct IH as ((done & Hdone & Hin) & Hstop).
        split; [|assumption].
        exists (ref :: done). split; [rewrite Hdone; reflexivity|].
        intros x Hx. apply elem_of_cons in Hx as [->|Hx]; [|auto].
        right. rewrite Hlook. cbn. assumption.
    + split; [exists []; split; [reflexivity|]|].
      * intros x Hx. apply elem_of_nil in Hx. contradiction.
      * intros ref' timer' [= <-] Hlook'. congruence.
Qed.

(** X21: [advanceTimers] loses no task and promotes no cancelled one.
    Every timer queued before the call is afterwards still in the timer
    queue, or in the task queue, or was cancelled; the task queue keeps
    the tasks it had; a cancelled timer does not enter the task queue;
    and the timer left at the head of the timer queue, if any, is not
    cancelled and not yet due. *)
Theorem advanceTimers_moves_due_timers (currentTime : Z) (s : State) :
  let s' := advanceTimers currentTime s in
  (forall x, x ∈ timerQueue s ->
     x ∈ timerQueue s' \/ x ∈ taskQueue s' \/ callbackOf s x = None)
  /\ (forall x, x ∈ taskQueue s -> x ∈ taskQueue s')
  /\ (forall x, x ∈ taskQueue s' -> x ∈ taskQueue s \/ is_Some (callbackOf s x))
  /\ (forall ref timer,
        peekTask (tasks s') (timerQueue s') = Some (ref, timer) ->
        is_Some (callback timer) /\ currentTime < startTime timer).
Proof.
  cbv zeta. split; [|split; [|split]].
  - unfold advanceTimers, callbackOf.
    pose proof (advanceTimersLoop_due currentTime (timerQueue s) (tasks s)
                  (taskQueue s)) as Hdue.
    destruct (advanceTimersLoop currentTime (timerQueue s) (tasks s) (taskQueue s))
      as [[tasks' queue'] timers'].
    destruct Hdue as ((done & Hdone & Hin) & _). cbn.
    intros x Hx. rewrite Hdone in Hx. apply elem_of_app in Hx as [Hx|Hx].
    + destruct (Hin x Hx); auto.
    + left. assumption.
  - intros x. apply advanceTimers_keeps_queued.
  - intros x. apply advanceTimers_promotes_live.
  - unfold advanceTimers, peekTask, peek.
    pose proof (advanceTimersLoop_due currentTime (timerQueue s) (tasks s)
                  (taskQueue s)) as Hdue.
    destruct (advanceTimersLoop currentTime (timerQueue s) (tasks s) (taskQueue s))
      as [[tasks' queue'] timers'].
    destruct Hdue as (_ & Hstop). cbn.
    intros ref timer Hpeek.
    destruct (head timers') as [r|] eqn:Hhd; [|discriminate].
    destruct (tasks' !! r) as [t|] eqn:Hlook; [|discriminate].
    injection Hpeek as <- <-. apply (Hstop r); [reflexivity|assumption].
Qed.

(** *** handleTimeout *)

(** X22: after [handleTimeout] the timeout flag is down, and a host
    callback is scheduled whenever the task queue is not empty; the tasks
    and the two queues are those [advanceTimers] leaves.  If no task is
    ready and no host callback is scheduled, the host is asked for a
    timeout for the first timer (and the timeout flag stays down). *)
Theorem handleTimeout_schedules_flush (currentTime : Z) (s : State) :
  let s' := handleTimeout currentTime s in
  let advanced := advanceTimers currentTime s in
  isHostTimeoutScheduled s' = false
  /\ (taskQueue s' = [] \/ isHostCallbackScheduled s' = true)
  /\ tasks s' = tasks advanced
  /\ taskQueue s' = taskQueue advanced
  /\ timerQueue s' = timerQueue advanced
  /\ (forall ref firstTimer,
        taskQueue s' = [] -> isHostCallbackScheduled s = false ->
        peekTask (tasks s') (timerQueue s') = Some (ref, firstTimer) ->
        host s'
        = requestHostTimeout (startTime firstTimer - currentTime) (host s)).
Proof.
  cbv zeta. unfold handleTimeout.
  set (s0 := withIsHostTimeoutScheduled false s).
  assert (tasks s0 = tasks s /\ taskQueue s0 = taskQueue s
          /\ timerQueue s0 = timerQueue s) as (Et & Eq & Em) by auto.
  assert (advanceTimers currentTime s0
          = withIsHostTimeoutScheduled false (advanceTimers currentTime s)) as Eadv.
  { unfold advanceTimers, s0. cbn [tasks taskQueue timerQueue withIsHostTimeoutScheduled].
    destruct (advanceTimersLoop currentTime (timerQueue s) (tasks s) (taskQueue s))
      as [[tasks' queue'] timers']. reflexivity. }
  rewrite Eadv. set (a := advanceTimers currentTime s).
  destruct (advanceTimers_fields currentTime s)
    as (_ & _ & _ & _ & Hcb & _ & _ & Hhost).
  fold a in Hcb, Hhost.
  cbn [isHostCallbackScheduled withIsHostTimeoutScheduled taskQueue tasks
       timerQueue host].
  rewrite Hcb.
  destruct (isHostCallbackScheduled s) eqn:Hsched; cbn [negb].
  - cbn. rewrite Hcb. split_and!; auto. intros ? ? _ Hd. discriminate.
  - destruct (taskQueue a) as [|first rest] eqn:Hq; cbn [peek head].
    + destruct (peekTask (tasks a) (timerQueue a)) as [[r firstTimer]|] eqn:Hpeek.
      * cbn. rewrite Hq, Hpeek. split_and!; auto.
        intros ? ? _ _ [= <- <-]. rewrite Hhost. reflexivity.
      * cbn. rewrite Hq, Hpeek. split_and!; auto. intros ? ? _ _ Hd. discriminate.
    + cbn. rewrite Hq. split_and!; auto. intros ? ? Hd. discriminate.
Qed.

(** *** flushWork *)

(** When [flushWork] returns, it returns true exactly when a task is left
    in the task queue. *)
Lemma flushWork_more_work
    (debugging : bool) (rounds : nat) (hasTimeRemaining : bool)
    (initialTime : Z) (s : State) (more : bool) (ran : list Z) (s' : State) :
  flushWork debugging invoke rounds hasTimeRemaining initialTime s
  = Some (Returned more, ran, s') ->
  (more = true <-> taskQueue s' <> []).
Proof.
  unfold flushWork. cbv zeta.
  set (s0 := withIsPerformingWork true _).
  destruct (workLoop debugging invoke rounds hasTimeRemaining initialTime s0)
    as [[[result1 ran1] s1]|] eqn:Hloop; [|discriminate].
  intros [= -> <- <-].
  cbn [taskQueue withIsPerformingWork withCurrentPriorityLevel withCurrentTask].
  unfold workLoop in Hloop.
  eapply workLoopFrom_result in Hloop; [|reflexivity].
  destruct Hloop as [_ Hmore].
  rewrite Hmore. unfold peek. destruct (taskQueue s1); cbn.
  - split; [intros [? ?]; discriminate|congruence].
  - split; [discriminate|eauto].
Qed.

(** X23: however [flushWork] ends (the loop returns, or a task throws),
    its [finally] block has run: no task is current, the scheduler is not
    performing work, and the ambient priority is the one [flushWork] was
    entered with.  When it returns, it returns true exactly when a task is
    left in the task queue. *)
Theorem flushWork_finally_restores
    (rounds : nat) (hasTimeRemaining : bool) (initialTime : Z) (s : State)
    (result : Completion bool) (ran : list Z) (s' : State) :
  flushWork enableSchedulerDebugging invoke rounds hasTimeRemaining initialTime s
  = Some (result, ran, s') ->
  currentTask s' = None
  /\ isPerformingWork s' = false
  /\ currentPriorityLevel s' = currentPriorityLevel s
  /\ (forall more, result = Returned more ->
        (more = true <-> taskQueue s' <> [])).
Proof.
  intros Hflush. split_and!.
  - revert Hflush. unfold flushWork. cbv zeta.
    destruct (workLoop _ _ _ _ _ _) as [[[result1 ran1] s1]|]; [|discriminate].
    intros [= <- <- <-]. reflexivity.
  - revert Hflush. unfold flushWork. cbv zeta.
    destruct (workLoop _ _ _ _ _ _) as [[[result1 ran1] s1]|]; [|discriminate].
    intros [= <- <- <-]. reflexivity.
  - revert Hflush. unfold flushWork. cbv zeta.
    destruct (workLoop _ _ _ _ _ _) as [[[result1 ran1] s1]|]; [|discriminate].
    intros [= <- <- <-].
    cbn [currentPriorityLevel withIsPerformingWork withCurrentPriorityLevel].
    destruct (isHostTimeoutScheduled _); reflexivity.
  - intros more ->.
    exact (flushWork_more_work enableSchedulerDebugging rounds hasTimeRemaining
             initialTime s more ran s' Hflush).
Qed.

(** *** The first task of a slice *)

Lemma workLoop_first_round (debugging : bool) (rounds : nat)
    (hasTimeRemaining : bool) (initialTime : Z) (s : State) :
  workLoop debugging invoke (S rounds) hasTimeRemaining initialTime s
  = let s0 := withCurrentTask (peek (taskQueue (advanceTimers initialTime s)))
                (advanceTimers initialTime s) in
    match workLoopRound debugging invoke hasTimeRemaining initialTime s0 with
    | Exit s1 =>
        let '(more, s2) := workLoopEnd initialTime s1 in
        Some (Returned more, [], s2)
    | Raised ran s1 => Some (Thrown, ran, s1)
    | Again currentTime ran s1 =>
        match workLoopFrom debugging invoke rounds hasTimeRemaining
                currentTime s1 with
        | Some (result, ran', s2) => Some (result, ran ++ ran', s2)
        | None => None
        end
    end.
Proof. reflexivity. Qed.


(** The state in which [workLoop] enters its loop. *)
Definition workLoopEntry (initialTime : Z) (s : State) : State :=
  withCurrentTask (peek (taskQueue (advanceTimers initialTime s)))
    (advanceTimers initialTime s).


(** A round that does not stop in front of its task calls it. *)
Lemma workLoopRound_calls_task
    (debugging : bool) (hasTimeRemaining : bool) (now : Z) (s : State)
    (ref : Z) (task : Task) (cb : Callback) :
  currentTask s = Some ref ->
  (debugging && isSchedulerPaused s) = false ->
  tasks s !! ref = Some task ->
  callback task = Some cb ->
  ((now <? expirationTime task)
   && (negb hasTimeRemaining || shouldYieldToHost (host s))) = false ->
  let entered :=
    withCurrentPriorityLevel (priorityLevel task)
      (withTasks (<[ref := setCallback None task]> (tasks s)) s) in
  let called := invoke cb (expirationTime task <=? now) entered in
  match workLoopRound debugging invoke hasTimeRemaining now s with
  | Exit _ => False
  | Raised ran s1 => ran = [ref] /\ called = (Threw, s1)
  | Again now1 ran s1 =>
      ran = [ref] /\ fst called <> Threw
      /\ now1 = getCurrentTime (host (snd called))
  end.
Proof.
  intros Hcur Hpaused Hlook Hcb Hgo entered called.
  unfold workLoopRound. rewrite Hcur, Hpaused, Hlook, Hgo, Hcb.
  fold entered. fold called.
  destruct called as [[k| |] s1]; cbn [fst snd].
  - split; [reflexivity|]. split; [discriminate|reflexivity].
  - split; [reflexivity|]. split; [discriminate|reflexivity].
  - split; reflexivity.
Qed.

(** What [workLoop] returns, from its first round. *)
Lemma workLoop_after_first_round (debugging : bool) (rounds : nat)
    (hasTimeRemaining : bool) (initialTime : Z) (s : State) (ref : Z) :
  match workLoopRound debugging invoke hasTimeRemaining initialTime
          (workLoopEntry initialTime s) with
  | Exit _ => True
  | Raised ran s1 =>
      ran = [ref] ->
      workLoop debugging invoke (S rounds) hasTimeRemaining initialTime s
      = Some (Thrown, [ref], s1)
  | Again now1 ran s1 =>
      ran = [ref] ->
      workLoop debugging invoke (S rounds) hasTimeRemaining initialTime s
      = match workLoopFrom debugging invoke rounds hasTimeRemaining now1 s1 with
        | Some (result, rest, s') => Some (result, ref :: rest, s')
        | None => None
        end
  end.
Proof.
  rewrite workLoop_first_round. cbv zeta. fold (workLoopEntry initialTime s).
  destruct (workLoopRound debugging invoke hasTimeRemaining initialTime
              (workLoopEntry initialTime s)) as [s1|now1 ran s1|ran s1].
  - exact I.
  - intros ->.
    destruct (workLoopFrom debugging invoke rounds hasTimeRemaining now1 s1)
      as [[[result rest] s']|]; reflexivity.
  - intros ->. reflexivity.
Qed.

(** X24: a task that has expired is not held back by the host's wish to
    yield.  If, once the due timers are promoted, the head of the task
    queue is a task with a callback whose expiration time has passed, and
    the scheduler is not paused, then the first round of [workLoop] calls
    that task, with [didUserCallbackTimeout] true, whether or not time
    remains and whatever [shouldYieldToHost] says: the round never stops
    in front of it.  When the callback throws, [workLoop] throws having
    called that task only; otherwise [workLoop] goes on from the state the
    round leaves, and whatever it then returns, that task is the first it
    has called. *)
Theorem workLoop_runs_expired_task_first
    (rounds : nat) (hasTimeRemaining : bool) (initialTime : Z) (s : State)
    (ref : Z) (task : Task) (cb : Callback) :
  let s0 := advanceTimers initialTime s in
  let entered :=
    withCurrentPriorityLevel (priorityLevel task)
      (withTasks (<[ref := setCallback None task]> (tasks s0))
         (withCurrentTask (Some ref) s0)) in
  let called := invoke cb true entered in
  peek (taskQueue s0) = Some ref ->
  tasks s0 !! ref = Some task ->
  callback task = Some cb ->
  expirationTime task <= initialTime ->
  (enableSchedulerDebugging && isSchedulerPaused s0) = false ->
  match workLoopRound enableSchedulerDebugging invoke hasTimeRemaining
          initialTime (withCurrentTask (Some ref) s0) with
  | Exit _ => False
  | Raised ran s1 =>
      ran = [ref] /\ called = (Threw, s1)
      /\ workLoop enableSchedulerDebugging invoke (S rounds) hasTimeRemaining
           initialTime s = Some (Thrown, [ref], s1)
  | Again now1 ran s1 =>
      ran = [ref] /\ fst called <> Threw
      /\ now1 = getCurrentTime (host (snd called))
      /\ workLoop enableSchedulerDebugging invoke (S rounds) hasTimeRemaining
           initialTime s
         = match workLoopFrom enableSchedulerDebugging invoke rounds
                   hasTimeRemaining now1 s1 with
           | Some (result, rest, s') => Some (result, ref :: rest, s')
           | None => None
           end
  end
  /\ forall result ran s',
       workLoop enableSchedulerDebugging invoke (S rounds) hasTimeRemaining
         initialTime s = Some (result, ran, s') ->
       exists rest, ran = ref :: rest.
Proof.
  intros s0 entered called Hpeek Hlook Hcb Hexp Hpaused.
  assert (Hexpired : (expirationTime task <=? initialTime) = true)
    by (apply Z.leb_le; assumption).
  assert (Hgo : ((initialTime <? expirationTime task)
                 && (negb hasTimeRemaining
                     || shouldYieldToHost (host (withCurrentTask (Some ref) s0))))
                = false).
  { destruct (Z.ltb_spec initialTime (expirationTime task)); [lia|reflexivity]. }
  pose proof (workLoopRound_calls_task enableSchedulerDebugging hasTimeRemaining
                initialTime (withCurrentTask (Some ref) s0) ref task cb
                eq_refl Hpaused Hlook Hcb Hgo) as Hround.
  cbv zeta in Hround. rewrite Hexpired in Hround.
  cbn [tasks withCurrentTask] in Hround. fold entered in Hround.
  fold called in Hround.
  pose proof (workLoop_after_first_round enableSchedulerDebugging rounds
                hasTimeRemaining initialTime s ref) as Hloop.
  unfold workLoopEntry in Hloop. fold s0 in Hloop. rewrite Hpeek in Hloop.
  destruct (workLoopRound enableSchedulerDebugging invoke hasTimeRemaining
              initialTime (withCurrentTask (Some ref) s0))
    as [s1|now1 ran s1|ran s1].
  - contradiction.
  - destruct Hround as (Hran & Hcalled & Hnow). specialize (Hloop Hran).
    split; [auto|].
    intros result ran' s'. rewrite Hloop.
    destruct (workLoopFrom _ _ _ _ _ _) as [[[result2 rest] s2]|];
      [|discriminate].
    intros [= <- <- <-]. eauto.
  - destruct Hround as (Hran & Hcalled). specialize (Hloop Hran).
    split; [auto|].
    intros result ran' s'. rewrite Hloop. intros [= <- <- <-]. eauto.
Qed.


(** *** Pausing *)

(** X25: with [enableSchedulerDebugging] on, a paused scheduler calls no
    task: [workLoop] stops at once, leaves the scheduler paused and every
    callback where it was, and still returns true when a task is waiting
    in the task queue. *)
Theorem paused_scheduler_calls_no_task
    (rounds : nat) (hasTimeRemaining : bool) (initialTime : Z) (s : State) :
  exists more s',
    workLoop true invoke (S rounds) hasTimeRemaining initialTime
      (unstable_pauseExecution s)
    = Some (Returned more, [], s')
    /\ (more = true <-> taskQueue s' <> [])
    /\ isSchedulerPaused s' = true
    /\ forall task, callbackOf s' task = callbackOf s task.
Proof.
  rewrite workLoop_first_round. cbv zeta.
  set (paused := unstable_pauseExecution s).
  set (a := advanceTimers initialTime paused).
  destruct (advanceTimers_fields initialTime paused)
    as (Hp & _ & _ & _ & _ & _ & _ & Hhost).
  fold a in Hp, Hhost.
  assert (forall task, callbackOf a task = callbackOf s task) as Hcbs.
  { intros task. unfold a. rewrite advanceTimers_callbackOf. reflexivity. }
  unfold workLoopRound.
  cbn [currentTask withCurrentTask isSchedulerPaused tasks host].
  rewrite Hp. change (isSchedulerPaused paused) with true. cbn [andb].
  destruct (taskQueue a) as [|first rest] eqn:Hq; cbn [peek head].
  - unfold workLoopEnd. cbn [currentTask withCurrentTask tasks timerQueue host].
    destruct (peekTask (tasks a) (timerQueue a)) as [[r firstTimer]|].
    + eexists false, _. split; [reflexivity|]. cbn. rewrite Hq, Hp.
      split; [split; [discriminate|congruence]|]. split; [reflexivity|exact Hcbs].
    + eexists false, _. split; [reflexivity|]. cbn. rewrite Hq, Hp.
      split; [split; [discriminate|congruence]|]. split; [reflexivity|exact Hcbs].
  - unfold workLoopEnd. cbn [currentTask withCurrentTask].
    eexists true, _. split; [reflexivity|]. cbn. rewrite Hq, Hp.
    split; [split; [discriminate|reflexivity]|]. split; [reflexivity|exact Hcbs].
Qed.

(** *** Priorities around a handler *)

(** X26: [unstable_next] runs the handler once, in a state that differs
    from the caller's only in the ambient priority: Normal when the caller
    runs at Immediate, UserBlocking or Normal priority, and the caller's
    own level otherwise (never above Normal for a caller at one of the five
    levels).  It ends as the handler ends, and afterwards the ambient
    priority is the caller's again, whether the handler returned or
    threw. *)
Theorem next_lowers_to_normal_and_restores {R : Type}
    (eventHandler : State -> Completion R * State) (s : State) :
  let level :=
    if currentPriorityLevel s <=? NormalPriority
    then (if ImmediatePriority <=? currentPriorityLevel s then NormalPriority
          else currentPriorityLevel s)
    else currentPriorityLevel s in
  let entered := withCurrentPriorityLevel level s in
  let done := unstable_next eventHandler s in
  fst done = fst (eventHandler entered)
  /\ snd done
     = withCurrentPriorityLevel (currentPriorityLevel s)
         (snd (eventHandler entered))
  /\ currentPriorityLevel (snd done) = currentPriorityLevel s
  /\ (validPriority (currentPriorityLevel s) = true ->
      NormalPriority <= level /\ validPriority level = true).
Proof.
  intros level entered done.
  assert (level
          = if (currentPriorityLevel s =? ImmediatePriority)
               || (currentPriorityLevel s =? UserBlockingPriority)
               || (currentPriorityLevel s =? NormalPriority)
            then NormalPriority else currentPriorityLevel s) as Hlevel.
  { unfold level, ImmediatePriority, UserBlockingPriority, NormalPriority.
    destruct (Z.leb_spec (currentPriorityLevel s) 3),
      (Z.leb_spec 1 (currentPriorityLevel s)),
      (Z.eqb_spec (currentPriorityLevel s) 1),
      (Z.eqb_spec (currentPriorityLevel s) 2),
      (Z.eqb_spec (currentPriorityLevel s) 3); cbn [orb]; lia. }
  assert (done = (fst (eventHandler entered),
                  withCurrentPriorityLevel (currentPriorityLevel s)
                    (snd (eventHandler entered)))) as Hdone.
  { unfold done, unstable_next. cbv zeta. rewrite <- Hlevel. fold entered.
    destruct (eventHandler entered) as [result s1]. reflexivity. }
  rewrite Hdone. cbn [fst snd].
  split; [reflexivity|]. split; [reflexivity|]. split; [reflexivity|].
  unfold validPriority, level, ImmediatePriority, UserBlockingPriority,
    NormalPriority, LowPriority, IdlePriority.
  intros Hv.
  destruct (Z.leb_spec (currentPriorityLevel s) 3),
      (Z.leb_spec 1 (currentPriorityLevel s)); cbn [orb]; try (split; [lia|reflexivity]).
  - repeat match type of Hv with
           | context [currentPriorityLevel s =? ?c] =>
               destruct (Z.eqb_spec (currentPriorityLevel s) c)
           end; cbn [orb] in Hv; try discriminate; lia.
  - split; [lia|exact Hv].
  - split; [lia|exact Hv].
Qed.

(** X27: the function [unstable_wrapCallback] returns runs the callback
    at the priority that was ambient when it was wrapped, whatever the
    priority is when it is called, and puts the caller's priority back
    afterwards, whether the callback returned or threw.  When the captured
    priority is one of the five levels this is what
    [unstable_runWithPriority] does with that level. *)
Theorem wrapCallback_runs_at_captured_priority {R : Type}
    (callback : State -> Completion R * State) (wrapped called : State) :
  let entered := withCurrentPriorityLevel (currentPriorityLevel wrapped) called in
  let done := unstable_wrapCallback callback wrapped called in
  fst done = fst (callback entered)
  /\ snd done
     = withCurrentPriorityLevel (currentPriorityLevel called)
         (snd (callback entered))
  /\ currentPriorityLevel (snd done) = currentPriorityLevel called
  /\ (validPriority (currentPriorityLevel wrapped) = true ->
      done = unstable_runWithPriority (currentPriorityLevel wrapped) callback
               called).
Proof.
  intros entered done.
  assert (done = (fst (callback entered),
                  withCurrentPriorityLevel (currentPriorityLevel called)
                    (snd (callback entered)))) as Hdone.
  { unfold done, unstable_wrapCallback. cbv zeta. fold entered.
    destruct (callback entered) as [result s1]. reflexivity. }
  rewrite Hdone. cbn [fst snd].
  split; [reflexivity|]. split; [reflexivity|]. split; [reflexivity|].
  intros Hv. unfold unstable_runWithPriority.
  fold (validPriority (currentPriorityLevel wrapped)). rewrite Hv. cbv zeta.
  fold entered. destruct (callback entered) as [result s1]. reflexivity.
Qed.

(** *** Scheduling *)

(** X28: [unstable_scheduleCallback] takes the next id for the new task
    and leaves every other task as it was.  A delayed task goes to the
    timer queue and the task queue is unchanged; a task that is not
    delayed goes to the task queue, the timer queue is unchanged, and
    afterwards a host callback is scheduled or work is being performed. *)
Theorem scheduleCallback_queues_task
    (s : State) (priorityLevel : Z) (callback : Callback) (options : Options) :
  let now := getCurrentTime (host s) in
  let r := unstable_scheduleCallback priorityLevel callback options s in
  fst r = taskIdCounter s
  /\ taskIdCounter (snd r) = taskIdCounter s + 1
  /\ (forall other, other <> fst r -> tasks (snd r) !! other = tasks s !! other)
  /\ (forall task, tasks (snd r) !! fst r = Some task ->
        if now <? startTime task
        then fst r ∈ timerQueue (snd r) /\ taskQueue (snd r) = taskQueue s
             /\ isHostCallbackScheduled (snd r) = isHostCallbackScheduled s
        else fst r ∈ taskQueue (snd r) /\ timerQueue (snd r) = timerQueue s
             /\ (isHostCallbackScheduled (snd r) = true
                 \/ isPerformingWork (snd r) = true)).
Proof.
  intros now r.
  destruct (scheduleCallback_task s priorityLevel callback options)
    as (Hid & Hlook & _).
  fold now r in Hid, Hlook. cbv zeta in Hlook.
  split; [exact Hid|].
  assert (taskIdCounter (snd r) = taskIdCounter s + 1
          /\ (forall other, other <> taskIdCounter s ->
                tasks (snd r) !! other = tasks s !! other)
          /\ (if now <? startTimeFor now options
              then taskIdCounter s ∈ timerQueue (snd r)
                   /\ taskQueue (snd r) = taskQueue s
                   /\ isHostCallbackScheduled (snd r) = isHostCallbackScheduled s
              else taskIdCounter s ∈ taskQueue (snd r)
                   /\ timerQueue (snd r) = timerQueue s
                   /\ (isHostCallbackScheduled (snd r) = true
                       \/ isPerformingWork (snd r) = true)))
    as (Hcounter & Hothers & Hqueue).
  { unfold r, unstable_scheduleCallback. fold now.
    fold (startTimeFor now options). fold (timeoutFor priorityLevel). cbv zeta.
    destruct (now <? startTimeFor now options) eqn:Hdelayed.
    - repeat case_match; cbn;
        (split; [reflexivity|]);
        (split; [intros other Hne; apply lookup_insert_ne; congruence|]);
        (split; [apply push_elem; left; reflexivity|]);
        split; reflexivity.
    - cbn [isHostCallbackScheduled isPerformingWork withTaskQueue withTasks
           withTaskIdCounter].
      destruct (isHostCallbackScheduled s) eqn:Hcb;
        destruct (isPerformingWork s) eqn:Hpw; cbn; rewrite ?Hcb, ?Hpw;
        (split; [reflexivity|]);
        (split; [intros other Hne; apply lookup_insert_ne; congruence|]);
        (split; [apply push_elem; left; reflexivity|]);
        (split; [reflexivity|]); auto. }
  split; [exact Hcounter|]. split; [rewrite Hid; exact Hothers|].
  intros task Htask. rewrite Hlook in Htask. injection Htask as <-.
  cbn [startTime]. rewrite Hid. exact Hqueue.
Qed.

End Facts.
(** Instances on the demo scheduler. *)

#[local] Existing Instance demoHostConfig.

Lemma flushWork_finally_restores_witness :
  let s := snd (unstable_scheduleCallback ImmediatePriority (Work 1 0) NotAnObject
                  (demoStart 1000)) in
  exists result ran s',
    flushWork false demoInvoke 3 true 0 s = Some (result, ran, s')
    /\ currentTask s' = None
    /\ isPerformingWork s' = false
    /\ currentPriorityLevel s' = NormalPriority.
Proof.
  intros s.
  assert (exists result ran s',
             flushWork false demoInvoke 3 true 0 s = Some (result, ran, s'))
    as (result & ran & s' & Hrun)
    by (eexists _, _, _; vm_compute; reflexivity).
  exists result, ran, s'. split; [exact Hrun|].
  destruct (flushWork_finally_restores false demoInvoke 3 true 0 s result ran s'
              Hrun) as (Hc & Hp & Hl & _).
  split; [exact Hc|]. split; [exact Hp|exact Hl].
Defined.

Lemma workLoop_runs_expired_task_first_witness :
  let s := snd (unstable_scheduleCallback ImmediatePriority (Work 1 0) NotAnObject
                  (demoStart 0)) in
  shouldYieldToHost (host s) = true
  /\ (exists now1 s1,
        workLoopRound false demoInvoke true 0
          (withCurrentTask (Some 1) (advanceTimers 0 s)) = Again now1 [1] s1)
  /\ exists result ran s',
       workLoop false demoInvoke 2 true 0 s = Some (result, ran, s')
       /\ exists rest, ran = 1 :: rest.
Proof.
  intros s. split; [reflexivity|].
  assert (peek (taskQueue (advanceTimers 0 s)) = Some 1) as Hpeek
    by (vm_compute; reflexivity).
  assert (tasks (advanceTimers 0 s) !! 1
          = Some (mkTask 1 (Some (Work 1 0)) ImmediatePriority 0 (-1) (-1)))
    as Hlook by (vm_compute; reflexivity).
  assert (-1 <= 0) as Hexp by lia.
  destruct (workLoop_runs_expired_task_first false demoInvoke 1 true 0 s 1
              (mkTask 1 (Some (Work 1 0)) ImmediatePriority 0 (-1) (-1))
              (Work 1 0) Hpeek Hlook eq_refl Hexp eq_refl) as [Hround Hrun].
  split.
  - destruct (workLoopRound false demoInvoke true 0
                (withCurrentTask (Some 1) (advanceTimers 0 s)))
      as [s1|now1 ran s1|ran s1].
    + contradiction.
    + destruct Hround as (-> & _). eauto.
    + destruct Hround as (_ & Hthrew & _). vm_compute in Hthrew. discriminate.
  - assert (exists result ran s',
               workLoop false demoInvoke 2 true 0 s = Some (result, ran, s'))
      as (result & ran & s' & Hsome)
      by (eexists _, _, _; vm_compute; reflexivity).
    exists result, ran, s'. split; [exact Hsome|]. exact (Hrun _ _ _ Hsome).
Defined.

End SchedulerProperties.

(** ** Facts about the DOM host *)

Module SchedulerHostFacts.
Import Scheduler SchedulerFacts SchedulerProperties SchedulerHostConfig.

#[local] Existing Instance domHostConfig.

Section Facts.
Context {Callback : Type}.
Variable enableSchedulerDebugging : bool.
Variable invoke :
  Callback -> bool -> @State Callback DomHost
  -> @CallbackResult Callback * @State Callback DomHost.

Local Abbreviation State := (@State Callback DomHost).
Local Abbreviation Task := (@Task Callback).

(** *** The message loop *)

(** The part of the host state the message loop lives in. *)
Definition channel (h : DomHost) : bool * bool * nat :=
  (isMessageLoopRunning h, scheduledHostCallback h, messages h).

(** Between two events: the loop is marked running exactly when a host
    callback is scheduled, and then one message is on its way; otherwise
    none is. *)
Definition channelOk (h : DomHost) : Prop :=
  isMessageLoopRunning h = scheduledHostCallback h
  /\ messages h = (if isMessageLoopRunning h then 1 else 0)%nat.

(** While work is being performed, the callbacks of the tasks do not
    touch the message channel, and they do not end the work themselves.
    (A callback that schedules a task then does not: the scheduler asks
    for a host callback only when it is not performing work.) *)
Definition callbacksKeepChannel : Prop :=
  forall (cb : Callback) (didTimeout : bool) (s : State),
    isPerformingWork s = true ->
    channel (host (snd (invoke cb didTimeout s))) = channel (host s)
    /\ isPerformingWork (snd (invoke cb didTimeout s)) = true.

Lemma workLoopRound_channel (hasTimeRemaining : bool) (now : Z) (s : State) :
  callbacksKeepChannel ->
  isPerformingWork s = true ->
  match workLoopRound enableSchedulerDebugging invoke hasTimeRemaining now s with
  | Exit s' | Again _ _ s' | Raised _ s' =>
      channel (host s') = channel (host s) /\ isPerformingWork s' = true
  end.
Proof.
  intros Hkeep Hwork. unfold workLoopRound.
  destruct (currentTask s) as [ref|]; [|auto].
  destruct (enableSchedulerDebugging && isSchedulerPaused s); [auto|].
  destruct (tasks s !! ref) as [task|]; [|auto].
  destruct ((now <? expirationTime task) && _); [auto|].
  destruct (callback task) as [cb|]; [|auto].
  match goal with
  | |- context [invoke cb ?d ?s0] =>
      destruct (Hkeep cb d s0 Hwork) as [Hinv Hwork1];
      destruct (invoke cb d s0) as [result s1]
  end.
  cbn [snd] in Hinv, Hwork1.
  cbn [host withCurrentPriorityLevel withTasks] in Hinv.
  destruct result as [k| |].
  - cbn [host isPerformingWork withCurrentTask].
    destruct (advanceTimers_fields (getCurrentTime (host s1))
                (withTasks (alter (setCallback (Some k)) ref (tasks s1)) s1))
      as (_ & _ & _ & Hwork2 & _ & _ & _ & Hhost).
    rewrite Hhost, Hwork2. auto.
  - cbn [host isPerformingWork withCurrentTask].
    match goal with
    | |- context [advanceTimers ?t ?s2] =>
        destruct (advanceTimers_fields t s2)
          as (_ & _ & _ & Hwork2 & _ & _ & _ & Hhost)
    end.
    rewrite Hhost, Hwork2. destruct (decide _); auto.
  - auto.
Qed.

Lemma workLoopFrom_channel (rounds : nat) :
  callbacksKeepChannel ->
  forall (hasTimeRemaining : bool) (now : Z) (s : State) result ran s',
    isPerformingWork s = true ->
    workLoopFrom enableSchedulerDebugging invoke rounds hasTimeRemaining now s
    = Some (result, ran, s') ->
    channel (host s') = channel (host s).
Proof.
  intros Hkeep. induction rounds as [|rounds IH];
    intros hasTimeRemaining now s result ran s' Hwork Hrun;
    cbn [workLoopFrom] in Hrun.
  - discriminate.
  - pose proof (workLoopRound_channel hasTimeRemaining now s Hkeep Hwork)
      as Hround.
    destruct (workLoopRound enableSchedulerDebugging invoke hasTimeRemaining now s)
      as [s1|now1 ran1 s1|ran1 s1]; destruct Hround as [Hround Hwork1].
    + unfold workLoopEnd in Hrun. destruct (currentTask s1).
      * injection Hrun as <- <- <-. exact Hround.
      * destruct (peekTask (tasks s1) (timerQueue s1)) as [[r firstTimer]|];
          injection Hrun as <- <- <-; exact Hround.
    + destruct (workLoopFrom enableSchedulerDebugging invoke rounds
                  hasTimeRemaining now1 s1) as [[[result2 ran2] s2]|] eqn:Hrest;
        [|discriminate].
      injection Hrun as <- <- <-.
      rewrite (IH _ _ _ _ _ _ Hwork1 Hrest). exact Hround.
    + injection Hrun as <- <- <-. exact Hround.
Qed.

Lemma flushWork_channel (rounds : nat) (hasTimeRemaining : bool)
    (initialTime : Z) (s : State) result ran s' :
  callbacksKeepChannel ->
  flushWork enableSchedulerDebugging invoke rounds hasTimeRemaining initialTime s
  = Some (result, ran, s') ->
  channel (host s') = channel (host s).
Proof.
  intros Hkeep. unfold flushWork. cbv zeta.
  set (s0 := withIsPerformingWork true _).
  assert (channel (host s0) = channel (host s)) as Hs0.
  { unfold s0. destruct (isHostTimeoutScheduled _); reflexivity. }
  destruct (workLoop enableSchedulerDebugging invoke rounds hasTimeRemaining
              initialTime s0) as [[[result1 ran1] s1]|] eqn:Hloop; [|discriminate].
  intros [= <- <- <-]. cbn [host withIsPerformingWork withCurrentPriorityLevel
                            withCurrentTask].
  unfold workLoop in Hloop.
  destruct (advanceTimers_fields initialTime s0)
    as (_ & _ & _ & Hwork & _ & _ & _ & Hhost).
  apply (workLoopFrom_channel _ Hkeep) in Hloop;
    [|cbn [isPerformingWork withCurrentTask]; rewrite Hwork; reflexivity].
  rewrite Hloop. cbn [host withCurrentTask].
  rewrite Hhost. exact Hs0.
Qed.

(** X29: the message loop of the DOM host neither stalls nor doubles.
    Between events the loop is marked running exactly when a host callback
    is scheduled, and then exactly one message is on its way.
    [requestHostCallback] keeps this, and leaves the loop running: it
    posts a message only when none is on its way.  The callbacks of the
    tasks are asked to leave the channel alone while work is being
    performed, as a callback that schedules tasks does.  Then every round
    of the work loop leaves the channel as it is; and when the message is
    delivered and [performWorkUntilDeadline] has run, the loop is running,
    with its one message, exactly when a task threw or a task is left in
    the task queue. *)
Theorem message_loop_runs_while_work_remains (s : State) :
  channelOk (host s) ->
  (channelOk (requestHostCallback (host s))
   /\ isMessageLoopRunning (requestHostCallback (host s)) = true)
  /\ (callbacksKeepChannel ->
      (forall hasTimeRemaining now (working : State),
         isPerformingWork working = true ->
         match workLoopRound enableSchedulerDebugging invoke hasTimeRemaining
                 now working with
         | Exit s' | Again _ _ s' | Raised _ s' =>
             channel (host s') = channel (host working)
             /\ isPerformingWork s' = true
         end)
      /\ forall rounds result ran s',
           isMessageLoopRunning (host s) = true ->
           messageEvent enableSchedulerDebugging invoke rounds s
           = Some (result, ran, s') ->
           channelOk (host s')
           /\ (isMessageLoopRunning (host s') = true
               <-> result = Thrown \/ taskQueue s' <> [])).
Proof.
  intros [Hsame Hcount]. split.
  - cbn [requestHostCallback domHostConfig]. unfold domRequestHostCallback, channelOk.
    cbv zeta. cbn [isMessageLoopRunning withScheduledHostCallback].
    destruct (isMessageLoopRunning (host s)) eqn:Hrun; cbn.
    + rewrite Hrun. auto.
    + rewrite Hcount. auto.
  - intros Hkeep. split.
    { intros hasTimeRemaining now working Hwork.
      apply workLoopRound_channel; assumption. }
    intros rounds result ran s' Hrun Hevent.
    unfold messageEvent in Hevent. rewrite Hcount, Hrun in Hevent.
    unfold performWorkUntilDeadline in Hevent.
    cbn [host withHost scheduledHostCallback] in Hevent.
    rewrite <- Hsame, Hrun in Hevent. cbv zeta in Hevent.
    match type of Hevent with
    | context [flushWork _ _ _ _ ?t ?s0] =>
        pose proof (fun r a x => flushWork_channel rounds true t s0 r a x Hkeep)
          as Hflush;
        pose proof (fun m a x =>
                      flushWork_more_work invoke enableSchedulerDebugging
                        rounds true t s0 m a x) as Hmore;
        destruct (flushWork enableSchedulerDebugging invoke rounds true t s0)
          as [[[result1 ran1] s1]|]; [|discriminate]
    end.
    specialize (Hflush _ _ _ eq_refl).
    unfold channel in Hflush. cbn in Hflush.
    injection Hflush as Hr1 Hc1 Hm1.
    destruct result1 as [hasMoreWork|].
    + specialize (Hmore hasMoreWork _ _ eq_refl).
      destruct hasMoreWork; cbn [negb] in Hevent; injection Hevent as <- <- <-;
        unfold channelOk; cbn; rewrite ?Hr1, ?Hc1, ?Hm1.
      * split; [auto|]. split; [intros _; right; apply Hmore; reflexivity|auto].
      * split; [auto|]. split; [discriminate|].
        intros [Hd|Hq]; [discriminate|]. apply Hmore in Hq. discriminate.
    + injection Hevent as <- <- <-. unfold channelOk. cbn.
      rewrite ?Hr1, ?Hc1, ?Hm1. split; [auto|]. split; auto.
Qed.

(** *** The time slice *)




End Facts.
(** *** The scheduler on the DOM host *)



(** The same, with a task whose callback schedules two more tasks: one
    at once, one with a delay. *)
Definition domForkStart : @State Job DomHost :=
  snd (unstable_scheduleCallback NormalPriority
         (Fork NormalPriority NotAnObject
            (Fork LowPriority (OptionsObject (Some 100)) Leaf))
         NotAnObject
         (mkState ∅ [] [] 1 false None NormalPriority false false false
            (initialHost 0))).

Lemma scheduleCallback_keeps_channel {Callback : Type}
    (priorityLevel : Z) (callback : Callback) (options : Options)
    (s : @State Callback DomHost) :
  isPerformingWork s = true ->
  let s' := snd (unstable_scheduleCallback priorityLevel callback options s) in
  channel (host s') = channel (host s) /\ isPerformingWork s' = true.
Proof.
  intros Hwork. cbv zeta. unfold unstable_scheduleCallback. cbv zeta.
  cbn [isPerformingWork isHostCallbackScheduled withTaskQueue withTasks
       withTaskIdCounter].
  rewrite Hwork, andb_false_r.
  repeat case_match; cbn; rewrite ?Hwork; auto.
Qed.

Lemma jobInvoke_keeps_channel : callbacksKeepChannel (@jobInvoke DomHost _).
Proof.
  intros [|priorityLevel options child] didTimeout s Hwork;
    cbn [jobInvoke snd]; [auto|].
  apply scheduleCallback_keeps_channel. assumption.
Qed.

Lemma channelOk_domForkStart : channelOk (host domForkStart).
Proof. split; reflexivity. Qed.

Lemma message_loop_runs_while_work_remains_witness :
  channelOk (host domForkStart)
  /\ callbacksKeepChannel (@jobInvoke DomHost _)
  /\ isMessageLoopRunning (host domForkStart) = true
  /\ exists s',
       messageEvent false jobInvoke 4 domForkStart
       = Some (Returned tt, [1; 2], s')
       /\ timerQueue s' = [3]
       /\ channelOk (host s')
       /\ (isMessageLoopRunning (host s') = true
           <-> Returned tt = Thrown \/ taskQueue s' <> []).
Proof.
  split; [exact channelOk_domForkStart|].
  split; [exact jobInvoke_keeps_channel|].
  split; [reflexivity|].
  assert (exists s',
             messageEvent false jobInvoke 4 domForkStart
             = Some (Returned tt, [1; 2], s') /\ timerQueue s' = [3])
    as (s' & Hrun & Htimers)
    by (eexists; split; vm_compute; reflexivity).
  exists s'. split; [exact Hrun|]. split; [exact Htimers|].
  destruct (message_loop_runs_while_work_remains false jobInvoke domForkStart
              channelOk_domForkStart) as [_ Hkept].
  destruct (Hkept jobInvoke_keeps_channel) as [_ Hevent].
  apply (Hevent 4%nat (Returned tt) [1; 2] s'); [reflexivity|exact Hrun].
Defined.


End SchedulerHostFacts.
